(** * IoT trust framework gateway: a shallow embedding of the event pipeline

    The development follows the three gateway modules of the repository:

    - [Gateway/src/blockchain.js]       canonical hasher and ledger adapter,
    - [Gateway/src/systemValidation.js] trend analysis engine,
    - [Gateway/src/index.js]            ingestion handler and write queue.

    Conventions of the embedding.

    - A finite JavaScript number is the rational [Q] it denotes; [NaN] is a
      separate constructor.  Arithmetic is exact: it is the arithmetic of the
      program wherever the exact results are doubles, as for whole numbers
      below 2^53 and their exact quotients.  Rounding, overflow and the
      infinities of IEEE doubles are outside the model.
    - A string lists the code units of the text, each below 256; on such
      texts [String.leb] is the order of code units used by [sort()].
    - [undefined] and [null] are separate constructors wherever the source
      distinguishes them ([??], [!== undefined], [Number(null) = 0]).
    - A [throw] is the [Throw] constructor of the [Exc] monad carrying the
      [message] of the error; [try { b } catch (err) { h }] is [try_catch].
      A conversion that throws in the language ([String] and [Number] of an
      object without a primitive, a property read on [null]) throws in the
      model, with the message of the engine.
    - An object read from JSON text has the prototype [Object.prototype] and
      no callable property of its own; its properties are listed with array
      indices first.
    - Results of awaited calls into collaborators (the RPC provider, the
      contract, the clock) are inputs of the functions that consume them; an
      [async] function runs to its first [await] inside the call that
      starts it.
    - A request is followed from its arrival to its answer with nothing else
      running in between: no other request is handled and the suspended
      worker is not resumed while the handler waits for the analysis. *)

From Stdlib Require Import List String Ascii Bool Arith ZArith QArith Qabs Qround Lia.
From Stdlib Require Import Permutation Sorted OrderedTypeEx.
Import ListNotations.

(* ===================================================================== *)
(** * Part I: the model                                                    *)
(* ===================================================================== *)

(** ** JavaScript runtime fragments shared by the three modules *)

Module JS.

(** Numbers: [NaN] or a finite value. *)
Inductive number : Type :=
| NaN
| Fin (q : Q).

(** A value read from a numeric field: the field may be absent or null. *)
Inductive value : Type :=
| Undefined
| Null
| Num (n : number).

(** [Number(v)] on such a value. *)
Definition ToNumber (v : value) : number :=
  match v with
  | Undefined => NaN
  | Null => Fin 0
  | Num n => n
  end.

Definition isNaN (n : number) : bool :=
  match n with NaN => true | Fin _ => false end.

(** [a < b] on rationals as a boolean. *)
Definition Qltb (a b : Q) : bool := negb (Qle_bool b a).

(** [a < b]: every comparison with [NaN] is false. *)
Definition lt (a b : number) : bool :=
  match a, b with
  | Fin x, Fin y => Qltb x y
  | _, _ => false
  end.

(** [v || 0] on a numeric field: undefined, null, NaN and 0 are falsy. *)
Definition orZero (v : value) : Q :=
  match v with
  | Num (Fin q) => q
  | _ => 0
  end.

(** [a === b] on numeric fields. *)
Definition strictEqValue (a b : value) : bool :=
  match a, b with
  | Undefined, Undefined => true
  | Null, Null => true
  | Num (Fin x), Num (Fin y) => Qeq_bool x y
  | _, _ => false
  end.

(** Exceptions: a computation returns or throws an error with a message. *)
Inductive Exc (A : Type) : Type :=
| Ret (a : A)
| Throw (message : string).

Arguments Ret {A} a.
Arguments Throw {A} message.

Definition bind {A B : Type} (c : Exc A) (k : A -> Exc B) : Exc B :=
  match c with
  | Ret a => k a
  | Throw m => Throw m
  end.

(** [try { body } catch (err) { handler(err.message) }]. *)
Definition try_catch {A : Type} (body : Exc A) (handler : string -> Exc A) : Exc A :=
  match body with
  | Ret a => Ret a
  | Throw m => handler m
  end.

(** Resolution of a free identifier against the bindings of a module scope:
    an unbound identifier throws a ReferenceError. *)
Fixpoint resolve {A : Type} (scope : list (string * A)) (name : string) : Exc A :=
  match scope with
  | [] => Throw (name ++ " is not defined")
  | (n, v) :: rest => if String.eqb n name then Ret v else resolve rest name
  end.

End JS.

Declare Scope exc_scope.
Delimit Scope exc_scope with exc.
Notation "x <- c ;; k" := (JS.bind c (fun x => k))
  (at level 61, c at next level, right associativity) : exc_scope.

(** ** Trend analysis engine ([Gateway/src/systemValidation.js]) *)

Module SystemValidation.
Import JS.
Local Open Scope string_scope.

(** config tunables *)
Definition WINDOW_EVENTS : nat := 20.
Definition DROP_DELTA : Q := 10.
Definition INSTABILITY_DELTA : Q := 8.
Definition DROP_COUNT_THRESHOLD : nat := 3.
Definition INSTABILITY_FRACTION : Q := 4 # 10.
Definition LOOKBACK_BLOCKS : Q := 50000.

(** What a top-level name of the module is bound to. *)
Inductive binding : Type :=
| BNumber (q : Q)
| BObject.

(** Every name bound at the top level of the module: the [require]d
    libraries, the constants and the five function declarations. *)
Definition moduleScope : list (string * binding) :=
  [ ("fs", BObject); ("path", BObject); ("ethers", BObject);
    ("EVENTS_FILE", BObject); ("CONTRACT", BObject);
    ("WINDOW_EVENTS", BNumber (inject_Z (Z.of_nat WINDOW_EVENTS)));
    ("DROP_DELTA", BNumber DROP_DELTA);
    ("INSTABILITY_DELTA", BNumber INSTABILITY_DELTA);
    ("DROP_COUNT_THRESHOLD", BNumber (inject_Z (Z.of_nat DROP_COUNT_THRESHOLD)));
    ("INSTABILITY_FRACTION", BNumber INSTABILITY_FRACTION);
    ("LOOKBACK_BLOCKS", BNumber LOOKBACK_BLOCKS);
    ("fetchOnChainTrustEvents", BObject); ("readLocalEventsForGroup", BObject);
    ("buildTrustSeries", BObject); ("analyzeSeries", BObject);
    ("systemValidate", BObject) ].

(** [b - k] for a resolved binding [b]: an object operand gives NaN. *)
Definition bindingMinus (b : binding) (k : Q) : number :=
  match b with
  | BNumber q => Fin (q - k)
  | BObject => NaN
  end.

(** [Math.max(a, b)] with a finite first argument. *)
Definition Math_max (a : Q) (b : number) : number :=
  match b with
  | NaN => NaN
  | Fin q => Fin (if Qle_bool a q then q else a)
  end.

(** The [groupId] of a historical observation.  A local observation, and a
    ledger log that could not be parsed, carry a text or nothing.  An
    observation decoded from a ledger log carries what the decoder of the
    package gives for the indexed string argument of [TrustEvent]: an
    [Indexed] object holding the hash of the text, not the text. *)
Inductive GroupId : Type :=
| NoGroup
| GroupName (name : string)
| Indexed.

(** [`${g || ''}`]: an object without a [toString] of its own prints as
    [[object Object]]. *)
Definition groupText (g : GroupId) : string :=
  match g with
  | NoGroup => EmptyString
  | GroupName name => name
  | Indexed => "[object Object]"
  end.

(** [a === b] on the [groupId] of two points: an object is equal to itself
    only, and every decoded log has an object of its own. *)
Definition strictEqGroup (a b : GroupId) : bool :=
  match a, b with
  | NoGroup, NoGroup => true
  | GroupName x, GroupName y => String.eqb x y
  | _, _ => false
  end.

(** One historical observation, as produced by [readLocalEventsForGroup]
    ([source = 'local']) and [fetchOnChainTrustEvents] ([source = 'onchain']
    or ['onchain_parse_error'], the latter with null scores and timestamp). *)
Record TrendPoint : Type := mkPoint {
  groupId : GroupId;
  oldTS : value;
  newTS : value;
  reason : option string;
  ts : value;
  source : string
}.

(** *** buildTrustSeries *)

(** [merged.sort((a,b) => (a.ts || 0) - (b.ts || 0))].  The sort of the
    language is stable, and a stable sort under a total preorder has a single
    result; insertion from the right computes it. *)
Fixpoint insertByTs (x : TrendPoint) (l : list TrendPoint) : list TrendPoint :=
  match l with
  | [] => [x]
  | y :: l' =>
      if Qle_bool (orZero (ts x)) (orZero (ts y)) then x :: l
      else y :: insertByTs x l'
  end.

Definition sortByTs (l : list TrendPoint) : list TrendPoint :=
  fold_right insertByTs [] l.

(** The member of [seen] for an item: the template string
    [`${item.groupId || ''}:${item.ts || 0}`].  The number is printed without
    a colon and distinct numbers print differently, so two such strings are
    equal exactly when both components are; the pair stands for the string. *)
Definition Key : Type := (string * Q)%type.

Definition keyOf (p : TrendPoint) : Key := (groupText (groupId p), orZero (ts p)).

Definition keyEqb (a b : Key) : bool :=
  String.eqb (fst a) (fst b) && Qeq_bool (snd a) (snd b).

(** [seen.has(k)] *)
Definition has (seen : list Key) (k : Key) : bool := existsb (keyEqb k) seen.

(** [arr.findIndex(f)]: [None] stands for -1. *)
Fixpoint findIndex {A : Type} (f : A -> bool) (l : list A) : option nat :=
  match l with
  | [] => None
  | x :: l' => if f x then Some O else option_map S (findIndex f l')
  end.

(** [arr[idx] = item] for an index inside the array. *)
Fixpoint replaceAt {A : Type} (idx : nat) (item : A) (l : list A) : list A :=
  match l, idx with
  | [], _ => []
  | _ :: l', O => item :: l'
  | x :: l', S n => x :: replaceAt n item l'
  end.

(** The test of the [findIndex] call:
    [d.groupId === item.groupId && d.ts === item.ts]. *)
Definition sameGroupTs (d item : TrendPoint) : bool :=
  strictEqGroup (groupId d) (groupId item) && strictEqValue (ts d) (ts item).

(** State of the dedup loop: the array [deduped] and the set [seen]. *)
Definition DedupState : Type := (list TrendPoint * list Key)%type.

(** One iteration of [for (const item of merged)]. *)
Definition dedupStep (st : DedupState) (item : TrendPoint) : DedupState :=
  let (deduped, seen) := st in
  if negb (has seen (keyOf item)) then
    ((deduped ++ [item])%list, (seen ++ [keyOf item])%list)
  else if String.eqb (source item) "local" then
    match findIndex (fun d => sameGroupTs d item) deduped with
    | Some idx => (replaceAt idx item deduped, seen)
    | None => st
    end
  else st.

Definition dedupe (merged : list TrendPoint) : list TrendPoint :=
  fst (fold_left dedupStep merged ([], [])).

(** [deduped.length <= WINDOW_EVENTS ? deduped
     : deduped.slice(deduped.length - WINDOW_EVENTS)] *)
Definition lastWindow (deduped : list TrendPoint) : list TrendPoint :=
  if (List.length deduped <=? WINDOW_EVENTS)%nat then deduped
  else skipn (List.length deduped - WINDOW_EVENTS) deduped.

(** Outcome of the on-chain read: [None] when the provider or the contract
    address is missing (no call is made), otherwise what
    [fetchOnChainTrustEvents] resolved to or threw. *)
Definition ChainRead : Type := option (Exc (list TrendPoint)).

Definition onchainPoints (chain : ChainRead) : list TrendPoint :=
  match chain with
  | Some (Ret pts) => pts
  | Some (Throw _) => []
  | None => []
  end.

(** [buildTrustSeries]: [local] is the result of [readLocalEventsForGroup]. *)
Definition buildTrustSeries (local : list TrendPoint) (chain : ChainRead)
  : list TrendPoint :=
  let onchain := onchainPoints chain in
  let merged := sortByTs (onchain ++ local)%list in
  lastWindow (dedupe merged).

(** *** analyzeSeries *)

(** The statistics of an [ok] analysis. *)
Record Stats : Type := mkStats {
  drops : nat;
  instabilityFrac : Q;
  slope : Q;
  samples : nat
}.

(** The object returned by [analyzeSeries]: [{ ok: false, reason }] or
    [{ ok: true, drops, instabilityFrac, slope, samples }]. *)
Inductive Analysis : Type :=
| NotOk (why : string)
| Ok (stats : Stats).

(** [(p.newTS !== undefined && p.newTS !== null) ? Number(p.newTS)
     : Number(p.oldTS)] *)
Definition scoreOf (p : TrendPoint) : number :=
  match newTS p with
  | Undefined => ToNumber (oldTS p)
  | Null => ToNumber (oldTS p)
  | Num n => n
  end.

(** The three accumulators of the pair loop. *)
Record Scan : Type := mkScan {
  dropsSoFar : nat;
  instabilityCount : nat;
  points : list (Q * Q)
}.

Definition indexQ (i : nat) : Q := inject_Z (Z.of_nat i).

(** Body of [for (let i = 1; i < series.length; i++)] at index [i], with
    [prevPt = series[i-1]] and [curPt = series[i]]. *)
Definition scanPair (i : nat) (prevPt curPt : TrendPoint) (st : Scan) : Scan :=
  match scoreOf prevPt, scoreOf curPt with
  | Fin prev, Fin cur =>
      let delta := (cur - prev)%Q in
      mkScan
        (if Qle_bool delta (- DROP_DELTA) then S (dropsSoFar st) else dropsSoFar st)
        (if Qle_bool INSTABILITY_DELTA (Qabs delta)
         then S (instabilityCount st) else instabilityCount st)
        (points st ++ [(indexQ i, cur)])%list
  | _, _ => st
  end.

Fixpoint scanFrom (i : nat) (prevPt : TrendPoint) (rest : list TrendPoint)
  (st : Scan) : Scan :=
  match rest with
  | [] => st
  | curPt :: rest' => scanFrom (S i) curPt rest' (scanPair i prevPt curPt st)
  end.

(** The four sums of the least-squares loop. *)
Record Sums : Type := mkSums { sumX : Q; sumY : Q; sumXY : Q; sumXX : Q }.

Definition addPoint (s : Sums) (p : Q * Q) : Sums :=
  let (x, y) := p in
  mkSums (sumX s + x) (sumY s + y) (sumXY s + x * y) (sumXX s + x * x).

Definition leastSquaresSlope (pts : list (Q * Q)) : Q :=
  if (2 <=? List.length pts)%nat then
    let s := fold_left addPoint pts (mkSums 0 0 0 0) in
    let n := indexQ (List.length pts) in
    let denom := (n * sumXX s - sumX s * sumX s)%Q in
    if negb (Qeq_bool denom 0) then ((n * sumXY s - sumX s * sumY s) / denom)%Q
    else 0
  else 0.

Definition analyzeSeries (series : list TrendPoint) : Analysis :=
  match series with
  | [] => NotOk "insufficient_samples"
  | [_] => NotOk "insufficient_samples"
  | first :: rest =>
      let st := scanFrom 1 first rest (mkScan 0 0 []) in
      let sampleCount := Nat.max 1 (List.length (points st)) in
      Ok (mkStats
            (dropsSoFar st)
            (indexQ (instabilityCount st) / indexQ sampleCount)
            (leastSquaresSlope (points st))
            (List.length series))
  end.

(** *** systemValidate *)

Inductive Action : Type :=
| no_action
| flag_for_review
| confirm_unreliable
| adjust_threshold_lower
| insufficient_data
| validation_error.

(** The decision object; a field the source leaves out is [None]. *)
Module Decision.
Record t : Type := mk {
  action : Action;
  reason : option string;
  analysis : option Analysis;
  newThreshold : option number;
  error : option string
}.
End Decision.

(** The body of the [try] block once the series is built. *)
Definition decide (series : list TrendPoint) : Exc Decision.t :=
  let analysis := analyzeSeries series in
  match analysis with
  | NotOk _ =>
      Ret (Decision.mk insufficient_data None (Some analysis) None None)
  | Ok a =>
      if (DROP_COUNT_THRESHOLD <=? drops a)%nat && (6 <=? samples a)%nat then
        Ret (Decision.mk confirm_unreliable (Some "recurring_drops")
               (Some analysis) None None)
      else if Qle_bool INSTABILITY_FRACTION (instabilityFrac a) then
        Ret (Decision.mk flag_for_review (Some "high_instability")
               (Some analysis) None None)
      else if Qltb (slope a) (-2) then
        (TRUST_THRESHOLD <- resolve moduleScope "TRUST_THRESHOLD" ;;
         Ret (Decision.mk adjust_threshold_lower (Some "downward_trend")
                (Some analysis)
                (Some (Math_max 10 (bindingMinus TRUST_THRESHOLD 5))) None))%exc
      else
        Ret (Decision.mk no_action None (Some analysis) None None)
  end.

(** [systemValidate(provider, contractAddress, groupId, deviceId)], as a
    function of what the two reads of the history return. *)
Definition systemValidate (local : list TrendPoint) (chain : ChainRead)
  : Exc Decision.t :=
  try_catch
    (decide (buildTrustSeries local chain))
    (fun message =>
       Ret (Decision.mk validation_error None None None (Some message))).

End SystemValidation.

(** ** Objects, arrays and primitives as the gateway handles them *)

Module Json.
Import JS.
Local Open Scope string_scope.

(** A value of the language restricted to what a parsed request body, a
    stored record or a queue item is made of.  An object lists its own
    properties in insertion order. *)
#[warnings="-register-all"]
Inductive json : Type :=
| JNull
| JBool (b : bool)
| JNum (n : number)
| JStr (s : string)
| JArr (items : list json)
| JObj (fields : list (string * json)).

(** The result of a property read: [None] is [undefined]. *)
Definition jsval : Type := option json.

Fixpoint lookup (k : string) (fields : list (string * json)) : jsval :=
  match fields with
  | [] => None
  | (k', v) :: rest => if String.eqb k' k then Some v else lookup k rest
  end.

(** [v.k] for a value [v] that is not undefined or null: only objects carry
    the properties read by the gateway. *)
Definition get (v : json) (k : string) : jsval :=
  match v with
  | JObj fields => lookup k fields
  | _ => None
  end.

(** [v.k] for any [v]: reading a property of undefined or null throws. *)
Definition getOf (v : jsval) (k : string) : Exc jsval :=
  match v with
  | None => Throw ("Cannot read properties of undefined (reading '" ++ k ++ "')")
  | Some JNull => Throw ("Cannot read properties of null (reading '" ++ k ++ "')")
  | Some o => Ret (get o k)
  end.

(** [obj[k] = v]: an existing property keeps its position. *)
Fixpoint setField (k : string) (v : json) (fields : list (string * json))
  : list (string * json) :=
  match fields with
  | [] => [(k, v)]
  | (k', v') :: rest =>
      if String.eqb k' k then (k, v) :: rest else (k', v') :: setField k v rest
  end.

(** [{ ...base, k1: v1, ..., kn: vn }] *)
Definition spread (base : list (string * json)) (extra : list (string * json))
  : list (string * json) :=
  fold_left (fun acc kv => setField (fst kv) (snd kv) acc) extra base.

(** A property whose value may be undefined is still written by a literal;
    the stored objects of the model leave such a property out. *)
Definition optField (k : string) (v : jsval) : list (string * json) :=
  match v with
  | Some x => [(k, x)]
  | None => []
  end.

(** [null] for an absent string, as in [x || null]. *)
Definition strOrNull (s : option string) : json :=
  match s with
  | Some x => JStr x
  | None => JNull
  end.

Definition truthy (v : jsval) : bool :=
  match v with
  | None => false
  | Some JNull => false
  | Some (JBool b) => b
  | Some (JNum NaN) => false
  | Some (JNum (Fin q)) => negb (Qeq_bool q 0)
  | Some (JStr s) => negb (String.eqb s EmptyString)
  | Some (JArr _) => true
  | Some (JObj _) => true
  end.

(** [a || b] *)
Definition or_ (a b : jsval) : jsval := if truthy a then a else b.

(** [a && b] *)
Definition and_ (a b : jsval) : jsval := if truthy a then b else a.

(** [a ?? b] *)
Definition nullish (a b : jsval) : jsval :=
  match a with
  | None => b
  | Some JNull => b
  | Some _ => a
  end.

(** The conversions of the language that the model does not spell out. *)
Class Runtime : Type := {
  (** Number::toString on a finite number *)
  numberToString : Q -> string;
  (** StringToNumber *)
  StringToNumber : string -> number;
  (** QuoteJSONString: [JSON.stringify] on a string *)
  quoteJSONString : string -> string
}.

(** [parts.join(sep)] *)
Fixpoint join (sep : string) (parts : list string) : string :=
  match parts with
  | [] => EmptyString
  | [p] => p
  | p :: rest => p ++ sep ++ join sep rest
  end.

(** The results of a list of computations, up to the first that throws. *)
Fixpoint sequence {A : Type} (cs : list (Exc A)) : Exc (list A) :=
  match cs with
  | [] => Ret []
  | c :: rest => (x <- c ;; xs <- sequence rest ;; Ret (x :: xs))%exc
  end.

(** The message of the TypeError thrown when neither [toString] nor
    [valueOf] of an object gives a primitive. *)
Definition notPrimitive : string := "Cannot convert object to primitive value".

(** The names that every object inherits from [Object.prototype]. *)
Definition objectPrototypeNames : list string :=
  [ "constructor"; "__defineGetter__"; "__defineSetter__"; "hasOwnProperty";
    "__lookupGetter__"; "__lookupSetter__"; "isPrototypeOf";
    "propertyIsEnumerable"; "toString"; "valueOf"; "__proto__";
    "toLocaleString" ].

Definition inherited (k : string) : bool :=
  existsb (String.eqb k) objectPrototypeNames.

Section Conversions.
Context {rt : Runtime}.

(** [String(v)] on a value that is not undefined.  An array joins the
    strings of its elements, the empty string standing for null.  An object
    of a parsed text has no callable property of its own: with an own
    [toString] neither method gives a primitive and the conversion throws;
    without one the inherited method answers. *)
Fixpoint ToStringOf (v : json) : Exc string :=
  match v with
  | JNull => Ret "null"
  | JBool true => Ret "true"
  | JBool false => Ret "false"
  | JNum NaN => Ret "NaN"
  | JNum (Fin q) => Ret (numberToString q)
  | JStr s => Ret s
  | JArr items =>
      (texts <- sequence
                  (map (fun x =>
                          match x with
                          | JNull => Ret EmptyString
                          | _ => ToStringOf x
                          end) items) ;;
       Ret (join "," texts))%exc
  | JObj fields =>
      match lookup "toString" fields with
      | Some _ => Throw notPrimitive
      | None => Ret "[object Object]"
      end
  end.

(** [String(v)] *)
Definition ToString (v : jsval) : Exc string :=
  match v with
  | None => Ret "undefined"
  | Some x => ToStringOf x
  end.

(** [Number(v)], and the conversion made by an arithmetic operator or by a
    comparison with a number.  An array is converted through its string; an
    object without an own [toString] through [[object Object]], which is
    not a number. *)
Definition ToNumber (v : jsval) : Exc number :=
  match v with
  | None => Ret NaN
  | Some JNull => Ret (Fin 0)
  | Some (JBool true) => Ret (Fin 1)
  | Some (JBool false) => Ret (Fin 0)
  | Some (JNum n) => Ret n
  | Some (JStr s) => Ret (StringToNumber s)
  | Some (JArr items) =>
      (text <- ToStringOf (JArr items) ;; Ret (StringToNumber text))%exc
  | Some (JObj fields) =>
      match lookup "toString" fields with
      | Some _ => Throw notPrimitive
      | None => Ret NaN
      end
  end.

(** [JSON.stringify(v)] on null, a boolean, a number or a string. *)
Definition stringifyPrimitive (v : json) : string :=
  match v with
  | JNull => "null"
  | JBool true => "true"
  | JBool false => "false"
  | JNum NaN => "null"
  | JNum (Fin q) => numberToString q
  | JStr s => quoteJSONString s
  | _ => EmptyString
  end.

End Conversions.

(** *** The order in which the properties of an object are listed *)

Definition isDigit (c : ascii) : bool :=
  (48 <=? nat_of_ascii c)%nat && (nat_of_ascii c <=? 57)%nat.

Fixpoint digitsValue (s : string) (acc : N) : option N :=
  match s with
  | EmptyString => Some acc
  | String c rest =>
      if isDigit c
      then digitsValue rest (10 * acc + N.of_nat (nat_of_ascii c - 48))%N
      else None
  end.

(** An array index: the decimal text, without a leading zero, of an integer
    from 0 to 2^32 - 2. *)
Definition arrayIndex (k : string) : option N :=
  match k with
  | EmptyString => None
  | String c rest =>
      if (nat_of_ascii c =? 48)%nat && negb (String.eqb rest EmptyString) then None
      else
        match digitsValue k 0 with
        | Some n => if (n <=? 4294967294)%N then Some n else None
        | None => None
        end
  end.

Section PropertyOrder.
Context {A : Type}.

Fixpoint insertIndexed (e : N * (string * A)) (l : list (N * (string * A)))
  : list (N * (string * A)) :=
  match l with
  | [] => [e]
  | e' :: l' => if (fst e <=? fst e')%N then e :: l else e' :: insertIndexed e l'
  end.

(** The properties whose name is an array index, with the index. *)
Fixpoint indexed (fields : list (string * A)) : list (N * (string * A)) :=
  match fields with
  | [] => []
  | (k, v) :: rest =>
      match arrayIndex k with
      | Some n => (n, (k, v)) :: indexed rest
      | None => indexed rest
      end
  end.

Definition named (fields : list (string * A)) : list (string * A) :=
  filter (fun kv => match arrayIndex (fst kv) with Some _ => false | None => true end)
    fields.

(** The own properties in the order [JSON.stringify] and [Object.keys]
    list them: array indices in ascending order first, then the other names
    in the order they were created. *)
Definition propertyOrder (fields : list (string * A)) : list (string * A) :=
  (map snd (fold_right insertIndexed [] (indexed fields)) ++ named fields)%list.

End PropertyOrder.

(** [Math.floor] *)
Definition floor (n : number) : number :=
  match n with
  | NaN => NaN
  | Fin q => Fin (inject_Z (Qfloor q))
  end.

(** [a / k] for a finite non-zero [k] *)
Definition divBy (n : number) (k : Q) : number :=
  match n with
  | NaN => NaN
  | Fin q => Fin (q / k)
  end.

(** [a >= b] *)
Definition ge (a b : number) : bool :=
  match a, b with
  | Fin x, Fin y => Qle_bool y x
  | _, _ => false
  end.

End Json.

(** ** Canonical hasher and ledger adapter ([Gateway/src/blockchain.js]) *)

Module Blockchain.
Import JS Json.
Local Open Scope string_scope.

(** The two helpers of the [ethers] package used for hashing. *)
Record HashHelpers : Type := mkHelpers {
  keccak256 : list Byte.byte -> string;
  toUtf8Bytes : string -> list Byte.byte
}.

(** Where the installed package offers the helpers: on [ethers] itself
    (v6), on [ethers.utils] (v5), or in the module ['ethers/lib/utils']. *)
Record EthersPackage : Type := mkEthers {
  v6 : option HashHelpers;
  v5utils : option HashHelpers;
  libUtils : option HashHelpers
}.

Record Receipt : Type := mkReceipt {
  receiptTransactionHash : option string;
  receiptHash : option string
}.

(** A sent transaction: its two hash properties and what [tx.wait()]
    resolves to or throws. *)
Record Tx : Type := mkTx {
  txHashProp : option string;
  txTransactionHash : option string;
  wait : Exc (option Receipt)
}.

(** Arguments of [contract.logTrustEvent]. *)
Record LedgerArgs : Type := mkArgs {
  argGroupId : jsval;
  argOldTS : number;
  argNewTS : number;
  argReason : jsval;
  argDataHash : string;
  argTs : number
}.

(** The module-level [contract], [wallet] and [provider].  [contract] is
    [None] when the ABI or the address is missing; the method takes the
    number of submissions made before, so that a ledger may fail and then
    recover. *)
Record Chain : Type := mkChain {
  ethers : EthersPackage;
  contract : option (nat -> LedgerArgs -> Exc Tx);
  wallet : bool;
  waitForTransaction : option string -> Exc (option Receipt)
}.

(** Calls into the ledger made by one run of [processAndLog]. *)
Inductive Call : Type :=
| LogTrustEvent (args : LedgerArgs)
| TxWait
| WaitForTransaction (h : option string).

(** The object returned by [processAndLog]. *)
Record Result : Type := mkResult {
  txHash : option string;
  hash : option string;
  success : bool;
  error : option string;
  receipt : option Receipt
}.

Definition receiptJson (r : Receipt) : json :=
  JObj (optField "transactionHash" (option_map JStr (receiptTransactionHash r))
        ++ optField "hash" (option_map JStr (receiptHash r)))%list.

(** The result as the object stored under [blockchain] in a record. *)
Definition resultJson (r : Result) : json :=
  JObj ([ ("txHash", strOrNull (txHash r));
          ("hash", strOrNull (hash r));
          ("success", JBool (success r)) ]
        ++ optField "error" (option_map JStr (error r))
        ++ optField "receipt" (option_map receiptJson (receipt r)))%list.

(** [a || b] on hashes: an empty string is falsy. *)
Definition orHash (a b : option string) : option string :=
  match a with
  | Some s => if String.eqb s EmptyString then b else a
  | None => b
  end.

Section Hasher.
Context {rt : Runtime}.

(** [Object.keys(obj).sort()]: the default order compares the keys as
    sequences of code units, which is the order of [String.leb] on the
    strings of the model. *)
Fixpoint insertKey (k : string) (l : list string) : list string :=
  match l with
  | [] => [k]
  | k' :: l' => if String.leb k k' then k :: l else k' :: insertKey k l'
  end.

Definition sortKeys (keys : list string) : list string :=
  fold_right insertKey [] keys.

(** The text of [obj[k]] among the already serialized properties. *)
Fixpoint valueAt (k : string) (rendered : list (string * string)) : string :=
  match rendered with
  | [] => "undefined"
  | (k', s) :: rest => if String.eqb k' k then s else valueAt k rest
  end.

(** [stableStringify].  The recursive calls on the property values are made
    once, in [rendered], and [obj[k]] reads the text of property [k] there. *)
Fixpoint stableStringify (obj : json) : string :=
  match obj with
  | JArr items => "[" ++ join "," (map stableStringify items) ++ "]"
  | JObj fields =>
      let rendered :=
        map (fun kv => match kv with (k, v) => (k, stableStringify v) end) fields in
      let keys := sortKeys (map fst fields) in
      let parts :=
        map (fun k => quoteJSONString k ++ ":" ++ valueAt k rendered) keys in
      "{" ++ join "," parts ++ "}"
  | _ => stringifyPrimitive obj
  end.

(** [keccakHash] *)
Definition keccakHash (E : EthersPackage) (obj : json) : Exc string :=
  let json := stableStringify obj in
  match v6 E with
  | Some h => Ret (keccak256 h (toUtf8Bytes h json))
  | None =>
      match v5utils E with
      | Some h => Ret (keccak256 h (toUtf8Bytes h json))
      | None =>
          match libUtils E with
          | Some h => Ret (keccak256 h (toUtf8Bytes h json))
          | None =>
              Throw "keccak256/toUtf8Bytes not available in installed ethers package"
          end
      end
  end.

End Hasher.

Section Adapter.
Context {rt : Runtime}.

(** [typeof v === 'string'] *)
Definition isString (v : jsval) : bool :=
  match v with
  | Some (JStr _) => true
  | _ => false
  end.

(** [a !== undefined ? a : b] *)
Definition definedOr (a b : jsval) : jsval :=
  match a with
  | Some _ => a
  | None => b
  end.

(** What the basic validation and defaulting of [processAndLog] gives. *)
Record Defaults : Type := mkDefaults {
  defGroupId : jsval;
  defOldTS : number;
  defNewTS : number;
  defReason : jsval;
  defTs : number
}.

(** Basic validation and defaulting of the event, with the timestamp
    normalised to unix seconds; [now] is the reading of [Date.now()].  The
    first property read throws on null, and [Number] and the comparison
    with [1e12] throw on a value that has no primitive. *)
Definition defaulting (now : Q) (evt : json) : Exc Defaults :=
  (_ <- getOf (Some evt) "groupId" ;;
   let groupId :=
     if isString (get evt "groupId") then get evt "groupId"
     else or_ (get evt "deviceId") (Some (JStr "unknown-group")) in
   oldTS <- ToNumber (definedOr (get evt "oldTS")
                        (nullish (get evt "oldTrustA") (Some (JNum (Fin 0))))) ;;
   newTS <- ToNumber (definedOr (get evt "newTS")
                        (nullish (get evt "newTrustA") (Some (JNum (Fin 0))))) ;;
   let reason :=
     if isString (get evt "reason") then get evt "reason"
     else or_ (get evt "reason") (Some (JStr "no-reason")) in
   let tsRaw :=
     definedOr (get evt "ts")
       (definedOr (get evt "timestamp") (Some (JNum (Fin now)))) in
   tsNumber <- ToNumber tsRaw ;;
   let ts :=
     if lt (Fin 1000000000000) tsNumber
     then floor (divBy tsNumber 1000)
     else floor tsNumber in
   Ret (mkDefaults groupId oldTS newTS reason ts))%exc.

(** The arguments of the call of [contract.logTrustEvent]. *)
Definition ledgerArgs (d : Defaults) (dataHash : string) : LedgerArgs :=
  mkArgs (defGroupId d) (defOldTS d) (defNewTS d) (defReason d) dataHash (defTs d).

(** [tx.hash || tx.transactionHash || null], and the two waits for the
    confirmation with the receipt they give. *)
Definition awaitReceipt (c : Chain) (tx : Tx)
  : list Call * option Receipt :=
  let txHash := orHash (orHash (txHashProp tx) (txTransactionHash tx)) None in
  match wait tx with
  | Ret r => ([TxWait], r)
  | Throw _ =>
      match waitForTransaction c txHash with
      | Ret r => ([TxWait; WaitForTransaction txHash], r)
      | Throw _ => ([TxWait; WaitForTransaction txHash], None)
      end
  end.

(** The [try] block of [processAndLog], with the calls it makes into the
    ledger.  [n] is the number of submissions made before this one. *)
Definition processAndLogBody (c : Chain) (n : nat) (now : Q) (evt : json)
  : list Call * Exc Result :=
  match defaulting now evt with
  | Throw m => ([], Throw m)
  | Ret d =>
      match keccakHash (ethers c) evt with
      | Throw m => ([], Throw m)
      | Ret dataHash =>
          let args := ledgerArgs d dataHash in
          match contract c, wallet c with
          | Some logTrustEvent, true =>
              match logTrustEvent n args with
              | Throw m => ([LogTrustEvent args], Throw m)
              | Ret tx =>
                  let txHash :=
                    orHash (orHash (txHashProp tx) (txTransactionHash tx)) None in
                  let waited := awaitReceipt c tx in
                  let receipt := snd waited in
                  let confirmedHash :=
                    orHash
                      (orHash
                         (match receipt with
                          | Some r => orHash (receiptTransactionHash r) (receiptHash r)
                          | None => None
                          end)
                         txHash)
                      None in
                  (LogTrustEvent args :: fst waited,
                   Ret (mkResult confirmedHash (Some dataHash) true None receipt))
              end
          | _, _ =>
              ([],
               Ret (mkResult None (Some dataHash) false (Some "on-chain disabled")
                      None))
          end
      end
  end.

(** The part of [processAndLog(evt)] that runs before its first [await]:
    the call of [contract.logTrustEvent], when the function gets that far. *)
Definition entered (c : Chain) (now : Q) (evt : json) : list Call :=
  match defaulting now evt, keccakHash (ethers c) evt, contract c, wallet c with
  | Ret d, Ret dataHash, Some _, true => [LogTrustEvent (ledgerArgs d dataHash)]
  | _, _, _, _ => []
  end.

(** [try { maybeHash = keccakHash(evt); } catch (e) {}] *)
Definition maybeHash (c : Chain) (evt : json) : option string :=
  match keccakHash (ethers c) evt with
  | Ret h => Some h
  | Throw _ => None
  end.

(** [processAndLog(evt)] *)
Definition processAndLog (c : Chain) (n : nat) (now : Q) (evt : json)
  : list Call * Exc Result :=
  let run := processAndLogBody c n now evt in
  (fst run,
   try_catch (snd run)
     (fun message =>
        Ret (mkResult None (maybeHash c evt) false (Some message) None))).

End Adapter.

End Blockchain.

(** ** Ingestion handler and write queue ([Gateway/src/index.js]) *)

Module Gateway.
Import JS Json Blockchain.
Local Open Scope string_scope.

(** Values fixed when the process starts. *)
Record Config : Type := mkConfig {
  GATEWAY_API_KEY : string;
  DEFAULT_THRESHOLD : number;
  TRUSTLOGGER_ADDRESS : option string
}.

(** Readings of the clock: [Date.now()] and [new Date().toISOString()]. *)
Record Clock : Type := mkClock {
  nowMs : Q;
  nowIso : string
}.

(** An entry of [writeQueue]. *)
Record Wrapper : Type := mkWrapper {
  item : json;
  attempts : nat
}.

(** An entry that the worker has taken off the queue and for which it
    waits at [await processAndLog(item)]: the entry, the reading of
    [Date.now()] when [processAndLog] was entered and the number of
    submissions made before. *)
Record Pending : Type := mkPending {
  taken : Wrapper;
  enteredAt : Q;
  ordinal : nat
}.

(** What the process does to the outside, in the order it does it. *)
Inductive Effect : Type :=
| AppendEvent (record : json)
| Emit (topic : string) (payload : json)
| SystemValidate (groupId : string) (deviceId : json)
| SaveThresholds (contents : list (string * json))
| Submit (calls : list Call)
| Sleep (ms : Q)
| Respond (status : nat) (body : json).

(** The mutable state of the process and its files: [events] is the content
    of events.json, [thresholds] the own properties of the module-level
    object (an empty object, or the object that thresholds.json holds as
    [saveThresholds] wrote it), [submissions] the number of [processAndLog]
    runs entered so far, [trace] the effects so far and [inFlight] the entry
    the suspended worker waits for, if any. *)
Record State : Type := mkState {
  events : list json;
  thresholds : list (string * json);
  writeQueue : list Wrapper;
  processingQueue : bool;
  submissions : nat;
  trace : list Effect;
  inFlight : option Pending
}.

Definition record (e : Effect) (st : State) : State :=
  mkState (events st) (thresholds st) (writeQueue st) (processingQueue st)
    (submissions st) (trace st ++ [e])%list (inFlight st).

(** [appendEvent(evt)] on a working store. *)
Definition appendEvent (evt : json) (st : State) : State :=
  record (AppendEvent evt)
    (mkState (events st ++ [evt])%list (thresholds st) (writeQueue st)
       (processingQueue st) (submissions st) (trace st) (inFlight st)).

(** [io.emit(topic, payload)] *)
Definition emit (topic : string) (payload : json) (st : State) : State :=
  record (Emit topic payload) st.

(** [await new Promise(r => setTimeout(r, ms))] *)
Definition sleep (ms : Q) (st : State) : State := record (Sleep ms) st.

Definition setQueue (q : list Wrapper) (st : State) : State :=
  mkState (events st) (thresholds st) q (processingQueue st)
    (submissions st) (trace st) (inFlight st).

Definition setProcessing (b : bool) (st : State) : State :=
  mkState (events st) (thresholds st) (writeQueue st) b
    (submissions st) (trace st) (inFlight st).

Definition setThresholds (t : list (string * json)) (st : State) : State :=
  mkState (events st) t (writeQueue st) (processingQueue st)
    (submissions st) (trace st) (inFlight st).

Definition setInFlight (p : option Pending) (st : State) : State :=
  mkState (events st) (thresholds st) (writeQueue st) (processingQueue st)
    (submissions st) (trace st) p.

(** [writeQueue.push(w)] *)
Definition push (w : Wrapper) (st : State) : State :=
  setQueue (writeQueue st ++ [w])%list st.

(** The own properties spread by [{ ...v }]. *)
Definition fieldsOf (v : json) : list (string * json) :=
  match v with
  | JObj fields => fields
  | _ => []
  end.

(** A property value that may be undefined, stored as null. *)
Definition orNull (v : jsval) : json :=
  match v with
  | Some x => x
  | None => JNull
  end.

(** [verifyApiKey(key)], as the truth value of what it returns. *)
Definition verifyApiKey (cfg : Config) (key : option string) : bool :=
  if String.eqb (GATEWAY_API_KEY cfg) EmptyString then false
  else
    match key with
    | Some k => negb (String.eqb k EmptyString) && String.eqb k (GATEWAY_API_KEY cfg)
    | None => false
    end.

Definition maxAttempts : nat := 4.

Section Worker.
Context {rt : Runtime}.

(** [a >= b] on two property values of a queue item.  Two strings are
    compared as strings, anything else as numbers.  The handler stores the
    scores of an item as numbers; a value without a primitive, which no
    item built by the handler holds, is read as not a number. *)
Definition geVal (a b : jsval) : bool :=
  match a, b with
  | Some (JStr x), Some (JStr y) => String.leb y x
  | _, _ =>
      match ToNumber a, ToNumber b with
      | Ret x, Ret y => ge x y
      | _, _ => false
      end
  end.

(** [computeGroupThreshold(groupId)]: [thresholds] is a plain object, so a
    name of [Object.prototype] that is not an own property reads as the
    inherited function or object, which is not a number. *)
Definition computeGroupThreshold (cfg : Config) (st : State) (groupId : string)
  : Exc number :=
  match lookup groupId (thresholds st) with
  | Some v => ToNumber (nullish (Some v) (Some (JNum (DEFAULT_THRESHOLD cfg))))
  | None =>
      if inherited groupId then Ret NaN
      else ToNumber (Some (JNum (DEFAULT_THRESHOLD cfg)))
  end.

(** [thresholds[groupId] = v]: the name [__proto__] goes to the setter of
    [Object.prototype], which ignores a number, unless the object has an own
    property of that name. *)
Definition assignThreshold (groupId : string) (v : json)
  (fields : list (string * json)) : list (string * json) :=
  match lookup groupId fields with
  | None => if String.eqb groupId "__proto__" then fields else setField groupId v fields
  | Some _ => setField groupId v fields
  end.

(** The object emitted as [flaggedEvent]; reading [item.payload.ts] throws
    when the item has no payload. *)
Definition flaggedEventObj (clk : Clock) (it : json) (result : Result)
  : Exc json :=
  (payloadTs <- getOf (get it "payload") "ts" ;;
   let payload := orNull (get it "payload") in
   Ret (JObj
     [ ("timestamp",
        orNull (or_ payloadTs
                  (Some (JNum (floor (divBy (Fin (nowMs clk)) 1000))))));
       ("eventId", orNull (get it "eventId"));
       ("deviceId", orNull (get it "deviceId"));
       ("groupId", orNull (get it "groupId"));
       ("distA", orNull (nullish (get payload "distA") (Some JNull)));
       ("distB", orNull (nullish (get payload "distB") (Some JNull)));
       ("trustA",
        orNull (nullish (get it "oldTS") (nullish (get it "trustA") (Some JNull))));
       ("trustB",
        orNull (nullish (get it "newTS") (nullish (get it "trustB") (Some JNull))));
       ("controller",
        orNull (or_ (get payload "controller")
                  (Some (JStr (if geVal (get it "trustA") (get it "trustB")
                               then "A" else "B")))));
       ("rpm",
        orNull (nullish (get payload "rpm")
                  (nullish (get payload "speed") (Some JNull))));
       ("reason",
        orNull (or_ (get it "reason")
                  (or_ (and_ (get it "payload") (get payload "reason"))
                     (Some (JStr "LOW_TRUST")))));
       ("txHash", strOrNull (orHash (txHash result) None));
       ("systemDecision", orNull (or_ (get it "systemDecision") (Some JNull))) ]))%exc.

(** The [try] block of the worker up to [await processAndLog(item)]:
    [processAndLog] is entered and runs to its first [await]. *)
Definition enterTry (c : Chain) (now : Q) (it : json) (st : State) : State :=
  record (Submit (entered c now it))
    (mkState (events st) (thresholds st) (writeQueue st) (processingQueue st)
       (S (submissions st)) (trace st) (inFlight st)).

(** The [try] block from the point where [processAndLog(item)], entered
    at [now] as submission number [n], has resolved: the state reached and
    whether the block completed or threw. *)
Definition settleTry (c : Chain) (clk : Clock) (it : json) (n : nat) (now : Q)
  (st : State) : State * Exc unit :=
  let run := processAndLog c n now it in
  let st1 := record (Submit (tl (fst run))) st in
  match snd run with
  | Throw m => (st1, Throw m)
  | Ret result =>
      let st2 :=
        appendEvent
          (JObj (spread (fieldsOf it)
                   [ ("blockchain", resultJson result);
                     ("stage", JStr "post-chain");
                     ("processedAt", JStr (nowIso clk)) ])) st1 in
      let st3 :=
        emit "event_update"
          (JObj (spread (fieldsOf it)
                   [ ("blockchain", resultJson result);
                     ("stage", JStr "final") ])) st2 in
      if truthy (get it "flagged") then
        match flaggedEventObj clk it result with
        | Throw m => (st3, Throw m)
        | Ret obj => (sleep 500 (emit "flaggedEvent" obj st3), Ret tt)
        end
      else (sleep 500 st3, Ret tt)
  end.

(** The [try] block of one iteration of the worker. *)
Definition tryBlock (c : Chain) (clk : Clock) (it : json) (st : State)
  : State * Exc unit :=
  settleTry c clk it (submissions st) (nowMs clk) (enterTry c (nowMs clk) it st).

(** The [catch] block of one iteration, for a wrapper taken off the queue
    with [attempts] earlier attempts and an error with [message]. *)
Definition catchBlock (clk : Clock) (w : Wrapper) (message : string)
  (st : State) : State :=
  let nextAttempt := (attempts w + 1)%nat in
  if (nextAttempt <? maxAttempts)%nat then
    let backoffMs := (1000 * inject_Z (2 ^ Z.of_nat nextAttempt))%Q in
    sleep backoffMs (push (mkWrapper (item w) nextAttempt) st)
  else
    emit "event_update"
      (JObj (spread (fieldsOf (item w))
               [ ("stage", JStr "post-chain-failed");
                 ("error", JStr message) ]))
      (appendEvent
         (JObj (spread (fieldsOf (item w))
                  [ ("stage", JStr "post-chain-failed");
                    ("error", JStr message);
                    ("processedAt", JStr (nowIso clk)) ])) st).

(** One iteration of [while (writeQueue.length > 0)] on a non-empty queue. *)
Definition iteration (c : Chain) (clk : Clock) (w : Wrapper)
  (rest : list Wrapper) (st : State) : State :=
  let run := tryBlock c clk (item w) (setQueue rest st) in
  match snd run with
  | Ret _ => fst run
  | Throw m => catchBlock clk w m (fst run)
  end.

(** The loop of [processQueue], unrolled at most [fuel] times. *)
Fixpoint drain (fuel : nat) (c : Chain) (clk : Clock) (st : State)
  : option State :=
  match writeQueue st with
  | [] => Some st
  | w :: rest =>
      match fuel with
      | O => None
      | S fuel' => drain fuel' c clk (iteration c clk w rest st)
      end
  end.

(** [processQueue()], from its call to its end. *)
Definition processQueue (fuel : nat) (c : Chain) (clk : Clock) (st : State)
  : option State :=
  option_map (setProcessing false) (drain fuel c clk (setProcessing true st)).

(** [processQueue()] from its call to its first [await], which is where
    the call returns to its caller: with an entry in the queue the worker
    takes the first one and enters [processAndLog]. *)
Definition startWorker (c : Chain) (clk : Clock) (st : State) : State :=
  let st1 := setProcessing true st in
  match writeQueue st1 with
  | [] => setProcessing false st1
  | w :: rest =>
      setInFlight (Some (mkPending w (nowMs clk) (submissions st1)))
        (enterTry c (nowMs clk) (item w) (setQueue rest st1))
  end.



(** [enqueueChainLog(evt)]: the call of [processQueue()] that it makes when
    the worker is idle returns at the first [await] of the worker. *)
Definition enqueueChainLog (c : Chain) (clk : Clock) (evt : json) (st : State)
  : State :=
  let st1 := push (mkWrapper evt 0) st in
  let st2 :=
    appendEvent
      (JObj (spread (fieldsOf evt)
               [ ("queuedAt", JStr (nowIso clk)); ("stage", JStr "queued") ]))
      st1 in
  if negb (processingQueue st2) then startWorker c clk st2 else st2.

End Worker.

(** *** The [/data] route *)

(** A request as the handler gets it: [req.body] is what [express.json()]
    left there. *)
Record Request : Type := mkRequest {
  headers : list (string * string);
  body : jsval
}.

(** What [express.json()] makes of the body of a submission: it ends the
    request with the status and the page of the error, or it hands the
    request on with [req.body] set. *)
Inductive Parse : Type :=
| ParseError (status : nat) (page : string)
| ParsedBody (body : jsval).

(** A submission to [POST /data]. *)
Record Submission : Type := mkSubmission {
  sentHeaders : list (string * string);
  parse : Parse
}.

(** [req.headers[name]] *)
Fixpoint header (name : string) (hs : list (string * string)) : option string :=
  match hs with
  | [] => None
  | (n, v) :: rest => if String.eqb n name then Some v else header name rest
  end.

Import SystemValidation.

Definition actionName (a : Action) : string :=
  match a with
  | no_action => "no_action"
  | flag_for_review => "flag_for_review"
  | confirm_unreliable => "confirm_unreliable"
  | adjust_threshold_lower => "adjust_threshold_lower"
  | insufficient_data => "insufficient_data"
  | validation_error => "validation_error"
  end.

Definition natJson (n : nat) : json := JNum (Fin (indexQ n)).

Definition analysisJson (a : Analysis) : json :=
  match a with
  | NotOk why => JObj [ ("ok", JBool false); ("reason", JStr why) ]
  | Ok s =>
      JObj [ ("ok", JBool true); ("drops", natJson (drops s));
             ("instabilityFrac", JNum (Fin (instabilityFrac s)));
             ("slope", JNum (Fin (slope s)));
             ("samples", natJson (samples s)) ]
  end.

(** The decision object in the order its literal lists the properties. *)
Definition decisionJson (d : Decision.t) : json :=
  JObj ([ ("action", JStr (actionName (Decision.action d))) ]
        ++ optField "reason" (option_map JStr (Decision.reason d))
        ++ optField "analysis" (option_map analysisJson (Decision.analysis d))
        ++ optField "newThreshold" (option_map JNum (Decision.newThreshold d))
        ++ optField "error" (option_map JStr (Decision.error d)))%list.

Definition isConfirm (a : Action) : bool :=
  match a with
  | confirm_unreliable => true
  | _ => false
  end.

(** What step 4 of the handler computes. *)
Record Intake : Type := mkIntake {
  inGroupId : string;
  inDeviceId : json;
  inTrustA : number;
  inTrustB : number;
  inThreshold : number;
  inLocalFlagged : bool
}.

Section Handler.
Context {rt : Runtime}.

(** The configuration, the module-level objects of [blockchain.js] and the
    trend analysis, which reads the event store as it is when called. *)
Variable cfg : Config.
Variable c : Chain.
Variable validate : list json -> string -> json -> Exc Decision.t.

(** [JSON.stringify(v)] *)
Fixpoint JSON_stringify (v : json) : string :=
  match v with
  | JArr items => "[" ++ join "," (map JSON_stringify items) ++ "]"
  | JObj fields =>
      let rendered :=
        map (fun kv => match kv with (k, x) => (k, JSON_stringify x) end) fields in
      "{" ++ join ","
               (map (fun kt => quoteJSONString (fst kt) ++ ":" ++ snd kt)
                  (propertyOrder rendered)) ++ "}"
  | _ => stringifyPrimitive v
  end.

(** Step 3: the hash of the payload, null when no helper is available. *)
Definition computeDataHash (E : EthersPackage) (payload : json) : option string :=
  match keccakHash E payload with
  | Ret h => Some h
  | Throw _ =>
      match libUtils E with
      | Some h => Some (keccak256 h (toUtf8Bytes h (JSON_stringify payload)))
      | None => None
      end
  end.

(** [(payload.groupId && String(payload.groupId)) ||
     (payload.deviceId && String(payload.deviceId)) || 'group-1']:
    an operand is converted when it is truthy and chosen when its string is
    not empty. *)
Definition groupIdOf (payload : json) : Exc string :=
  let byDevice :=
    let d := get payload "deviceId" in
    if truthy d then
      (text <- ToString d ;;
       Ret (if String.eqb text EmptyString then "group-1" else text))%exc
    else Ret "group-1" in
  let g := get payload "groupId" in
  if truthy g then
    (text <- ToString g ;;
     if String.eqb text EmptyString then byDevice else Ret text)%exc
  else byDevice.

(** [(payload.k !== undefined) ? Number(payload.k) : 100] *)
Definition trustOf (payload : json) (k : string) : Exc number :=
  match get payload k with
  | Some v => ToNumber (Some v)
  | None => Ret (Fin 100)
  end.

(** [(trustA < groupThreshold) || (trustB < groupThreshold)] *)
Definition localFlaggedOf (trustA trustB groupThreshold : number) : bool :=
  lt trustA groupThreshold || lt trustB groupThreshold.

(** Step 4: the group, the device, the two scores, the threshold of the
    group and the local flag, in the order the handler computes them. *)
Definition intake (st : State) (payload : json) : Exc Intake :=
  (groupId <- groupIdOf payload ;;
   let deviceId := orNull (or_ (get payload "deviceId") (Some (JStr "unknown"))) in
   trustA <- trustOf payload "trustA" ;;
   trustB <- trustOf payload "trustB" ;;
   groupThreshold <- computeGroupThreshold cfg st groupId ;;
   Ret (mkIntake groupId deviceId trustA trustB groupThreshold
          (localFlaggedOf trustA trustB groupThreshold)))%exc.

(** [payload.eventId || `evt-${Date.now()}`] *)
Definition eventIdOf (clk : Clock) (payload : json) : json :=
  orNull (or_ (get payload "eventId")
            (Some (JStr ("evt-" ++ numberToString (nowMs clk))))).

(** Step 5: [storedEvent] as first built. *)
Definition storedEventOf (clk : Clock) (payload : json) (i : Intake)
  : list (string * json) :=
  [ ("eventId", eventIdOf clk payload);
    ("deviceId", inDeviceId i);
    ("groupId", JStr (inGroupId i));
    ("payload", payload);
    ("dataHash", strOrNull (computeDataHash (ethers c) payload));
    ("trustA", JNum (inTrustA i));
    ("trustB", JNum (inTrustB i));
    ("localFlagged", JBool (inLocalFlagged i));
    ("receivedAt", JStr (nowIso clk)) ].

(** [{ ...storedEvent, stage }] *)
Definition staged (stored : list (string * json)) (stage : string) : json :=
  JObj (spread stored [ ("stage", JStr stage) ]).

(** Step 6: the [telemetry] object. *)
Definition telemetryPayload (clk : Clock) (payload : json) (i : Intake) : json :=
  JObj
    [ ("timestamp",
       orNull (or_ (get payload "ts")
                 (Some (JNum (floor (divBy (Fin (nowMs clk)) 1000))))));
      ("distA", orNull (nullish (get payload "distA") (Some JNull)));
      ("distB", orNull (nullish (get payload "distB") (Some JNull)));
      ("trustA", JNum (inTrustA i));
      ("trustB", JNum (inTrustB i));
      ("controller",
       orNull (or_ (get payload "controller")
                 (Some (JStr (if ge (inTrustA i) (inTrustB i) then "A" else "B")))));
      ("rpm",
       orNull (nullish (get payload "rpm")
                 (nullish (get payload "speed") (Some JNull))));
      ("hash", strOrNull (computeDataHash (ethers c) payload));
      ("flagged", JBool (inLocalFlagged i));
      ("deviceId", inDeviceId i);
      ("groupId", JStr (inGroupId i)) ].

(** [Number(systemDecision.newThreshold || groupThreshold)] *)
Definition newThresholdOf (d : Decision.t) (groupThreshold : number) : number :=
  match Decision.newThreshold d with
  | Some n => if truthy (Some (JNum n)) then n else groupThreshold
  | None => groupThreshold
  end.

(** Step 7, acting on the decision: the updated [storedEvent] and state. *)
Definition applyDecision (groupId : string) (deviceId : json)
  (groupThreshold : number) (d : Decision.t)
  (stored : list (string * json)) (st : State)
  : list (string * json) * State :=
  let alert :=
    JObj [ ("deviceId", deviceId); ("groupId", JStr groupId);
           ("decision", decisionJson d) ] in
  match Decision.action d with
  | confirm_unreliable =>
      (setField "flagged" (JBool true)
         (setField "systemFlag" (JStr "confirmed_unreliable") stored),
       emit "system_alert" alert st)
  | adjust_threshold_lower =>
      let newThreshold := newThresholdOf d groupThreshold in
      let st1 :=
        setThresholds
          (assignThreshold groupId (JNum newThreshold) (thresholds st)) st in
      let st2 := record (SaveThresholds (thresholds st1)) st1 in
      (setField "thresholdChanged" (JNum newThreshold) stored,
       emit "threshold_update"
         (JObj [ ("groupId", JStr groupId); ("newThreshold", JNum newThreshold) ])
         st2)
  | flag_for_review => (stored, emit "system_alert" alert st)
  | _ => (stored, st)
  end.

(** Step 7: the call of [systemValidate] inside its own [try]. *)
Definition validationStep (groupId : string) (deviceId : json)
  (groupThreshold : number) (stored : list (string * json)) (st : State)
  : list (string * json) * Decision.t * State :=
  let st1 := record (SystemValidate groupId deviceId) st in
  match validate (events st) groupId deviceId with
  | Ret d =>
      let stored1 := setField "systemDecision" (decisionJson d) stored in
      let st2 :=
        emit "event_update" (staged stored1 "system-validation")
          (appendEvent (staged stored1 "system-validation") st1) in
      let acted := applyDecision groupId deviceId groupThreshold d stored1 st2 in
      (fst acted, d, snd acted)
  | Throw m =>
      let d := Decision.mk validation_error None None None (Some m) in
      let stored1 := setField "systemDecision" (decisionJson d) stored in
      (stored1, d, appendEvent (staged stored1 "system-validation-error") st1)
  end.

(** Steps 10 and 11: the queue item.  The three conversions and the
    division can throw, and then no item is built. *)
Definition queueItemOf (clk : Clock) (payload : json) (i : Intake)
  (d : Decision.t) : Exc json :=
  (oldTS <- ToNumber (nullish (nullish (get payload "oldTS") (get payload "oldTrustA"))
                        (Some (JNum (inTrustA i)))) ;;
   newTS <- ToNumber (nullish (nullish (get payload "newTS") (get payload "newTrustA"))
                        (Some (JNum (inTrustB i)))) ;;
   reason <- ToString (or_ (get payload "reason")
                         (or_ (option_map JStr (Decision.reason d))
                            (Some (JStr "LOW_TRUST")))) ;;
   tsRaw <- ToNumber (or_ (get payload "ts")
                        (or_ (get payload "timestamp")
                           (Some (JNum (Fin (nowMs clk)))))) ;;
   Ret (JObj
     [ ("eventId", eventIdOf clk payload);
       ("deviceId", inDeviceId i);
       ("groupId", JStr (inGroupId i));
       ("oldTS", JNum oldTS);
       ("newTS", JNum newTS);
       ("reason", JStr reason);
       ("dataHash", strOrNull (computeDataHash (ethers c) payload));
       ("ts", JNum (floor (divBy tsRaw 1000)));
       ("payload", payload);
       ("trustA", JNum (inTrustA i));
       ("trustB", JNum (inTrustB i));
       ("flagged", JBool true);
       ("systemDecision", decisionJson d) ]))%exc.

Definition feedbackOf (d : Decision.t) : json :=
  JObj
    [ ("action", JStr (actionName (Decision.action d)));
      ("reason",
       orNull (or_ (option_map JStr (Decision.reason d)) (Some JNull)));
      ("adjustThreshold",
       orNull (or_ (option_map JNum (Decision.newThreshold d)) (Some JNull))) ].

(** Steps 8 to 11: combine the local and the system decision, persist the
    [pre-chain] record, then answer, after enqueueing a flagged event; the
    state reached and whether the steps completed or threw. *)
Definition finish (clk : Clock) (payload : json) (i : Intake)
  (stored1 : list (string * json)) (systemDecision : Decision.t) (st4 : State)
  : State * Exc unit :=
  let dataHash := computeDataHash (ethers c) payload in
  let finalFlagged :=
    truthy (lookup "flagged" stored1) || inLocalFlagged i
    || isConfirm (Decision.action systemDecision) in
  let stored2 := setField "flagged" (JBool finalFlagged) stored1 in
  let st5 :=
    emit "event_update" (staged stored2 "pre-chain")
      (appendEvent (staged stored2 "pre-chain") st4) in
  if negb finalFlagged then
    (record
       (Respond 200
          (JObj [ ("message", JStr "Data received (not flagged)");
                  ("hash", strOrNull dataHash);
                  ("flagged", JBool false);
                  ("systemDecision", decisionJson systemDecision) ])) st5,
     Ret tt)
  else
    match queueItemOf clk payload i systemDecision with
    | Throw m => (st5, Throw m)
    | Ret queueItem =>
        let st6 := enqueueChainLog c clk queueItem st5 in
        (record
           (Respond 200
              (JObj [ ("message",
                       JStr "Flagged event accepted and queued for on-chain logging");
                      ("hash", strOrNull dataHash);
                      ("flagged", JBool true);
                      ("systemDecision", decisionJson systemDecision);
                      ("feedback", feedbackOf systemDecision) ])) st6,
         Ret tt)
    end.

(** The [try] block of the handler after the check of the credential: the
    state reached and whether the block completed or threw. *)
Definition handlerBody (clk : Clock) (req : Request) (st : State)
  : State * Exc unit :=
  let payload := orNull (or_ (body req) (Some (JObj []))) in
  match intake st payload with
  | Throw m => (st, Throw m)
  | Ret i =>
      let stored := storedEventOf clk payload i in
      let st1 := appendEvent (staged stored "received") st in
      let st2 := emit "event_update" (staged stored "received") st1 in
      let st3 := emit "telemetry" (telemetryPayload clk payload i) st2 in
      let validated :=
        validationStep (inGroupId i) (inDeviceId i) (inThreshold i) stored st3 in
      finish clk payload i
        (fst (fst validated)) (snd (fst validated)) (snd validated)
  end.

(** [app.post('/data', ...)]: the state after the handler has answered.
    What the [try] block throws is answered with status 500. *)
Definition postData (clk : Clock) (req : Request) (st : State) : State :=
  let apiKey :=
    orHash (header "x-api-key" (headers req)) (header "X-API-KEY" (headers req)) in
  if negb (verifyApiKey cfg apiKey) then
    record (Respond 401 (JObj [ ("error", JStr "invalid api key") ])) st
  else
    let run := handlerBody clk req st in
    match snd run with
    | Ret _ => fst run
    | Throw m =>
        record
          (Respond 500
             (JObj [ ("error", JStr "server error"); ("details", JStr m) ]))
          (fst run)
    end.

(** [POST /data] behind [app.use(express.json())]: a body that the
    middleware refuses is answered by it and never reaches the handler. *)
Definition receive (clk : Clock) (s : Submission) (st : State) : State :=
  match parse s with
  | ParseError status page => record (Respond status (JStr page)) st
  | ParsedBody b => postData clk (mkRequest (sentHeaders s) b) st
  end.

End Handler.

End Gateway.

From Stdlib Require Import Lqa DecimalString.

(** ** Sensor node (the ESP32 firmware)

    Conventions of the embedding.

    - [int] and [long] are 32 bits wide on the target and [unsigned long] is
      32 bits without sign; a value is a [Z] and the arithmetic that can
      leave the range is wrapped by [int32] or [uint32].
    - What the node reads from outside is an input of the step that reads
      it: the two distances returned by [readDistanceCM], the readings of
      [millis()], the pulses counted by the interrupt routine since the
      last reading, the state of the link, the value of [random] and the
      codes returned by [http.POST].
    - Output on the serial line is left out. *)

Module Firmware.
Local Open Scope string_scope.
Local Open Scope Z_scope.

Definition serverURL : string := "http://172.20.10.3:3000/data".
Definition GATEWAY_API_KEY : string := "dhanushharini03080411".

Definition ENA : Z := 25.
Definition IN1 : Z := 26.
Definition IN2 : Z := 27.

Definition POST_INTERVAL_MS : Z := 5000.
Definition DEBOUNCE_MS : Z := 1500.
Definition TRUST_THRESHOLD : Z := 60.

Definition int32 (z : Z) : Z := (z + 2 ^ 31) mod 2 ^ 32 - 2 ^ 31.
Definition uint32 (z : Z) : Z := z mod 2 ^ 32.

(** [abs(x)] *)
Definition abs (x : Z) : Z := if (0 <? x)%Z then x else int32 (- x).

(** [max(a, b)] and [min(a, b)] *)
Definition max (a b : Z) : Z := if (b <? a)%Z then a else b.
Definition min (a b : Z) : Z := if (a <? b)%Z then a else b.

(** [constrain(amt, low, high)] *)
Definition constrain (amt low high : Z) : Z :=
  if (amt <? low)%Z then low else if (high <? amt)%Z then high else amt.

(** [map(x, in_min, in_max, out_min, out_max)] *)
Definition map (x in_min in_max out_min out_max : Z) : Z :=
  int32 (Z.quot (int32 ((x - in_min) * (out_max - out_min))) (in_max - in_min)
         + out_min).

(** [String(n)] on an integer: its decimal digits. *)
Definition decimal (z : Z) : string := NilZero.string_of_int (Z.to_int z).

(** The character that opens and closes a string of the JSON text. *)
Definition quote : string := String (ascii_of_nat 34) EmptyString.

(** The global variables of the sketch. *)
Record Node : Type := mkNode {
  trustA : Z;
  trustB : Z;
  lastDistA : Z;
  lastDistB : Z;
  pulseCount : Z;
  lastComputedRPM : Z;
  lastRPMTime : Z;
  lastPostTime : Z
}.

(** The globals when [setup] returns at [millis() = t]. *)
Definition boot (t : Z) : Node := mkNode 100 100 (-1) (-1) 0 0 t 0.

(** What one pass of [loop] reads from outside, in the order it reads it. *)
Record Inputs : Type := mkInputs {
  echoA : Z;
  echoB : Z;
  rpmClock : Z;
  rpmPulses : Z;
  connected : bool;
  postClock : Z;
  postRpmClock : Z;
  postRpmPulses : Z;
  dice : Z;
  code1 : Z;
  code2 : Z
}.

(** What the node does to the outside. *)
Inductive Effect : Type :=
| DigitalWrite (pin : Z) (high : bool)
| AnalogWrite (pin : Z) (value : Z)
| Post (url : string) (key : string) (body : string)
| Delay (ms : Z).

(** [pwmWrite(pin, value)] *)
Definition pwmWrite (pin value : Z) : list Effect :=
  let value := if (value <? 0)%Z then 0 else value in
  let value := if (255 <? value)%Z then 255 else value in
  [AnalogWrite pin value].

(** [computeAndResetRPM()] at [millis() = now], after [pulses] more calls of
    the interrupt routine. *)
Definition computeAndResetRPM (now pulses : Z) (n : Node) : Node :=
  let counted := uint32 (pulseCount n + pulses) in
  if (1000 <=? uint32 (now - lastRPMTime n))%Z then
    mkNode (trustA n) (trustB n) (lastDistA n) (lastDistB n)
      0 (uint32 (counted * 60)) now (lastPostTime n)
  else
    mkNode (trustA n) (trustB n) (lastDistA n) (lastDistB n)
      counted (lastComputedRPM n) (lastRPMTime n) (lastPostTime n).

(** The values written into the JSON text of a report. *)
Record Report : Type := mkReport {
  tsSec : Z;
  suffix : Z;
  oldTS : Z;
  newTS : Z;
  reportTrustA : Z;
  reportTrustB : Z;
  distA : Z;
  distB : Z;
  speed : Z;
  reason : string
}.

Definition eventId (r : Report) : string :=
  "evt-" ++ decimal (tsSec r) ++ "-" ++ decimal (suffix r).

(** [jsonData] *)
Definition jsonData (r : Report) : string :=
  "{"
  ++ quote ++ "eventId" ++ quote ++ ":" ++ quote ++ eventId r ++ quote ++ ","
  ++ quote ++ "deviceId" ++ quote ++ ":" ++ quote ++ "esp32-01" ++ quote ++ ","
  ++ quote ++ "groupId" ++ quote ++ ":" ++ quote ++ "group-1" ++ quote ++ ","
  ++ quote ++ "oldTS" ++ quote ++ ":" ++ decimal (oldTS r) ++ ","
  ++ quote ++ "newTS" ++ quote ++ ":" ++ decimal (newTS r) ++ ","
  ++ quote ++ "trustA" ++ quote ++ ":" ++ decimal (reportTrustA r) ++ ","
  ++ quote ++ "trustB" ++ quote ++ ":" ++ decimal (reportTrustB r) ++ ","
  ++ quote ++ "distA" ++ quote ++ ":" ++ decimal (distA r) ++ ","
  ++ quote ++ "distB" ++ quote ++ ":" ++ decimal (distB r) ++ ","
  ++ quote ++ "speed" ++ quote ++ ":" ++ decimal (speed r) ++ ","
  ++ quote ++ "reason" ++ quote ++ ":" ++ quote ++ reason r ++ quote ++ ","
  ++ quote ++ "ts" ++ quote ++ ":" ++ decimal (tsSec r)
  ++ "}".

(** The first part of [doPostIfNeeded], on the globals as they are after
    its call of [computeAndResetRPM]: the report to post, or [None] when
    the function returns before it builds one. *)
Definition reportOf (dA dB prevTrustA prevTrustB : Z) (now rnd : Z) (n : Node)
  : option Report :=
  let majorChange :=
    (3 <=? abs (int32 (trustA n - prevTrustA)))%Z
    || (3 <=? abs (int32 (trustB n - prevTrustB)))%Z in
  let belowThreshold :=
    (trustA n <? TRUST_THRESHOLD)%Z || (trustB n <? TRUST_THRESHOLD)%Z in
  let timeElapsed := (POST_INTERVAL_MS <=? uint32 (now - lastPostTime n))%Z in
  if negb (majorChange || belowThreshold || timeElapsed) then None
  else if (uint32 (now - lastPostTime n) <? DEBOUNCE_MS)%Z then None
  else
    Some (mkReport (now / 1000) rnd prevTrustA (trustA n) (trustA n) (trustB n)
            dA dB (lastComputedRPM n)
            (if belowThreshold then "LOW_TRUST"
             else if majorChange then "TRUST_CHANGE" else "PERIODIC")).

(** [doPostIfNeeded(distA, distB, prevTrustA, prevTrustB)] *)
Definition doPostIfNeeded (dA dB prevTrustA prevTrustB : Z) (i : Inputs) (n : Node)
  : Node * list Effect :=
  let now := postClock i in
  let n1 := computeAndResetRPM (postRpmClock i) (postRpmPulses i) n in
  match reportOf dA dB prevTrustA prevTrustB now (dice i) n1 with
  | None => (n1, [])
  | Some r =>
      let post := Post serverURL GATEWAY_API_KEY (jsonData r) in
      let sent :=
        if (0 <? code1 i)%Z then [post] else [post; Delay 1500; post] in
      (mkNode (trustA n1) (trustB n1) (lastDistA n1) (lastDistB n1)
         (pulseCount n1) (lastComputedRPM n1) (lastRPMTime n1) now,
       sent)
  end.

(** The update of one score in [loop]: any change of the distance lowers
    it by one, a stable distance raises it by one. *)
Definition updateTrust (dist lastDist trust : Z) : Z :=
  if (0 <? dist)%Z && (0 <? lastDist)%Z then
    let delta := abs (int32 (dist - lastDist)) in
    if (0 <? delta)%Z then max 0 (int32 (trust - 1))
    else min 100 (int32 (trust + 1))
  else trust.

(** The motor speed for the distance of the chosen sensor. *)
Definition motorSpeedOf (chosenDist : Z) : Z :=
  if (5 <? chosenDist)%Z then
    if (50 <=? chosenDist)%Z then 255 else map chosenDist 5 50 0 255
  else 0.

(** [loop()] *)
Definition loop (i : Inputs) (n : Node) : Node * list Effect :=
  let dA := echoA i in
  let dB := echoB i in
  let prevTrustA := trustA n in
  let prevTrustB := trustB n in
  let tA := constrain (updateTrust dA (lastDistA n) (trustA n)) 0 100 in
  let tB := constrain (updateTrust dB (lastDistB n) (trustB n)) 0 100 in
  let lA := if (0 <? dA)%Z then dA else lastDistA n in
  let lB := if (0 <? dB)%Z then dB else lastDistB n in
  let chosenDist := if (tB <=? tA)%Z then dA else dB in
  let motorSpeed := motorSpeedOf chosenDist in
  let motor :=
    if (motorSpeed =? 0)%Z then
      ([DigitalWrite IN1 false; DigitalWrite IN2 false] ++ pwmWrite ENA 0)%list
    else
      ([DigitalWrite IN1 true; DigitalWrite IN2 false] ++ pwmWrite ENA motorSpeed)%list
  in
  let n1 :=
    computeAndResetRPM (rpmClock i) (rpmPulses i)
      (mkNode tA tB lA lB (pulseCount n) (lastComputedRPM n) (lastRPMTime n)
         (lastPostTime n)) in
  let posted :=
    if connected i then doPostIfNeeded dA dB prevTrustA prevTrustB i n1
    else (n1, []) in
  (fst posted, motor ++ snd posted ++ [Delay 250])%list.

(** The passes of [loop] for a sequence of inputs, with the effects in
    the order they happen. *)
Fixpoint run (inputs : list Inputs) (n : Node) : Node * list Effect :=
  match inputs with
  | [] => (n, [])
  | i :: rest =>
      let first := loop i n in
      let others := run rest (fst first) in
      (fst others, (snd first ++ snd others)%list)
  end.

End Firmware.

(* ===================================================================== *)
(** * Part II: vocabulary of the properties                                *)
(* ===================================================================== *)

(** ** The dedup loop *)

Module SeriesSpec.
Import JS SystemValidation.
Local Open Scope string_scope.

(** The entries of [deduped] whose key is the given one. *)
Definition hits (k : Key) (l : list TrendPoint) : list TrendPoint :=
  filter (fun d => keyEqb k (keyOf d)) l.

(** What holds of [deduped] and [seen] once the items [processed] have gone
    through the loop. *)
Record Inv (processed : list TrendPoint) (st : DedupState) : Prop := mkInv {
  (** a key is carried by at most one entry *)
  inv_unique : forall k, (List.length (hits k (fst st)) <= 1)%nat;
  (** [seen] holds the keys of the entries *)
  inv_seen : forall k,
    has (snd st) k = existsb (fun d => keyEqb k (keyOf d)) (fst st);
  (** the key of every processed item is in [seen] *)
  inv_processed : forall x, In x processed -> has (snd st) (keyOf x) = true;
  (** an entry equal under [===] to a processed local item is local *)
  inv_local : forall d L,
    In d (fst st) -> In L processed -> source L = "local" ->
    sameGroupTs d L = true -> source d = "local";
  (** the entries are processed items *)
  inv_from : forall d, In d (fst st) -> In d processed
}.

End SeriesSpec.

(** ** Sample histories *)

Module Samples.
Import JS SystemValidation.
Local Open Scope string_scope.

(** A point of group-1 with the given new score and timestamp. *)
Definition point (newScore stamp : Z) (src : string) : TrendPoint :=
  mkPoint (GroupName "group-1") (Num (Fin 100)) (Num (Fin (inject_Z newScore)))
    (Some "PERIODIC") (Num (Fin (inject_Z stamp))) src.

(** A ledger log of group-1 with the given new score and timestamp, as
    [fetchOnChainTrustEvents] decodes it: the text of the group is not in
    the point, only the object of the indexed argument. *)
Definition decoded (newScore stamp : Z) : TrendPoint :=
  mkPoint Indexed (Num (Fin 100)) (Num (Fin (inject_Z newScore)))
    (Some "PERIODIC") (Num (Fin (inject_Z stamp))) "onchain".

(** A local and a ledger observation of the same second, and an older
    ledger observation. *)
Definition localAt2 : TrendPoint := point 97 2 "local".
Definition chainAt2 : TrendPoint := decoded 90 2.

(** A ledger log that could not be parsed, as [fetchOnChainTrustEvents]
    returns it, and a local record whose timestamp is not a number. *)
Definition chainUnparsed : TrendPoint :=
  mkPoint (GroupName "group-1") Null Null None Null "onchain_parse_error".
Definition localNoStamp : TrendPoint :=
  mkPoint (GroupName "group-1") (Num (Fin 100)) (Num (Fin 97)) (Some "PERIODIC")
    (Num NaN) "local".

(** Trust falling by three points per report: no drop of ten, no jump of
    eight, slope -3. *)
Definition slowDecline : list TrendPoint :=
  [ point 100 1 "local"; point 97 2 "local"; point 94 3 "local";
    point 91 4 "local" ].

(** Three drops of twenty in six samples, then a plateau. *)
Definition threeDrops : list TrendPoint :=
  [ point 100 1 "local"; point 80 2 "local"; point 60 3 "local";
    point 40 4 "local"; point 40 5 "local"; point 40 6 "local" ].

End Samples.

(** ** Payloads up to the insertion order of their properties *)

Module HasherSpec.
Import JS Json Blockchain.
Local Open Scope string_scope.

(** An object of the language has each property name once, at every depth. *)
#[warnings="-register-all"]
Inductive wf : json -> Prop :=
| wf_null : wf JNull
| wf_bool b : wf (JBool b)
| wf_num n : wf (JNum n)
| wf_str s : wf (JStr s)
| wf_arr items : Forall wf items -> wf (JArr items)
| wf_obj fields :
    NoDup (map fst fields) ->
    Forall (fun kv => wf (snd kv)) fields ->
    wf (JObj fields).

(** [reorder p p']: [p'] is [p] with the properties of any of its objects,
    at any depth, inserted in another order. *)
Inductive reorder : json -> json -> Prop :=
| reorder_same v : reorder v v
| reorder_arr items items' :
    reorder_items items items' -> reorder (JArr items) (JArr items')
| reorder_obj fields fields' shuffled :
    reorder_fields fields fields' ->
    Permutation fields' shuffled ->
    reorder (JObj fields) (JObj shuffled)
with reorder_items : list json -> list json -> Prop :=
| reorder_items_nil : reorder_items [] []
| reorder_items_cons v v' r r' :
    reorder v v' -> reorder_items r r' -> reorder_items (v :: r) (v' :: r')
with reorder_fields : list (string * json) -> list (string * json) -> Prop :=
| reorder_fields_nil : reorder_fields [] []
| reorder_fields_cons k v v' r r' :
    reorder v v' -> reorder_fields r r' ->
    reorder_fields ((k, v) :: r) ((k, v') :: r').

Scheme reorder_min := Minimality for reorder Sort Prop
  with reorder_items_min := Minimality for reorder_items Sort Prop
  with reorder_fields_min := Minimality for reorder_fields Sort Prop.

Combined Scheme reorder_mutual
  from reorder_min, reorder_items_min, reorder_fields_min.

(** The order in which [sort()] leaves two keys. *)
Definition leKey (a b : string) : Prop := String.leb a b = true.

Section Rendered.
Context {rt : Runtime}.

(** The serialized properties of an object, as [stableStringify] builds
    them before it sorts the keys. *)
Definition rendered (fields : list (string * json)) : list (string * string) :=
  map (fun kv => match kv with (k, v) => (k, stableStringify v) end) fields.

(** [stableStringify(obj[k])] *)
Definition stringifyAt (fields : list (string * json)) (k : string) : string :=
  match lookup k fields with
  | Some v => stableStringify v
  | None => "undefined"
  end.

End Rendered.

(** A runtime for the examples: integers print in decimal, other numbers
    as a question mark, and a string is quoted without escapes. *)
Definition quoteMark : string := String (ascii_of_nat 34) EmptyString.

Fixpoint digits (fuel : nat) (n : N) (acc : string) : string :=
  match fuel with
  | O => acc
  | S fuel' =>
      let acc' := String (ascii_of_N (48 + N.modulo n 10)) acc in
      if N.eqb (N.div n 10) 0 then acc' else digits fuel' (N.div n 10) acc'
  end.

Definition printQ (q : Q) : string :=
  match q with
  | Qmake (Z0) 1 => "0"
  | Qmake (Zpos p) 1 => digits 40 (Npos p) EmptyString
  | Qmake (Zneg p) 1 => "-" ++ digits 40 (Npos p) EmptyString
  | _ => "?"
  end.

Definition sampleRuntime : Runtime :=
  {| numberToString := printQ;
     StringToNumber := fun _ => NaN;
     quoteJSONString := fun s => quoteMark ++ s ++ quoteMark |}.

(** Hash helpers for the examples: the digest is the text itself. *)
Definition sampleHelpers : HashHelpers :=
  mkHelpers (fun bytes => "0x" ++ string_of_list_byte bytes) list_byte_of_string.

Definition sampleEthers : EthersPackage := mkEthers (Some sampleHelpers) None None.

(** Two insertion orders of one payload. *)
Definition samplePayload : json :=
  JObj [ ("trustB", JNum (Fin 90));
         ("trustA", JNum (Fin 55));
         ("tags", JArr [ JObj [ ("y", JNull); ("x", JBool true) ] ]) ].

Definition samplePayloadShuffled : json :=
  JObj [ ("tags", JArr [ JObj [ ("x", JBool true); ("y", JNull) ] ]);
         ("trustB", JNum (Fin 90));
         ("trustA", JNum (Fin 55)) ].

End HasherSpec.

(** ** Readings of the trace and of the event store *)

Module GatewaySpec.
Import JS Json Blockchain Gateway HasherSpec.
Local Open Scope string_scope.

(** The [stage] of a stored record. *)
Definition stageOf (rec : json) : jsval := get rec "stage".

(** The stages of the records appended by the effects of a trace. *)
Fixpoint appendedStages (tr : list Effect) : list jsval :=
  match tr with
  | [] => []
  | AppendEvent rec :: rest => stageOf rec :: appendedStages rest
  | _ :: rest => appendedStages rest
  end.

(** The pauses of the worker in a trace, in milliseconds. *)
Fixpoint pauses (tr : list Effect) : list Q :=
  match tr with
  | [] => []
  | Sleep ms :: rest => ms :: pauses rest
  | _ :: rest => pauses rest
  end.

Definition isValidateCall (e : Effect) : bool :=
  match e with
  | SystemValidate _ _ => true
  | _ => false
  end.

(** No effect of the trace is a call of the trend analysis. *)
Definition noValidateCall (tr : list Effect) : bool :=
  forallb (fun e => negb (isValidateCall e)) tr.

(** [st'] is [st] after more effects, none of them a call of the trend
    analysis. *)
Definition growsQuietly (st st' : State) : Prop :=
  exists more, trace st' = (trace st ++ more)%list /\ noValidateCall more = true.

(** The credential read by the handler:
    [req.headers['x-api-key'] || req.headers['X-API-KEY']]. *)
Definition credential (req : Request) : option string :=
  orHash (header "x-api-key" (headers req)) (header "X-API-KEY" (headers req)).

(** The payload read by the handler: [req.body || {}]. *)
Definition payloadOf (req : Request) : json :=
  orNull (or_ (body req) (Some (JObj []))).

(** The credential sent with a submission. *)
Definition sentCredential (s : Submission) : option string :=
  orHash (header "x-api-key" (sentHeaders s)) (header "X-API-KEY" (sentHeaders s)).

(** The effects after those of [st] are one answer. *)
Definition answersOnly (st st' : State) (status : nat) : Prop :=
  exists body, trace st' = (trace st ++ [Respond status body])%list.

(** Nothing but the trace differs between the two states. *)
Definition sameData (st st' : State) : Prop :=
  events st' = events st
  /\ thresholds st' = thresholds st
  /\ writeQueue st' = writeQueue st
  /\ processingQueue st' = processingQueue st
  /\ submissions st' = submissions st
  /\ inFlight st' = inFlight st.

(** *** Sample configurations *)

Definition sampleConfig : Config :=
  mkConfig "dhanushharini03080411" (Fin 60) None.

Definition sampleClock : Clock :=
  mkClock 1700000000000 "2023-11-14T22:13:20.000Z".

Definition emptyState : State := mkState [] [] [] false 0 [] None.

(** No contract and no wallet: on-chain calls disabled. *)
Definition disabledChain : Chain :=
  mkChain sampleEthers None false (fun _ => Ret None).

(** A contract and a wallet, and a ledger that rejects every submission. *)
Definition failingChain : Chain :=
  mkChain sampleEthers (Some (fun _ _ => Throw "rpc unavailable")) true
    (fun _ => Ret None).

(** The payload of the end-to-end scenario of the specification. *)
Definition lowTrustPayload : json :=
  JObj [ ("trustA", JNum (Fin 55)); ("trustB", JNum (Fin 90));
         ("distA", JNum (Fin 40)); ("distB", JNum (Fin 42));
         ("reason", JStr "LOW_TRUST"); ("ts", JNum (Fin 1700000000)) ].

(** The queue item that the handler builds for that payload. *)
Definition lowTrustItem : json :=
  JObj [ ("eventId", JStr "evt-1"); ("deviceId", JStr "esp32-01");
         ("groupId", JStr "group-1");
         ("oldTS", JNum (Fin 55)); ("newTS", JNum (Fin 90));
         ("reason", JStr "LOW_TRUST"); ("dataHash", JStr "0x00");
         ("ts", JNum (Fin 1700000)); ("payload", lowTrustPayload);
         ("trustA", JNum (Fin 55)); ("trustB", JNum (Fin 90));
         ("flagged", JBool true);
         ("systemDecision", JObj [ ("action", JStr "insufficient_data") ]) ].

(** The state right after [enqueueChainLog(lowTrustItem)] pushed the item. *)
Definition oneQueued : State :=
  mkState [] [] [mkWrapper lowTrustItem 0] false 0 [] None.

Definition requestWith (key : option string) (payload : json) : Request :=
  mkRequest
    (match key with
     | Some k => [ ("x-api-key", k) ]
     | None => []
     end)
    (Some payload).

(** A submission whose body [express.json()] parsed. *)
Definition submissionWith (key : option string) (payload : json) : Submission :=
  mkSubmission
    (match key with
     | Some k => [ ("x-api-key", k) ]
     | None => []
     end)
    (ParsedBody (Some payload)).

(** A submission whose body is not JSON text: the middleware answers 400. *)
Definition garbled (key : option string) : Submission :=
  mkSubmission
    (match key with
     | Some k => [ ("x-api-key", k) ]
     | None => []
     end)
    (ParseError 400 "SyntaxError: Unexpected token in JSON").

(** An analysis that finds too little history. *)
Definition noHistory : list json -> string -> json -> Exc SystemValidation.Decision.t :=
  fun _ _ _ =>
    Ret (SystemValidation.Decision.mk SystemValidation.insufficient_data None
           (Some (SystemValidation.NotOk "insufficient_samples")) None None).

End GatewaySpec.

(** ** The record of stage [received] *)

Module HandlerSpec.
Import JS Json Blockchain Gateway GatewaySpec.
Local Open Scope string_scope.

Section Received.
Context {rt : Runtime}.
Variable c : Chain.

(** The record that the handler appends and publishes first, for what
    step 4 computed. *)
Definition receivedRecord (clk : Clock) (req : Request) (i : Intake) : json :=
  staged (storedEventOf c clk (payloadOf req) i) "received".

End Received.

(** Requests for the examples. *)
Definition scores (a b : json) : json :=
  JObj [ ("deviceId", JStr "esp32-01"); ("groupId", JStr "group-1");
         ("trustA", a); ("trustB", b) ].

Definition goodKey : option string := Some "dhanushharini03080411".

(** A body whose [groupId] is an object with a [toString] of its own that
    is not a function. *)
Definition unprintableGroup : json :=
  JObj [ ("groupId", JObj [ ("toString", JNum (Fin 1)) ]);
         ("trustA", JNum (Fin 59)); ("trustB", JNum (Fin 100)) ].

End HandlerSpec.

(* ===================================================================== *)
(** * Vocabulary of the further properties                                 *)
(* ===================================================================== *)

(** ** The merged series *)

Module TrendSpec.
Import JS SystemValidation.
Local Open Scope string_scope.

(** The order of the sort of [buildTrustSeries]: by [ts || 0]. *)
Definition tsLe (a b : TrendPoint) : Prop := (orZero (ts a) <= orZero (ts b))%Q.

(** Oldest first. *)
Definition ascending (l : list TrendPoint) : Prop := StronglySorted tsLe l.

(** The list on which the window is taken. *)
Definition dedupedOf (local : list TrendPoint) (chain : ChainRead)
  : list TrendPoint :=
  dedupe (sortByTs (onchainPoints chain ++ local)%list).

(** A history of [n] points, one per second from [stamp], whose new score
    starts at [score] and changes by [step] per point. *)
Fixpoint ramp (n : nat) (stamp score step : Z) : list TrendPoint :=
  match n with
  | O => []
  | S n' =>
      Samples.point score stamp "local" :: ramp n' (stamp + 1) (score + step) step
  end.

(** The sums of the least-squares loop, as functions of the points. *)
Definition sx (l : list (Q * Q)) : Q := fold_right (fun p acc => fst p + acc) 0 l.
Definition sy (l : list (Q * Q)) : Q := fold_right (fun p acc => snd p + acc) 0 l.
Definition sxy (l : list (Q * Q)) : Q :=
  fold_right (fun p acc => fst p * snd p + acc) 0 l.
Definition sxx (l : list (Q * Q)) : Q :=
  fold_right (fun p acc => fst p * fst p + acc) 0 l.

(** The squared distances of the abscissas of [l] from [x]. *)
Definition dev (l : list (Q * Q)) (x : Q) : Q :=
  fold_right (fun p acc => (fst p - x) * (fst p - x) + acc) 0 l.

(** The denominator of the slope. *)
Definition spread2 (l : list (Q * Q)) : Q :=
  indexQ (List.length l) * sxx l - sx l * sx l.

(** The scores of a series lie on the line [a + b * index]. *)
Definition onLine (a b : Q) (series : list TrendPoint) : Prop :=
  forall k p, nth_error series k = Some p ->
              exists q, scoreOf p = Fin q /\ (q == a + b * indexQ k)%Q.

(** The same for the points of the loop, from index [i]. *)
Definition pointsOnLine (a b : Q) (pts : list (Q * Q)) : Prop :=
  forall pt, In pt pts -> (snd pt == a + b * fst pt)%Q.

End TrendSpec.

(** ** Canonical payloads *)

Module CanonicalSpec.
Import JS Json Blockchain Gateway HasherSpec.
Local Open Scope string_scope.

(** Induction on a value with the hypotheses on the members of an array
    and on the property values of an object. *)
Fixpoint json_induction (P : json -> Prop)
  (Hnull : P JNull) (Hbool : forall b, P (JBool b))
  (Hnum : forall n, P (JNum n)) (Hstr : forall s, P (JStr s))
  (Harr : forall items, Forall P items -> P (JArr items))
  (Hobj : forall fields, Forall (fun kv => P (snd kv)) fields -> P (JObj fields))
  (v : json) {struct v} : P v :=
  match v with
  | JNull => Hnull
  | JBool b => Hbool b
  | JNum n => Hnum n
  | JStr s => Hstr s
  | JArr items =>
      Harr items
        ((fix all (l : list json) : Forall P l :=
            match l with
            | [] => Forall_nil P
            | x :: r =>
                Forall_cons x
                  (json_induction P Hnull Hbool Hnum Hstr Harr Hobj x) (all r)
            end) items)
  | JObj fields =>
      Hobj fields
        ((fix all (l : list (string * json)) : Forall (fun kv => P (snd kv)) l :=
            match l with
            | [] => Forall_nil _
            | kv :: r =>
                Forall_cons kv
                  (json_induction P Hnull Hbool Hnum Hstr Harr Hobj (snd kv))
                  (all r)
            end) fields)
  end.

(** Insertion of a property into properties sorted by name. *)
Fixpoint insertField (kv : string * json) (l : list (string * json))
  : list (string * json) :=
  match l with
  | [] => [kv]
  | kv' :: l' =>
      if String.leb (fst kv) (fst kv') then kv :: l else kv' :: insertField kv l'
  end.

Definition sortFields (l : list (string * json)) : list (string * json) :=
  fold_right insertField [] l.

(** The payload with the properties of every object, at every depth,
    inserted in the order of their names. *)
Fixpoint canonical (v : json) : json :=
  match v with
  | JArr items => JArr (map canonical items)
  | JObj fields =>
      JObj (sortFields (map (fun kv => match kv with (k, x) => (k, canonical x) end)
                          fields))
  | _ => v
  end.

(** A name of ASCII characters that is no array index: for such names the
    order of [String.leb] is the order of code units that [sort()] uses,
    and [JSON.stringify] lists them in the order they were inserted. *)
Definition plainName (k : string) : bool :=
  match arrayIndex k with
  | Some _ => false
  | None => forallb (fun ch => (nat_of_ascii ch <? 128)%nat) (list_ascii_of_string k)
  end.

(** Every property name of the payload, at every depth, is plain. *)
Fixpoint plainNames (v : json) : bool :=
  match v with
  | JArr items => forallb plainNames items
  | JObj fields =>
      forallb (fun kv => match kv with (k, x) => plainName k && plainNames x end)
        fields
  | _ => true
  end.

End CanonicalSpec.

(** ** Ledger samples *)

Module AdapterSpec.
Import JS Json Blockchain Gateway HasherSpec GatewaySpec.
Local Open Scope string_scope.

(** The hash of a sent transaction: [tx.hash || tx.transactionHash || null]. *)
Definition sentHash (tx : Tx) : option string :=
  orHash (orHash (txHashProp tx) (txTransactionHash tx)) None.

(** The calls of a run that submit to the contract. *)
Fixpoint submitted (calls : list Call) : list LedgerArgs :=
  match calls with
  | [] => []
  | LogTrustEvent args :: rest => args :: submitted rest
  | _ :: rest => submitted rest
  end.

(** A transaction that is sent but whose confirmation cannot be awaited. *)
Definition unconfirmedTx : Tx :=
  mkTx (Some "0xabc") None (Throw "timeout").

(** A ledger that accepts the submission and then answers no wait. *)
Definition unconfirmedChain : Chain :=
  mkChain sampleEthers (Some (fun _ _ => Ret unconfirmedTx)) true
    (fun _ => Throw "network error").

End AdapterSpec.

(** ** The write queue *)

Module QueueSpec.
Import JS Json Blockchain Gateway GatewaySpec.
Local Open Scope string_scope.

(** The submissions an entry of the queue can still cause. *)
Definition remaining (w : Wrapper) : nat := Nat.max 1 (maxAttempts - attempts w).

(** The submissions a queue can still cause. *)
Definition budget (q : list Wrapper) : nat :=
  fold_right (fun w acc => (remaining w + acc)%nat) 0%nat q.


(** [events'] is [events] with records appended. *)
Definition extends (events events' : list json) : Prop :=
  exists more, events' = (events ++ more)%list.

End QueueSpec.

(** ** The life of one request *)

Module LifecycleSpec.
Import JS Json Blockchain Gateway GatewaySpec HandlerSpec.
Local Open Scope string_scope.

(** The [eventId] of a stored record. *)
Definition storedEventId (rec : json) : jsval := get rec "eventId".

Definition isRespond (e : Effect) : bool :=
  match e with
  | Respond _ _ => true
  | _ => false
  end.

(** The answers sent in a trace. *)
Definition responses (tr : list Effect) : list Effect := filter isRespond tr.

Definition isSaveThresholds (e : Effect) : bool :=
  match e with
  | SaveThresholds _ => true
  | _ => false
  end.

(** The decision the handler goes on with: the one returned, or the
    [validation_error] decision built when the analysis throws. *)
Definition stepDecision (r : Exc SystemValidation.Decision.t)
  : SystemValidation.Decision.t :=
  match r with
  | Ret d => d
  | Throw m =>
      SystemValidation.Decision.mk SystemValidation.validation_error
        None None None (Some m)
  end.

(** The stage of the record stored after the analysis. *)
Definition stepStage (r : Exc SystemValidation.Decision.t) : string :=
  match r with
  | Ret _ => "system-validation"
  | Throw _ => "system-validation-error"
  end.

(** The answer of the outer [catch] of the handler to an error with
    message [m]. *)
Definition serverError (m : string) : Effect :=
  Respond 500 (JObj [ ("error", JStr "server error"); ("details", JStr m) ]).

Section Request.
Context {rt : Runtime}.
Variable c : Chain.
Variable validate : list json -> string -> json -> Exc SystemValidation.Decision.t.

(** The call of the trend analysis made for a request: it reads the store
    that already holds the record of stage [received]. *)
Definition analysisOf (clk : Clock) (req : Request) (st : State) (i : Intake)
  : Exc SystemValidation.Decision.t :=
  validate (events st ++ [receivedRecord c clk req i])%list
    (inGroupId i) (inDeviceId i).

Definition decisionOf (clk : Clock) (req : Request) (st : State) (i : Intake)
  : SystemValidation.Decision.t :=
  stepDecision (analysisOf clk req st i).

Definition validationStage (clk : Clock) (req : Request) (st : State) (i : Intake)
  : string :=
  stepStage (analysisOf clk req st i).

(** Step 8: the local flag or a decision that confirms the sender as
    unreliable. *)
Definition finalFlagOf (clk : Clock) (req : Request) (st : State) (i : Intake)
  : bool :=
  inLocalFlagged i
  || isConfirm (SystemValidation.Decision.action (decisionOf clk req st i)).

(** The queue item of steps 10 and 11 for a request, when its conversions
    go through. *)
Definition itemOf (clk : Clock) (req : Request) (st : State) (i : Intake)
  : Exc json :=
  queueItemOf c clk (payloadOf req) i (decisionOf clk req st i).

End Request.

(** The worker and its queue are as they were. *)
Definition sameWorker (st st' : State) : Prop :=
  writeQueue st' = writeQueue st
  /\ processingQueue st' = processingQueue st
  /\ submissions st' = submissions st
  /\ inFlight st' = inFlight st.

(** The worker and its queue after [enqueueChainLog(item)]: a
    busy worker finds the entry at the tail of the queue later; an idle
    worker is started at once, takes the head of the queue and enters
    [processAndLog] for it. *)
Definition queuedAs (item : json) (st st' : State) : Prop :=
  processingQueue st' = true
  /\ if processingQueue st then
       writeQueue st' = (writeQueue st ++ [mkWrapper item 0])%list
       /\ submissions st' = submissions st
       /\ inFlight st' = inFlight st
     else
       exists p,
         inFlight st' = Some p
         /\ (writeQueue st ++ [mkWrapper item 0])%list = taken p :: writeQueue st'
         /\ ordinal p = submissions st
         /\ submissions st' = S (submissions st).

(** The identifier under which the records of a request are stored:
    [payload.eventId || `evt-${Date.now()}`]. *)
Definition requestEventId {rt : Runtime} (clk : Clock) (req : Request) : json :=
  eventIdOf clk (payloadOf req).

(** The analysis as the gateway calls it: [systemValidate] on what the
    two reads of the history return for the group and the device. *)
Definition shippedValidate
  (localOf : list json -> string -> json -> list SystemValidation.TrendPoint)
  (chainOf : string -> SystemValidation.ChainRead)
  : list json -> string -> json -> Exc SystemValidation.Decision.t :=
  fun stored groupId deviceId =>
    SystemValidation.systemValidate (localOf stored groupId deviceId) (chainOf groupId).


(** A decision that lowers the threshold of the group to 55. *)
Definition lowering : list json -> string -> json -> Exc SystemValidation.Decision.t :=
  fun _ _ _ =>
    Ret (SystemValidation.Decision.mk SystemValidation.adjust_threshold_lower
           (Some "downward_trend") None (Some (Fin 55)) None).



(** A request with both scores above the default threshold. *)
Definition steadyRequest : Request :=
  requestWith goodKey (scores (JNum (Fin 90)) (JNum (Fin 95))).

Definition steadyIntake : Intake :=
  mkIntake "group-1" (JStr "esp32-01") (Fin 90) (Fin 95) (Fin 60) false.


End LifecycleSpec.

(** ** The sensor node *)

Module NodeSpec.
Import Firmware.
Local Open Scope string_scope.
Local Open Scope Z_scope.

(** Both scores are between 0 and 100. *)
Definition inRange (n : Node) : Prop :=
  0 <= trustA n <= 100 /\ 0 <= trustB n <= 100.

(** The bodies of the requests posted by some effects, in order. *)
Fixpoint bodies (effects : list Effect) : list string :=
  match effects with
  | [] => []
  | Post _ _ body :: rest => body :: bodies rest
  | _ :: rest => bodies rest
  end.

(** The values written to the PWM pin of the motor by some effects. *)
Fixpoint motorValues (effects : list Effect) : list Z :=
  match effects with
  | [] => []
  | AnalogWrite pin value :: rest =>
      if (pin =? ENA)%Z then value :: motorValues rest else motorValues rest
  | _ :: rest => motorValues rest
  end.

(** The distance of the sensor that [loop] trusts after the update of the
    scores: sensor A unless B has the higher score. *)
Definition chosenDistance (i : Inputs) (n' : Node) : Z :=
  if (trustB n' <=? trustA n')%Z then echoA i else echoB i.

(** A report that carries a score below the threshold of the node. *)
Definition lowTrust (r : Report) : bool :=
  (reportTrustA r <? TRUST_THRESHOLD)%Z || (reportTrustB r <? TRUST_THRESHOLD)%Z.

(** What holds of every report the node builds: scores between 0 and 100,
    [newTS] the score of sensor A and [oldTS] that score one pass earlier. *)
Definition plausible (r : Report) : Prop :=
  0 <= newTS r <= 100
  /\ 0 <= oldTS r <= 100
  /\ - 1 <= newTS r - oldTS r <= 1
  /\ reportTrustA r = newTS r
  /\ 0 <= reportTrustB r <= 100
  /\ reason r = (if lowTrust r then "LOW_TRUST" else "PERIODIC").

(** The time since the last post as the node computes it. *)
Definition sinceLastPost (i : Inputs) (n : Node) : Z :=
  uint32 (postClock i - lastPostTime n).

(** A pass with both sensors at a stable distance of 30 cm, the link up and
    the gateway answering 200. *)
Definition steadyPass (t : Z) : Inputs :=
  mkInputs 30 30 t 0 true t t 0 1234 200 0.

(** A pass in which sensor A reads [d] cm and the gateway is not reached. *)
Definition movingPass (t d : Z) : Inputs :=
  mkInputs d 30 t 0 true t t 0 1234 (-1) (-1).

End NodeSpec.
(* ===================================================================== *)
(** * Part III: properties                                                 *)
(* ===================================================================== *)

(** ** The merged series: dedup by group and timestamp *)

Module SeriesFacts.
Import JS SystemValidation SeriesSpec.

(** *** Keys *)

Lemma keyEqb_refl (k : Key) : keyEqb k k = true.
Proof.
  unfold keyEqb. rewrite String.eqb_refl, Qeq_bool_refl. reflexivity.
Qed.

Lemma keyEqb_sym (a b : Key) : keyEqb a b = true -> keyEqb b a = true.
Proof.
  unfold keyEqb. intros H. apply andb_true_iff in H as [Hs Hq].
  apply String.eqb_eq in Hs. rewrite Hs, String.eqb_refl.
  now rewrite (Qeq_bool_sym _ _ Hq).
Qed.

Lemma keyEqb_trans (a b c : Key) :
  keyEqb a b = true -> keyEqb b c = true -> keyEqb a c = true.
Proof.
  unfold keyEqb. intros H1 H2.
  apply andb_true_iff in H1 as [Hs1 Hq1].
  apply andb_true_iff in H2 as [Hs2 Hq2].
  apply String.eqb_eq in Hs1, Hs2. rewrite Hs1, Hs2, String.eqb_refl.
  now rewrite (Qeq_bool_trans _ _ _ Hq1 Hq2).
Qed.

Lemma keyEqb_sym_false (a b : Key) : keyEqb a b = false -> keyEqb b a = false.
Proof.
  intros H. destruct (keyEqb b a) eqn:E; [|reflexivity].
  apply keyEqb_sym in E. congruence.
Qed.

(** Equivalent keys are interchangeable on the left of [keyEqb]. *)
Lemma keyEqb_congr (a b c : Key) :
  keyEqb a b = true -> keyEqb a c = keyEqb b c.
Proof.
  intros Hab. destruct (keyEqb b c) eqn:Hbc.
  - eapply keyEqb_trans; eauto.
  - destruct (keyEqb a c) eqn:Hac; [|reflexivity].
    rewrite <- Hbc. symmetry.
    eapply keyEqb_trans; [apply keyEqb_sym; exact Hab | exact Hac].
Qed.

(** The comparison made by [findIndex] is finer than the one made by the
    set [seen]: points equal under [===] have the same key. *)
Lemma sameGroupTs_key (d x : TrendPoint) :
  sameGroupTs d x = true -> keyEqb (keyOf d) (keyOf x) = true.
Proof.
  unfold sameGroupTs, keyEqb, keyOf. intros H.
  apply andb_true_iff in H as [Hg Ht]. simpl.
  apply andb_true_iff. split.
  - destruct (groupId d), (groupId x); simpl in *; try discriminate; auto.
  - destruct (ts d) as [| |[|a]], (ts x) as [| |[|b]];
      simpl in *; try discriminate; auto.
Qed.

(** *** The entries of [deduped] that carry a given key *)

Lemma hits_congr (a b : Key) (l : list TrendPoint) :
  keyEqb a b = true -> hits a l = hits b l.
Proof.
  intros H. unfold hits. apply filter_ext. intros d. now apply keyEqb_congr.
Qed.

Lemma hits_app (k : Key) (l1 l2 : list TrendPoint) :
  hits k (l1 ++ l2) = hits k l1 ++ hits k l2.
Proof. apply filter_app. Qed.

Lemma hits_In (k : Key) (l : list TrendPoint) (d : TrendPoint) :
  In d l -> keyEqb k (keyOf d) = true -> (1 <= List.length (hits k l))%nat.
Proof.
  intros Hin Hk.
  assert (Hd : In d (hits k l)) by (apply filter_In; auto).
  destruct (hits k l); [contradiction | simpl; lia].
Qed.

Lemma hits_none (k : Key) (l : list TrendPoint) (d : TrendPoint) :
  List.length (hits k l) = 0%nat -> In d l -> keyEqb k (keyOf d) = false.
Proof.
  intros Hlen Hin. destruct (keyEqb k (keyOf d)) eqn:Hk; [|reflexivity].
  pose proof (hits_In k l d Hin Hk). lia.
Qed.

(** Two positions with the same key are two hits. *)
Lemma two_hits (l : list TrendPoint) :
  forall (i j : nat) (p q : TrendPoint),
    i <> j -> nth_error l i = Some p -> nth_error l j = Some q ->
    keyEqb (keyOf p) (keyOf q) = true ->
    (2 <= List.length (hits (keyOf p) l))%nat.
Proof.
  induction l as [|x r IH]; intros i j p q Hij Hi Hj Hk.
  - destruct i; discriminate.
  - destruct i as [|i], j as [|j]; simpl in Hi, Hj.
    + congruence.
    + injection Hi as ->. unfold hits. simpl. rewrite keyEqb_refl. simpl.
      apply nth_error_In in Hj.
      pose proof (hits_In (keyOf p) r q Hj Hk). unfold hits in H. lia.
    + injection Hj as ->. unfold hits. simpl. rewrite Hk. simpl.
      apply nth_error_In in Hi.
      pose proof (hits_In (keyOf p) r p Hi (keyEqb_refl _)). unfold hits in H. lia.
    + assert (Hij' : i <> j) by congruence.
      specialize (IH i j p q Hij' Hi Hj Hk).
      unfold hits in *. simpl. destruct (keyEqb (keyOf p) (keyOf x)); simpl; lia.
Qed.

Lemma hits_skipn (k : Key) (n : nat) (l : list TrendPoint) :
  (List.length (hits k (skipn n l)) <= List.length (hits k l))%nat.
Proof.
  rewrite <- (firstn_skipn n l) at 2. rewrite hits_app, length_app. lia.
Qed.

(** *** [findIndex] and the assignment at the index found *)

Lemma findIndex_Some {A : Type} (f : A -> bool) (l : list A) (idx : nat) :
  findIndex f l = Some idx ->
  exists l1 old l2,
    l = l1 ++ old :: l2 /\ f old = true /\
    replaceAt idx old l = l /\
    forall item, replaceAt idx item l = l1 ++ item :: l2.
Proof.
  revert idx. induction l as [|x r IH]; intros idx H; simpl in H.
  - discriminate.
  - destruct (f x) eqn:Hfx.
    + injection H as <-. exists [], x, r. simpl. auto.
    + destruct (findIndex f r) as [n|] eqn:Hr; simpl in H; [|discriminate].
      injection H as <-. destruct (IH n eq_refl) as (l1 & old & l2 & -> & Hold & Hsame & Hrep).
      exists (x :: l1), old, l2. simpl. repeat split; auto.
      * now rewrite Hsame.
      * intros item. now rewrite Hrep.
Qed.

Lemma findIndex_None {A : Type} (f : A -> bool) (l : list A) :
  findIndex f l = None -> forall d, In d l -> f d = false.
Proof.
  induction l as [|x r IH]; intros H d Hin; simpl in *.
  - contradiction.
  - destruct (f x) eqn:Hfx; [discriminate|].
    destruct (findIndex f r); [discriminate|].
    destruct Hin as [<-|Hin]; auto.
Qed.

(** *** The set [seen] *)

Lemma has_app (seen : list Key) (k k' : Key) :
  has (seen ++ [k']) k = has seen k || keyEqb k k'.
Proof.
  unfold has. rewrite existsb_app. simpl. now rewrite orb_false_r.
Qed.


Lemma has_congr (seen : list Key) (a b : Key) :
  keyEqb a b = true -> has seen a = has seen b.
Proof.
  intros H. unfold has. induction seen as [|k r IH]; simpl.
  - reflexivity.
  - now rewrite IH, (keyEqb_congr a b k H).
Qed.

Lemma keyEqb_congr_r (a b c : Key) :
  keyEqb a b = true -> keyEqb c a = keyEqb c b.
Proof.
  intros Hab. destruct (keyEqb c b) eqn:Hcb.
  - eapply keyEqb_trans; [|apply keyEqb_sym; exact Hab].
    exact Hcb.
  - destruct (keyEqb c a) eqn:Hca; [|reflexivity].
    rewrite <- Hcb. symmetry. eapply keyEqb_trans; eauto.
Qed.

Lemma existsb_false_filter {A : Type} (f : A -> bool) (l : list A) :
  existsb f l = false -> filter f l = [].
Proof.
  induction l as [|x r IH]; simpl; intros H; [reflexivity|].
  apply orb_false_iff in H as [Hx Hr]. rewrite Hx. auto.
Qed.

Lemma hits_middle (k : Key) (l1 l2 : list TrendPoint) (x : TrendPoint) :
  List.length (hits k (l1 ++ x :: l2)) =
  (List.length (hits k l1) + (if keyEqb k (keyOf x) then 1 else 0)
   + List.length (hits k l2))%nat.
Proof.
  rewrite hits_app, length_app. unfold hits at 2. simpl.
  destruct (keyEqb k (keyOf x)); simpl; fold (hits k l2); lia.
Qed.

(** *** The loop invariant *)

Lemma Inv_init : Inv [] ([], []).
Proof.
  constructor; simpl; intros; try contradiction; auto.
Qed.

(** An item that leaves the state unchanged. *)
Lemma Inv_skip (processed : list TrendPoint) (st : DedupState) (item : TrendPoint) :
  Inv processed st ->
  has (snd st) (keyOf item) = true ->
  (source item = "local"%string ->
   forall d, In d (fst st) -> sameGroupTs d item = false) ->
  Inv (processed ++ [item]) st.
Proof.
  intros [Hu Hs Hp Hl Hf] Hseen Hnone. constructor; auto.
  - intros x Hx. apply in_app_or in Hx as [Hx|[<-|[]]]; auto.
  - intros d L Hd HL Hsrc Hsame.
    apply in_app_or in HL as [HL|[<-|[]]]; eauto.
    rewrite (Hnone Hsrc d Hd) in Hsame. discriminate.
  - intros d Hd. apply in_or_app. left. auto.
Qed.

(** An item whose key is new is pushed. *)
Lemma Inv_push (processed deduped : list TrendPoint) (seen : list Key)
  (item : TrendPoint) :
  Inv processed (deduped, seen) ->
  has seen (keyOf item) = false ->
  Inv (processed ++ [item]) (deduped ++ [item], seen ++ [keyOf item]).
Proof.
  intros [Hu Hs Hp Hl Hf] Hnew. simpl in *.
  assert (Hfresh : forall d, In d deduped -> keyEqb (keyOf item) (keyOf d) = false).
  { intros d Hd. destruct (keyEqb (keyOf item) (keyOf d)) eqn:Hk; [|reflexivity].
    rewrite Hs in Hnew.
    assert (Hex : existsb (fun d0 => keyEqb (keyOf item) (keyOf d0)) deduped = true)
      by (apply existsb_exists; eauto).
    congruence. }
  constructor; simpl.
  - intros k. rewrite hits_app, length_app. unfold hits at 2. simpl.
    destruct (keyEqb k (keyOf item)) eqn:Hk; simpl.
    + rewrite (hits_congr k (keyOf item) deduped Hk).
      unfold hits. rewrite existsb_false_filter; [simpl; lia|].
      rewrite <- Hs. exact Hnew.
    + specialize (Hu k). lia.
  - intros k. rewrite has_app, existsb_app. simpl. now rewrite Hs, orb_false_r.
  - intros x Hx. rewrite has_app.
    apply in_app_or in Hx as [Hx|[<-|[]]].
    + now rewrite (Hp x Hx).
    + rewrite keyEqb_refl. apply orb_true_r.
  - intros d L Hd HL Hsrc Hsame.
    apply in_app_or in Hd as [Hd|[<-|[]]];
      apply in_app_or in HL as [HL|[<-|[]]]; eauto.
    + apply sameGroupTs_key, keyEqb_sym in Hsame.
      rewrite (Hfresh d Hd) in Hsame. discriminate.
    + apply sameGroupTs_key in Hsame.
      rewrite (has_congr seen _ _ Hsame), (Hp L HL) in Hnew. discriminate.
  - intros d Hd. apply in_or_app.
    apply in_app_or in Hd as [Hd|Hd]; auto.
Qed.

(** A local item replaces the entry it is equal to under [===]. *)
Lemma Inv_replace (processed l1 l2 : list TrendPoint) (seen : list Key)
  (old item : TrendPoint) :
  Inv processed (l1 ++ old :: l2, seen) ->
  has seen (keyOf item) = true ->
  source item = "local"%string ->
  sameGroupTs old item = true ->
  Inv (processed ++ [item]) (l1 ++ item :: l2, seen).
Proof.
  intros [Hu Hs Hp Hl Hf] Hseen Hsrc Hsame. simpl in *.
  pose proof (sameGroupTs_key old item Hsame) as Hkey.
  assert (Hswap : forall k, keyEqb k (keyOf old) = keyEqb k (keyOf item))
    by (intros k; now apply keyEqb_congr_r).
  constructor; simpl.
  - intros k. specialize (Hu k). rewrite hits_middle in *.
    now rewrite <- Hswap.
  - intros k. rewrite Hs, !existsb_app. simpl. now rewrite Hswap.
  - intros x Hx. apply in_app_or in Hx as [Hx|[<-|[]]]; auto.
  - intros d L Hd HL HsrcL HsameL.
    apply in_app_or in Hd as [Hd|[<-|Hd]]; auto;
      (apply in_app_or in HL as [HL|[<-|[]]];
       [ apply (Hl d L); auto; apply in_or_app; simpl; auto | ]).
    + apply sameGroupTs_key, keyEqb_sym in HsameL.
      specialize (Hu (keyOf item)). rewrite hits_middle in Hu.
      rewrite (keyEqb_sym _ _ Hkey) in Hu.
      pose proof (hits_In (keyOf item) l1 d Hd HsameL). lia.
    + apply sameGroupTs_key, keyEqb_sym in HsameL.
      specialize (Hu (keyOf item)). rewrite hits_middle in Hu.
      rewrite (keyEqb_sym _ _ Hkey) in Hu.
      pose proof (hits_In (keyOf item) l2 d Hd HsameL). lia.
  - intros d Hd. apply in_or_app.
    apply in_app_or in Hd as [Hd|[<-|Hd]]; simpl; auto;
      left; apply Hf; apply in_or_app; simpl; auto.
Qed.

Lemma Inv_step (processed : list TrendPoint) (st : DedupState) (item : TrendPoint) :
  Inv processed st -> Inv (processed ++ [item]) (dedupStep st item).
Proof.
  destruct st as [deduped seen]. intros HI. unfold dedupStep.
  destruct (has seen (keyOf item)) eqn:Hseen; simpl.
  - destruct (String.eqb (source item) "local") eqn:Hsrc.
    + apply String.eqb_eq in Hsrc.
      destruct (findIndex (fun d => sameGroupTs d item) deduped) as [idx|] eqn:Hidx.
      * destruct (findIndex_Some _ _ _ Hidx) as (l1 & old & l2 & Hl & Hold & _ & Hrep).
        rewrite Hrep. subst deduped. now apply Inv_replace with (old := old).
      * apply Inv_skip; auto. intros _ d Hd.
        now apply (findIndex_None _ _ Hidx d).
    + apply Inv_skip; auto. intros Hloc. rewrite Hloc in Hsrc. discriminate.
  - now apply Inv_push.
Qed.

Lemma Inv_fold (rest : list TrendPoint) :
  forall processed st,
    Inv processed st -> Inv (processed ++ rest) (fold_left dedupStep rest st).
Proof.
  induction rest as [|item rest IH]; intros processed st HI; simpl.
  - now rewrite app_nil_r.
  - replace (processed ++ item :: rest) with ((processed ++ [item]) ++ rest)
      by (rewrite <- app_assoc; reflexivity).
    apply IH. now apply Inv_step.
Qed.

Lemma Inv_dedupe (merged : list TrendPoint) :
  Inv merged (fold_left dedupStep merged ([], [])).
Proof. apply (Inv_fold merged [] ([], [])). apply Inv_init. Qed.

(** *** Sorting and the window keep the items they are given *)

Lemma In_insertByTs (x y : TrendPoint) (l : list TrendPoint) :
  In y (insertByTs x l) <-> y = x \/ In y l.
Proof.
  induction l as [|z r IH]; simpl.
  - intuition.
  - destruct (Qle_bool (orZero (ts x)) (orZero (ts z))); simpl.
    + intuition.
    + rewrite IH. intuition.
Qed.

Lemma In_sortByTs (y : TrendPoint) (l : list TrendPoint) :
  In y (sortByTs l) <-> In y l.
Proof.
  induction l as [|x r IH]; simpl.
  - reflexivity.
  - rewrite In_insertByTs, IH. intuition.
Qed.

Lemma lastWindow_skipn (l : list TrendPoint) :
  exists n, lastWindow l = skipn n l.
Proof.
  unfold lastWindow. destruct (List.length l <=? WINDOW_EVENTS)%nat.
  - now exists 0%nat.
  - eauto.
Qed.

Lemma In_lastWindow (s : TrendPoint) (l : list TrendPoint) :
  In s (lastWindow l) -> In s l.
Proof.
  destruct (lastWindow_skipn l) as [n ->]. intros H.
  rewrite <- (firstn_skipn n l). apply in_or_app. now right.
Qed.

(** *** The series has one point per key, and the local one *)

Lemma series_unique (local : list TrendPoint) (chain : ChainRead) (k : Key) :
  (List.length (hits k (buildTrustSeries local chain)) <= 1)%nat.
Proof.
  unfold buildTrustSeries, dedupe.
  destruct (lastWindow_skipn
              (fst (fold_left dedupStep (sortByTs (onchainPoints chain ++ local))
                      ([], [])))) as [n ->].
  etransitivity; [apply hits_skipn|].
  apply (inv_unique _ _ (Inv_dedupe _)).
Qed.

(** Within the series, two different positions never hold points with the
    same dedup key, and a surviving point that is equal under [===] to a
    local input point in group and timestamp is a local one. *)
Lemma series_keys_are_unique (local : list TrendPoint) (chain : ChainRead) :
  let series := buildTrustSeries local chain in
  (forall i j p q,
      i <> j -> nth_error series i = Some p -> nth_error series j = Some q ->
      keyEqb (keyOf p) (keyOf q) = false /\ sameGroupTs p q = false)
  /\
  (forall L s,
      In L local -> source L = "local"%string ->
      In s series -> sameGroupTs s L = true ->
      source s = "local"%string).
Proof.
  intros series. split.
  - intros i j p q Hij Hi Hj.
    assert (Hk : keyEqb (keyOf p) (keyOf q) = false).
    { destruct (keyEqb (keyOf p) (keyOf q)) eqn:Hk; [|reflexivity].
      pose proof (two_hits series i j p q Hij Hi Hj Hk).
      pose proof (series_unique local chain (keyOf p)).
      fold series in H0. lia. }
    split; [exact Hk|].
    destruct (sameGroupTs p q) eqn:Hs; [|reflexivity].
    apply sameGroupTs_key in Hs. congruence.
  - intros L s HL Hsrc Hs Hsame.
    unfold series, buildTrustSeries, dedupe in Hs. apply In_lastWindow in Hs.
    eapply (inv_local _ _ (Inv_dedupe _)); eauto.
    apply In_sortByTs, in_or_app. now right.
Qed.

(** A point decoded from a ledger log never takes part in the comparison
    that lets a local point replace it: its [groupId] is an object. *)
Lemma decoded_point_equals_no_point (O L : TrendPoint) :
  groupId O = Indexed -> sameGroupTs O L = false /\ sameGroupTs L O = false.
Proof.
  intros HO. unfold sameGroupTs, strictEqGroup. rewrite HO.
  destruct (groupId L); split; reflexivity.
Qed.

(** C3 (the source departs from the claim). A local observation of
    group [g] at second [t] and a ledger log of the same group decoded at
    the same second: the point of the log carries the object of the indexed
    argument where the local point carries the text, so the two have
    different dedup keys and are never equal under [===]; the series holds
    both, the ledger point first, and the local point does not replace
    it. *)
Theorem ledger_point_survives_beside_local_point
  (g : string) (t : Q) (L O : TrendPoint) :
  groupId L = GroupName g -> g <> "[object Object]"%string ->
  ts L = Num (Fin t) -> source L = "local"%string ->
  groupId O = Indexed -> ts O = Num (Fin t) -> source O = "onchain"%string ->
  buildTrustSeries [L] (Some (Ret [O])) = [O; L]
  /\ keyEqb (keyOf O) (keyOf L) = false
  /\ sameGroupTs O L = false.
Proof.
  intros HgL Hg HtL HsL HgO HtO HsO.
  assert (Hkey : keyEqb (keyOf O) (keyOf L) = false).
  { unfold keyEqb, keyOf. rewrite HgL, HgO. cbn [groupText fst snd].
    destruct (String.eqb "[object Object]" g) eqn:E; [|reflexivity].
    apply String.eqb_eq in E. congruence. }
  split; [|split; [exact Hkey | apply (decoded_point_equals_no_point O L HgO)]].
  assert (Hsorted : sortByTs ([O] ++ [L]) = [O; L]).
  { cbn [app sortByTs fold_right insertByTs]. rewrite HtL, HtO. cbn [orZero].
    now rewrite (proj2 (Qle_bool_iff t t) (Qle_refl t)). }
  unfold buildTrustSeries, onchainPoints. rewrite Hsorted.
  unfold dedupe. cbn [fold_left dedupStep has existsb negb app fst].
  rewrite (keyEqb_sym_false _ _ Hkey). reflexivity.
Qed.

(** The theorem at a local and a ledger observation of group-1 at second 2:
    nothing is dropped. *)
Lemma ledger_point_survives_beside_local_point_witness :
  buildTrustSeries [Samples.localAt2] (Some (Ret [Samples.chainAt2]))
  = [Samples.chainAt2; Samples.localAt2]
  /\ keyEqb (keyOf Samples.chainAt2) (keyOf Samples.localAt2) = false
  /\ sameGroupTs Samples.chainAt2 Samples.localAt2 = false.
Proof.
  apply (ledger_point_survives_beside_local_point "group-1" 2
           Samples.localAt2 Samples.chainAt2);
    try reflexivity.
  discriminate.
Defined.

(** The set [seen] is coarser than [===]: a null and a NaN timestamp both
    give the key of timestamp 0 without being equal, and of two such points
    the one met first stays. *)
Remark coarser_key_keeps_first_met :
  keyEqb (keyOf Samples.chainUnparsed) (keyOf Samples.localNoStamp) = true
  /\ sameGroupTs Samples.chainUnparsed Samples.localNoStamp = false
  /\ buildTrustSeries [Samples.localNoStamp] (Some (Ret [Samples.chainUnparsed]))
     = [Samples.chainUnparsed].
Proof. repeat split. Qed.

End SeriesFacts.

(** ** The decision rules of [systemValidate] *)

Module DecisionFacts.
Import JS SystemValidation.

Lemma Qltb_true (a b : Q) : (a < b)%Q -> Qltb a b = true.
Proof.
  intros H. unfold Qltb. destruct (Qle_bool b a) eqn:E; [|reflexivity].
  apply Qle_bool_iff in E. exfalso. exact (Qlt_not_le _ _ H E).
Qed.

Lemma Qle_bool_false (a b : Q) : (b < a)%Q -> Qle_bool a b = false.
Proof.
  intros H. destruct (Qle_bool a b) eqn:E; [|reflexivity].
  apply Qle_bool_iff in E. exfalso. exact (Qlt_not_le _ _ H E).
Qed.

(** The name read by the third rule is bound nowhere in the module. *)
Lemma TRUST_THRESHOLD_unbound :
  resolve moduleScope "TRUST_THRESHOLD" = @Throw binding "TRUST_THRESHOLD is not defined".
Proof. reflexivity. Qed.

(** [systemValidate] resolves: every error is turned into a decision. *)
Lemma systemValidate_returns (local : list TrendPoint) (chain : ChainRead) :
  exists d, systemValidate local chain = Ret d.
Proof.
  unfold systemValidate.
  destruct (decide (buildTrustSeries local chain)); simpl; eauto.
Qed.

(** C5. When the analysis of the series counts at least three drops over at
    least six samples, the decision is [confirm_unreliable] with reason
    [recurring_drops], whatever the instability fraction and the slope: the
    first rule is tried first. *)
Theorem recurring_drops_decided_first
  (local : list TrendPoint) (chain : ChainRead) (a : Stats) :
  analyzeSeries (buildTrustSeries local chain) = Ok a ->
  (DROP_COUNT_THRESHOLD <= drops a)%nat ->
  (6 <= samples a)%nat ->
  systemValidate local chain
  = Ret (Decision.mk confirm_unreliable (Some "recurring_drops"%string)
           (Some (Ok a)) None None).
Proof.
  intros Ha Hd Hs. unfold systemValidate, decide. rewrite Ha.
  apply Nat.leb_le in Hd, Hs. rewrite Hd, Hs. reflexivity.
Qed.

(** The theorem at a history with three drops in six samples, whose
    instability fraction 3/5 also meets the second rule. *)
Lemma recurring_drops_decided_first_witness :
  Qle_bool INSTABILITY_FRACTION (3 # 5) = true
  /\ systemValidate Samples.threeDrops None
     = Ret (Decision.mk confirm_unreliable (Some "recurring_drops"%string)
              (Some (Ok (mkStats 3 (3 # 5) (-500 # 50) 6))) None None).
Proof.
  split; [reflexivity|].
  apply (recurring_drops_decided_first Samples.threeDrops None
           (mkStats 3 (3 # 5) (-500 # 50) 6)).
  - reflexivity.
  - unfold DROP_COUNT_THRESHOLD. simpl. lia.
  - simpl. lia.
Defined.

(** Whenever the third rule is reached and applies, building the decision
    reads [TRUST_THRESHOLD], the read throws, and the [catch] of
    [systemValidate] answers with [validation_error]. *)
Lemma downward_trend_ends_in_validation_error
  (local : list TrendPoint) (chain : ChainRead) (a : Stats) :
  analyzeSeries (buildTrustSeries local chain) = Ok a ->
  (drops a < DROP_COUNT_THRESHOLD)%nat \/ (samples a < 6)%nat ->
  (instabilityFrac a < INSTABILITY_FRACTION)%Q ->
  (slope a < -2)%Q ->
  systemValidate local chain
  = Ret (Decision.mk validation_error None None None
           (Some "TRUST_THRESHOLD is not defined"%string)).
Proof.
  intros Ha Hrule1 Hrule2 Hrule3. unfold systemValidate, decide. rewrite Ha.
  assert (H1 : ((DROP_COUNT_THRESHOLD <=? drops a)%nat && (6 <=? samples a)%nat)
               = false).
  { apply andb_false_iff. destruct Hrule1 as [H|H]; [left|right];
      apply Nat.leb_gt; exact H. }
  rewrite H1, (Qle_bool_false _ _ Hrule2), (Qltb_true _ _ Hrule3).
  reflexivity.
Qed.

(** C1 (the source departs from the claim). A history whose trust falls by
    three points per report meets the premises of the third rule: no
    recurring drops, no instability, slope -3.  [systemValidate] does not
    return [adjust_threshold_lower]: it returns [validation_error] with
    the message of the ReferenceError. *)
Theorem downward_trend_sample_is_validation_error :
  exists a,
    analyzeSeries (buildTrustSeries Samples.slowDecline None) = Ok a
    /\ (drops a < DROP_COUNT_THRESHOLD)%nat
    /\ (instabilityFrac a < INSTABILITY_FRACTION)%Q
    /\ (slope a < -2)%Q
    /\ systemValidate Samples.slowDecline None
       = Ret (Decision.mk validation_error None None None
                (Some "TRUST_THRESHOLD is not defined"%string)).
Proof.
  eexists. split; [reflexivity|]. split; [|split; [|split]].
  - unfold DROP_COUNT_THRESHOLD. simpl. lia.
  - reflexivity.
  - reflexivity.
  - reflexivity.
Qed.

End DecisionFacts.

(** ** The canonical serialization *)

Module HasherFacts.
Import JS Json Blockchain HasherSpec.

(** *** The order of the keys *)

Lemma leb_trans (a b c : string) :
  String.leb a b = true -> String.leb b c = true -> String.leb a c = true.
Proof.
  unfold String.leb. intros Hab Hbc.
  destruct (String.compare a b) eqn:E1; try discriminate;
    destruct (String.compare b c) eqn:E2; try discriminate.
  - apply String.compare_eq_iff in E1, E2. subst.
    assert (H : String.compare c c = Eq)
      by (apply String_as_OT.cmp_eq; reflexivity).
    now rewrite H.
  - apply String.compare_eq_iff in E1. subst. now rewrite E2.
  - apply String.compare_eq_iff in E2. subst. now rewrite E1.
  - apply String_as_OT.cmp_lt in E1, E2.
    pose proof (String_as_OT.lt_trans _ _ _ E1 E2) as H.
    apply String_as_OT.cmp_lt in H. unfold String_as_OT.cmp in H.
    now rewrite H.
Qed.

Lemma leb_false_flip (a b : string) :
  String.leb a b = false -> String.leb b a = true.
Proof.
  intros H. destruct (String.leb_total a b) as [E|E]; congruence.
Qed.

Lemma insertKey_perm (k : string) (l : list string) :
  Permutation (insertKey k l) (k :: l).
Proof.
  induction l as [|x r IH]; simpl.
  - reflexivity.
  - destruct (String.leb k x).
    + reflexivity.
    + rewrite IH. apply perm_swap.
Qed.

Lemma sortKeys_perm (l : list string) : Permutation (sortKeys l) l.
Proof.
  induction l as [|x r IH]; simpl.
  - reflexivity.
  - rewrite insertKey_perm. now constructor.
Qed.

Lemma insertKey_sorted (k : string) (l : list string) :
  StronglySorted leKey l -> StronglySorted leKey (insertKey k l).
Proof.
  induction 1 as [|x r Hr IH Hx]; simpl.
  - repeat constructor.
  - destruct (String.leb k x) eqn:E.
    + constructor; [now constructor|].
      constructor; [exact E|].
      eapply Forall_impl; [|exact Hx].
      intros y Hy. eapply leb_trans; eauto.
    + constructor; [exact IH|].
      rewrite (insertKey_perm k r). constructor; [|exact Hx].
      now apply leb_false_flip.
Qed.

Lemma sortKeys_sorted (l : list string) : StronglySorted leKey (sortKeys l).
Proof.
  induction l as [|x r IH]; simpl.
  - constructor.
  - now apply insertKey_sorted.
Qed.

(** Two sorted lists with the same members are the same list. *)
Lemma sorted_perm_eq (l1 : list string) :
  forall l2,
    StronglySorted leKey l1 -> StronglySorted leKey l2 ->
    Permutation l1 l2 -> l1 = l2.
Proof.
  induction l1 as [|a r1 IH]; intros l2 H1 H2 HP.
  - apply Permutation_nil in HP. now subst.
  - destruct l2 as [|b r2].
    + apply Permutation_sym, Permutation_nil in HP. discriminate.
    + inversion H1 as [|? ? Hs1 Ha]; subst.
      inversion H2 as [|? ? Hs2 Hb]; subst.
      assert (Hab : a = b).
      { assert (Ha2 : In a (b :: r2))
          by (eapply Permutation_in; [exact HP | now left]).
        assert (Hb1 : In b (a :: r1))
          by (eapply Permutation_in; [apply Permutation_sym; exact HP | now left]).
        destruct Ha2 as [->|Ha2]; [reflexivity|].
        destruct Hb1 as [->|Hb1]; [reflexivity|].
        rewrite Forall_forall in Ha, Hb.
        apply String.leb_antisym; [apply Ha | apply Hb]; assumption. }
      subst b. f_equal. apply IH; auto.
      eapply Permutation_cons_inv; exact HP.
Qed.

(** [Object.keys(obj).sort()] does not depend on the insertion order. *)
Lemma sortKeys_order_independent (l l' : list string) :
  Permutation l l' -> sortKeys l = sortKeys l'.
Proof.
  intros HP. apply sorted_perm_eq; try apply sortKeys_sorted.
  rewrite !sortKeys_perm. exact HP.
Qed.

(** *** Reading a property among the serialized ones *)

Section Canonical.
Context {rt : Runtime}.

Lemma rendered_keys (fields : list (string * json)) :
  map fst (rendered fields) = map fst fields.
Proof.
  unfold rendered. rewrite map_map. apply map_ext. now intros [k v].
Qed.

(** The model reads in [rendered] what the source computes as
    [stableStringify(obj[k])]. *)
Lemma valueAt_rendered (fields : list (string * json)) (k : string) :
  valueAt k (rendered fields) = stringifyAt fields k.
Proof.
  unfold stringifyAt. induction fields as [|[k' v] r IH]; simpl.
  - reflexivity.
  - destruct (String.eqb k' k); [reflexivity | exact IH].
Qed.

Lemma stableStringify_obj (fields : list (string * json)) :
  stableStringify (JObj fields)
  = ("{" ++ join ","
             (map (fun k => quoteJSONString k ++ ":" ++ stringifyAt fields k)
                (sortKeys (map fst fields))) ++ "}")%string.
Proof.
  simpl. fold (rendered fields). do 3 f_equal.
  apply map_ext. intros k. now rewrite valueAt_rendered.
Qed.

Lemma valueAt_absent (k : string) (l : list (string * string)) :
  ~ In k (map fst l) -> valueAt k l = "undefined"%string.
Proof.
  induction l as [|[k' s] r IH]; simpl; intros H.
  - reflexivity.
  - destruct (String.eqb k' k) eqn:E.
    + apply String.eqb_eq in E. tauto.
    + apply IH. tauto.
Qed.

(** With distinct names, the property read does not depend on the order. *)
Lemma valueAt_order_independent (k : string) (l l' : list (string * string)) :
  Permutation l l' -> NoDup (map fst l) -> valueAt k l = valueAt k l'.
Proof.
  induction 1 as [| [k1 s1] l l' HP IH | [k1 s1] [k2 s2] l | l l' l'' HP1 IH1 HP2 IH2];
    intros Hnd; simpl in *.
  - reflexivity.
  - inversion Hnd; subst. destruct (String.eqb k1 k); auto.
  - inversion Hnd as [|? ? Hnotin _]; subst.
    destruct (String.eqb k1 k) eqn:E1, (String.eqb k2 k) eqn:E2; auto.
    apply String.eqb_eq in E1, E2. subst. simpl in Hnotin. tauto.
  - rewrite IH1 by assumption. apply IH2.
    eapply Permutation_NoDup; [|exact Hnd]. now apply Permutation_map.
Qed.

(** *** Order independence *)

Lemma reorder_fields_keys (r r' : list (string * json)) :
  reorder_fields r r' -> map fst r = map fst r'.
Proof. induction 1; simpl; congruence. Qed.

Lemma stringify_reorder_all :
  (forall v v', reorder v v' -> wf v -> stableStringify v = stableStringify v')
  /\ (forall l l', reorder_items l l' -> Forall wf l ->
        map stableStringify l = map stableStringify l')
  /\ (forall r r', reorder_fields r r' -> Forall (fun kv => wf (snd kv)) r ->
        rendered r = rendered r').
Proof.
  apply reorder_mutual.
  - reflexivity.
  - intros items items' _ IH Hwf. inversion Hwf; subst. simpl.
    now rewrite IH.
  - intros fields fields' shuffled Hrf IH HP Hwf.
    inversion Hwf as [| | | | |? Hnd Hall]; subst.
    simpl. fold (rendered fields) (rendered shuffled).
    assert (Hkeys : Permutation (map fst fields) (map fst shuffled)).
    { rewrite (reorder_fields_keys _ _ Hrf). now apply Permutation_map. }
    rewrite <- (sortKeys_order_independent _ _ Hkeys).
    do 3 f_equal. apply map_ext. intros k. do 2 f_equal.
    rewrite (IH Hall). apply valueAt_order_independent.
    + unfold rendered. now apply Permutation_map.
    + rewrite rendered_keys, <- (reorder_fields_keys _ _ Hrf). exact Hnd.
  - reflexivity.
  - intros v v' r r' _ IHv _ IHr Hwf. inversion Hwf; subst. simpl.
    rewrite IHv, IHr; auto.
  - reflexivity.
  - intros k v v' r r' _ IHv _ IHr Hwf. inversion Hwf; subst. simpl in *.
    rewrite IHv, IHr; auto.
Qed.

(** C4. For every payload and every other insertion order of the
    properties of its objects, at any depth, [stableStringify] gives the
    same string and [keccakHash] the same hash. *)
Theorem canonical_form_ignores_insertion_order
  (E : EthersPackage) (p p' : json) :
  wf p -> reorder p p' ->
  stableStringify p = stableStringify p' /\ keccakHash E p = keccakHash E p'.
Proof.
  intros Hwf Hre.
  assert (Hs : stableStringify p = stableStringify p')
    by (apply (proj1 stringify_reorder_all); assumption).
  split; [exact Hs|]. unfold keccakHash. now rewrite Hs.
Qed.

End Canonical.

(** The theorem at the two insertion orders of the sample payload. *)
Lemma canonical_form_ignores_insertion_order_witness :
  @stableStringify sampleRuntime samplePayload
  = @stableStringify sampleRuntime samplePayloadShuffled
  /\ @keccakHash sampleRuntime sampleEthers samplePayload
     = @keccakHash sampleRuntime sampleEthers samplePayloadShuffled.
Proof.
  apply (@canonical_form_ignores_insertion_order sampleRuntime sampleEthers).
  - apply wf_obj.
    + simpl. repeat constructor; simpl; intuition discriminate.
    + repeat constructor; simpl; intuition discriminate.
  - eapply reorder_obj with
      (fields' := [ ("trustB"%string, JNum (Fin 90));
                    ("trustA"%string, JNum (Fin 55));
                    ("tags"%string,
                     JArr [ JObj [ ("x"%string, JBool true); ("y"%string, JNull) ] ]) ]).
    + constructor; [apply reorder_same|].
      constructor; [apply reorder_same|].
      constructor; [|constructor].
      apply reorder_arr. constructor; [|constructor].
      eapply reorder_obj with
        (fields' := [ ("y"%string, JNull); ("x"%string, JBool true) ]).
      * repeat constructor.
      * apply perm_swap.
    + eapply perm_trans; [apply perm_skip, perm_swap | apply perm_swap].
Defined.

End HasherFacts.

(** ** Properties of objects *)

Module JsonFacts.
Import JS Json.

Lemma lookup_setField_same (k : string) (v : json) (l : list (string * json)) :
  lookup k (setField k v l) = Some v.
Proof.
  induction l as [|[k' v'] l IH]; simpl.
  - now rewrite String.eqb_refl.
  - destruct (String.eqb k' k) eqn:E; simpl.
    + now rewrite String.eqb_refl.
    + now rewrite E.
Qed.

Lemma lookup_setField_other (k k' : string) (v : json) (l : list (string * json)) :
  k <> k' -> lookup k (setField k' v l) = lookup k l.
Proof.
  intros Hne. induction l as [|[k0 v0] l IH]; simpl.
  - destruct (String.eqb k' k) eqn:E; [|reflexivity].
    apply String.eqb_eq in E. congruence.
  - destruct (String.eqb k0 k') eqn:E; simpl.
    + apply String.eqb_eq in E. subst k0.
      destruct (String.eqb k' k) eqn:E2; [|reflexivity].
      apply String.eqb_eq in E2. congruence.
    + now rewrite IH.
Qed.

End JsonFacts.

(** ** The ledger adapter *)

Module AdapterFacts.
Import JS Json Blockchain HasherSpec GatewaySpec.

Section Adapter.
Context {rt : Runtime}.

(** The [catch] of [processAndLog] turns every error into a result. *)
Lemma processAndLog_total (c : Chain) (n : nat) (now : Q) (evt : json) :
  exists r, snd (processAndLog c n now evt) = Ret r.
Proof.
  unfold processAndLog. simpl.
  destruct (snd (processAndLogBody c n now evt)); simpl; eauto.
Qed.

(** With the contract or the wallet missing nothing is called on the
    ledger, whatever the event. *)
Lemma processAndLog_disabled_calls (c : Chain) (n : nat) (now : Q) (evt : json) :
  contract c = None \/ wallet c = false ->
  fst (processAndLog c n now evt) = [].
Proof.
  intros Hoff. unfold processAndLog, processAndLogBody. cbn [fst].
  destruct (defaulting now evt) as [d|m]; [|reflexivity].
  destruct (keccakHash (ethers c) evt) as [h|m]; [|reflexivity].
  destruct Hoff as [Hc|Hw].
  - rewrite Hc. reflexivity.
  - rewrite Hw. destruct (contract c); reflexivity.
Qed.

(** C9, as the source has it. [processAndLog] never throws: it returns a
    result object with its [success] flag.  With no contract or no wallet it
    calls nothing on the ledger; when moreover the defaulting of the fields
    of the event goes through and the content hash [h] is computed, it
    returns [{ txHash: null, hash: h, success: false,
    error: 'on-chain disabled' }].  When its [try] block throws an error
    with the message [m], which is not empty, it returns [success: false],
    [error: m] and the hash that can still be computed. *)
Theorem processAndLog_always_returns
  (c : Chain) (n : nat) (now : Q) (evt : json) :
  (exists r, snd (processAndLog c n now evt) = Ret r)
  /\ (contract c = None \/ wallet c = false ->
      fst (processAndLog c n now evt) = [])
  /\ (forall d h,
        contract c = None \/ wallet c = false ->
        defaulting now evt = Ret d ->
        keccakHash (ethers c) evt = Ret h ->
        processAndLog c n now evt
        = ([], Ret (mkResult None (Some h) false
                      (Some "on-chain disabled"%string) None)))
  /\ (forall m,
        m <> EmptyString ->
        snd (processAndLogBody c n now evt) = Throw m ->
        exists r,
          snd (processAndLog c n now evt) = Ret r
          /\ success r = false /\ error r = Some m /\ txHash r = None
          /\ hash r = maybeHash c evt).
Proof.
  split; [|split; [|split]].
  - apply processAndLog_total.
  - apply processAndLog_disabled_calls.
  - intros d h Hoff Hd Hh. unfold processAndLog, processAndLogBody.
    rewrite Hd, Hh.
    destruct Hoff as [Hc|Hw].
    + rewrite Hc. reflexivity.
    + rewrite Hw. destruct (contract c); reflexivity.
  - intros m _ Hm. unfold processAndLog. simpl. rewrite Hm. simpl.
    eexists. split; [reflexivity|]. simpl. auto.
Qed.

(** A result with [success: true] comes from a submission the ledger
    accepted. *)
Lemma processAndLog_success (c : Chain) (n : nat) (now : Q) (evt : json) (r : Result) :
  snd (processAndLog c n now evt) = Ret r -> success r = true ->
  exists logTrustEvent args tx,
    contract c = Some logTrustEvent /\ wallet c = true
    /\ logTrustEvent n args = Ret tx.
Proof.
  unfold processAndLog, processAndLogBody. simpl.
  destruct (defaulting now evt) as [d|m]; simpl.
  - destruct (keccakHash (ethers c) evt) as [h|m]; simpl.
    + destruct (contract c) as [f|]; simpl.
      * destruct (wallet c); simpl.
        -- destruct (f n (ledgerArgs d h)) as [tx|m] eqn:Hf; simpl.
           ++ intros _ _. eauto 6.
           ++ intros H Hs. injection H as <-. discriminate.
        -- intros H Hs. injection H as <-. discriminate.
      * intros H Hs. injection H as <-. discriminate.
    + intros H Hs. injection H as <-. discriminate.
  - intros H Hs. injection H as <-. discriminate.
Qed.

End Adapter.

(** The theorem with on-chain calls disabled, and with a ledger that
    rejects the submission. *)
Lemma processAndLog_always_returns_witness :
  @processAndLog sampleRuntime disabledChain 0 0 lowTrustPayload
  = ([], Ret (mkResult None
                (Some (String.append "0x"
                         (@stableStringify sampleRuntime lowTrustPayload)))
                false (Some "on-chain disabled"%string) None))
  /\ exists r,
       snd (@processAndLog sampleRuntime failingChain 0 0 lowTrustPayload) = Ret r
       /\ success r = false /\ error r = Some "rpc unavailable"%string
       /\ txHash r = None
       /\ hash r = @maybeHash sampleRuntime failingChain lowTrustPayload.
Proof.
  split.
  - eapply (proj1 (proj2 (proj2 (@processAndLog_always_returns sampleRuntime
                                   disabledChain 0 0 lowTrustPayload)))).
    + left. reflexivity.
    + reflexivity.
    + reflexivity.
  - apply (proj2 (proj2 (proj2 (@processAndLog_always_returns sampleRuntime
                                  failingChain 0 0 lowTrustPayload)))).
    + discriminate.
    + reflexivity.
Defined.

(** C9 (the claim as it was stated does not hold). With no contract and no
    wallet, an event that is [null], and an event whose [ts] is an object
    with a [toString] that is not a function, are not answered
    ['on-chain disabled']: the defaulting throws before the test of the
    contract, so the result carries the message of the TypeError. *)
Theorem unreadable_event_is_not_answered_on_chain_disabled :
  contract disabledChain = None
  /\ wallet disabledChain = false
  /\ (exists h,
        @processAndLog sampleRuntime disabledChain 0 0 JNull
        = ([], Ret (mkResult None h false
                      (Some "Cannot read properties of null (reading 'groupId')"%string)
                      None)))
  /\ (exists h,
        @processAndLog sampleRuntime disabledChain 0 0
          (JObj [ ("ts"%string, JObj [ ("toString"%string, JNum (Fin 1)) ]) ])
        = ([], Ret (mkResult None h false
                      (Some "Cannot convert object to primitive value"%string)
                      None))).
Proof.
  split; [reflexivity|]. split; [reflexivity|].
  split; eexists; reflexivity.
Qed.

End AdapterFacts.

(** ** The write queue *)

Module QueueFacts.
Import JS Json Blockchain Gateway HasherSpec GatewaySpec JsonFacts AdapterFacts.

Section Worker.
Context {rt : Runtime}.

Lemma pauses_app (a b : list Effect) : pauses (a ++ b) = pauses a ++ pauses b.
Proof.
  induction a as [|e a IH]; simpl; [reflexivity|].
  destruct e; simpl; now rewrite IH.
Qed.

Lemma appendedStages_app (a b : list Effect) :
  appendedStages (a ++ b) = appendedStages a ++ appendedStages b.
Proof.
  induction a as [|e a IH]; simpl; [reflexivity|].
  destruct e; simpl; now rewrite IH.
Qed.

Lemma flaggedEventObj_with_payload (clk : Clock) (it payload : json) (r : Result) :
  get it "payload" = Some payload -> payload <> JNull ->
  exists obj, flaggedEventObj clk it r = Ret obj.
Proof.
  intros Hp Hnn. unfold flaggedEventObj. rewrite Hp.
  destruct payload; simpl; eauto. congruence.
Qed.

(** The [try] block throws only while it builds the [flaggedEvent] object
    of a flagged item without payload: an error of the ledger never leaves
    [processAndLog]. *)
Lemma tryBlock_throws_only_without_payload
  (c : Chain) (clk : Clock) (it : json) (st : State) (m : string) :
  snd (tryBlock c clk it st) = Throw m ->
  truthy (get it "flagged") = true
  /\ (get it "payload" = None \/ get it "payload" = Some JNull).
Proof.
  unfold tryBlock, settleTry.
  destruct (processAndLog_total c (submissions st) (nowMs clk) it) as [r Hr].
  rewrite Hr.
  destruct (truthy (get it "flagged")) eqn:Hf; simpl; [|discriminate].
  destruct (get it "payload") as [payload|] eqn:Hp; [|auto].
  destruct payload; auto;
    (edestruct (flaggedEventObj_with_payload clk it) as [obj Hobj];
     [exact Hp | discriminate | rewrite Hobj; discriminate]).
Qed.

(** Whatever the ledger answers, an item with a payload goes once through
    the loop: one submission, one [post-chain] record carrying the result,
    the 500 ms pause, and nothing put back on the queue. *)
Lemma iteration_logs_and_drops
  (c : Chain) (clk : Clock) (w : Wrapper) (rest : list Wrapper) (st : State)
  (payload : json) :
  get (item w) "payload" = Some payload -> payload <> JNull ->
  let st' := iteration c clk w rest st in
  exists r tr,
    snd (processAndLog c (submissions st) (nowMs clk) (item w)) = Ret r
    /\ writeQueue st' = rest
    /\ submissions st' = S (submissions st)
    /\ trace st' = trace st ++ tr
    /\ appendedStages tr = [Some (JStr "post-chain")]
    /\ pauses tr = [500%Q].
Proof.
  intros Hp Hnn st'.
  destruct (processAndLog_total c (submissions st) (nowMs clk) (item w)) as [r Hr].
  exists r.
  subst st'. unfold iteration, tryBlock, settleTry.
  replace (submissions (setQueue rest st)) with (submissions st) by reflexivity.
  rewrite Hr.
  destruct (truthy (get (item w) "flagged")) eqn:Hf.
  - destruct (flaggedEventObj_with_payload clk (item w) payload r Hp Hnn) as [obj Hobj].
    rewrite Hobj. simpl. eexists. split; [reflexivity|].
    split; [reflexivity|]. split; [reflexivity|].
    split; [rewrite <- !app_assoc; simpl; reflexivity|].
    cbn [appendedStages pauses stageOf get].
    rewrite lookup_setField_other by discriminate.
    rewrite lookup_setField_same. split; reflexivity.
  - simpl. eexists. split; [reflexivity|].
    split; [reflexivity|]. split; [reflexivity|].
    split; [rewrite <- !app_assoc; simpl; reflexivity|].
    cbn [appendedStages pauses stageOf get].
    rewrite lookup_setField_other by discriminate.
    rewrite lookup_setField_same. split; reflexivity.
Qed.

(** The [catch] block, when an iteration reaches it: below the bound the
    item goes back to the tail with one more attempt and the worker waits
    [1000 * 2^attempts] ms; at the bound a [post-chain-failed] record is
    appended and published and the item is not put back. *)
Lemma catchBlock_policy (clk : Clock) (w : Wrapper) (m : string) (st : State) :
  let st' := catchBlock clk w m st in
  ((attempts w + 1 < maxAttempts)%nat ->
     writeQueue st' = writeQueue st ++ [mkWrapper (item w) (attempts w + 1)]
     /\ trace st'
        = trace st ++ [Sleep (1000 * inject_Z (2 ^ Z.of_nat (attempts w + 1)))])
  /\ ((maxAttempts <= attempts w + 1)%nat ->
        writeQueue st' = writeQueue st
        /\ exists rec pub,
             trace st' = trace st ++ [AppendEvent rec; Emit "event_update" pub]
             /\ get pub "error" = Some (JStr m)).
Proof.
  unfold catchBlock. split; intros H.
  - apply Nat.ltb_lt in H. rewrite H. simpl. auto.
  - apply Nat.ltb_ge in H. rewrite H. simpl. split; [reflexivity|].
    eexists. eexists. split; [rewrite <- app_assoc; reflexivity|].
    unfold spread. simpl. apply lookup_setField_same.
Qed.

End Worker.

(** C2 (the source departs from the claim). A ledger that rejects the
    submission of a queued item: [processAndLog] returns [success: false]
    with the error, and the worker treats the return as a success of the
    [try] block.  After one iteration the queue is empty, the only record
    appended is [post-chain], the only pause is the 500 ms one: the item is
    not put back with one more attempt and no backoff of 2000 ms is
    waited. *)
Theorem rejected_submission_is_not_retried :
  exists st r,
    @processQueue sampleRuntime 1 failingChain sampleClock oneQueued = Some st
    /\ snd (@processAndLog sampleRuntime failingChain 0 (nowMs sampleClock)
              lowTrustItem) = Ret r
    /\ success r = false
    /\ error r = Some "rpc unavailable"%string
    /\ writeQueue st = []
    /\ submissions st = 1%nat
    /\ appendedStages (trace st) = [Some (JStr "post-chain")]
    /\ pauses (trace st) = [500%Q].
Proof.
  eexists. eexists. split; [cbv; reflexivity|]. split; [cbv; reflexivity|].
  repeat split.
Qed.

End QueueFacts.

(** ** The [/data] handler *)

Module HandlerFacts.
Import JS Json Blockchain Gateway HasherSpec GatewaySpec HandlerSpec JsonFacts.

Lemma Qltb_iff (a b : Q) : Qltb a b = true <-> (a < b)%Q.
Proof.
  unfold Qltb. split; intros H.
  - apply Qnot_le_lt. intros Hle. apply Qle_bool_iff in Hle.
    rewrite Hle in H. discriminate.
  - destruct (Qle_bool b a) eqn:E; [|reflexivity].
    apply Qle_bool_iff in E. exfalso. exact (Qlt_not_le _ _ H E).
Qed.

(** *** Where the call of the trend analysis stands in a trace *)

Lemma noValidateCall_app (a b : list Effect) :
  noValidateCall (a ++ b) = noValidateCall a && noValidateCall b.
Proof. unfold noValidateCall. apply forallb_app. Qed.

(** A trace with one call of the trend analysis splits around a call in
    one way only. *)
Lemma validate_call_split
  (l1 l2 before after : list Effect) (g0 g : string) (d0 d : json) :
  noValidateCall l1 = true -> noValidateCall l2 = true ->
  l1 ++ SystemValidate g0 d0 :: l2 = before ++ SystemValidate g d :: after ->
  before = l1 /\ g = g0 /\ d = d0 /\ after = l2.
Proof.
  revert before. induction l1 as [|e l1 IH]; intros before H1 H2 Heq.
  - destruct before as [|e' before]; simpl in Heq.
    + injection Heq as -> -> ->. auto.
    + injection Heq as <- Heq. exfalso.
      rewrite Heq, noValidateCall_app in H2.
      apply andb_true_iff in H2 as [_ H2]. discriminate.
  - simpl in H1. apply andb_true_iff in H1 as [He H1].
    destruct before as [|e' before]; simpl in Heq.
    + injection Heq as -> _. discriminate.
    + injection Heq as <- Heq.
      destruct (IH before H1 H2 Heq) as [-> [-> [-> ->]]]. auto.
Qed.

(** A trace without a call of the trend analysis does not split around
    one. *)
Lemma quiet_trace_has_no_call
  (l before after : list Effect) (g : string) (d : json) :
  noValidateCall l = true -> l <> before ++ SystemValidate g d :: after.
Proof.
  intros Hq ->. rewrite noValidateCall_app in Hq.
  apply andb_true_iff in Hq as [_ Hq]. discriminate.
Qed.

Section Handler.
Context {rt : Runtime}.
Variable cfg : Config.
Variable c : Chain.
Variable validate : list json -> string -> json -> Exc SystemValidation.Decision.t.

(** Only the configured key passes [verifyApiKey]. *)
Lemma verifyApiKey_true (key : option string) :
  verifyApiKey cfg key = true -> key = Some (GATEWAY_API_KEY cfg).
Proof.
  unfold verifyApiKey. destruct (String.eqb (GATEWAY_API_KEY cfg) EmptyString); [discriminate|].
  destruct key as [k|]; [|discriminate].
  intros H. apply andb_true_iff in H as [_ H].
  apply String.eqb_eq in H. now subst.
Qed.

Lemma verifyApiKey_false (key : option string) :
  key = None \/ key <> Some (GATEWAY_API_KEY cfg) -> verifyApiKey cfg key = false.
Proof.
  intros Hbad. destruct (verifyApiKey cfg key) eqn:Hv; [|reflexivity].
  apply verifyApiKey_true in Hv. destruct Hbad as [Hn|Hn]; congruence.
Qed.

(** The handler, on a request whose credential it refuses. *)
Lemma postData_refused (clk : Clock) (req : Request) (st : State) :
  verifyApiKey cfg (credential req) = false ->
  postData cfg c validate clk req st
  = record (Respond 401 (JObj [ ("error"%string, JStr "invalid api key") ])) st.
Proof.
  intros Hv. unfold postData. fold (credential req). rewrite Hv. reflexivity.
Qed.

(** C7, as the source has it. A submission whose credential is missing or
    is not the configured key changes nothing but the trace, which grows by
    one answer: no record is appended, nothing is emitted, nothing is
    queued.  The answer has status 401 when [express.json()] handed the
    request to the handler; a body that the middleware refuses is answered
    by the middleware, with its status, before the credential is looked
    at. *)
Theorem bad_credential_is_rejected_without_side_effects
  (clk : Clock) (s : Submission) (st : State) :
  sentCredential s = None \/ sentCredential s <> Some (GATEWAY_API_KEY cfg) ->
  let st' := receive cfg c validate clk s st in
  sameData st st'
  /\ (forall b, parse s = ParsedBody b ->
        trace st'
        = trace st ++ [Respond 401 (JObj [ ("error"%string, JStr "invalid api key") ])])
  /\ (forall status page, parse s = ParseError status page ->
        trace st' = trace st ++ [Respond status (JStr page)]).
Proof.
  intros Hbad st'. apply verifyApiKey_false in Hbad.
  subst st'. unfold receive.
  destruct (parse s) as [status page|b].
  - split; [repeat split|]. split; [discriminate|].
    intros ? ? H. injection H as <- <-. reflexivity.
  - rewrite postData_refused by exact Hbad.
    split; [repeat split|]. split; [reflexivity|discriminate].
Qed.

(** *** The order of the effects *)

Lemma growsQuietly_refl (st : State) : growsQuietly st st.
Proof. exists []. now rewrite app_nil_r. Qed.

Lemma growsQuietly_trans (s1 s2 s3 : State) :
  growsQuietly s1 s2 -> growsQuietly s2 s3 -> growsQuietly s1 s3.
Proof.
  intros [m1 [H1 Q1]] [m2 [H2 Q2]]. exists (m1 ++ m2). split.
  - now rewrite H2, H1, app_assoc.
  - now rewrite noValidateCall_app, Q1, Q2.
Qed.

Lemma growsQuietly_record (e : Effect) (st : State) :
  isValidateCall e = false -> growsQuietly st (record e st).
Proof.
  intros He. exists [e]. split; [reflexivity|].
  unfold noValidateCall. simpl. now rewrite He.
Qed.

Lemma growsQuietly_appendEvent (rec : json) (st : State) :
  growsQuietly st (appendEvent rec st).
Proof. exists [AppendEvent rec]. split; reflexivity. Qed.

Lemma growsQuietly_emit (topic : string) (payload : json) (st : State) :
  growsQuietly st (emit topic payload st).
Proof. exists [Emit topic payload]. split; reflexivity. Qed.

Lemma growsQuietly_startWorker (clk : Clock) (st : State) :
  growsQuietly st (startWorker c clk st).
Proof.
  unfold startWorker. cbv zeta.
  destruct (writeQueue (setProcessing true st)) as [|w rest].
  - exists []. split; [cbn; now rewrite app_nil_r|reflexivity].
  - eexists. split; reflexivity.
Qed.

Lemma growsQuietly_enqueue (clk : Clock) (evt : json) (st : State) :
  growsQuietly st (enqueueChainLog c clk evt st).
Proof.
  unfold enqueueChainLog. cbv zeta.
  match goal with |- context [if ?b then _ else _] => destruct b end.
  - eapply growsQuietly_trans; [|apply growsQuietly_startWorker].
    eexists. split; reflexivity.
  - eexists. split; reflexivity.
Qed.

Lemma growsQuietly_applyDecision (groupId : string) (deviceId : json)
  (groupThreshold : number) (d : SystemValidation.Decision.t)
  (stored : list (string * json)) (st : State) :
  growsQuietly st (snd (applyDecision groupId deviceId groupThreshold d stored st)).
Proof.
  unfold applyDecision. destruct (SystemValidation.Decision.action d); simpl;
    try apply growsQuietly_refl; try apply growsQuietly_emit.
  eapply growsQuietly_trans; [|apply growsQuietly_emit].
  eexists. split; reflexivity.
Qed.

Lemma growsQuietly_finish (clk : Clock) (payload : json) (i : Intake)
  (stored1 : list (string * json)) (d : SystemValidation.Decision.t) (st4 : State) :
  growsQuietly st4 (fst (finish c clk payload i stored1 d st4)).
Proof.
  unfold finish. cbv zeta.
  match goal with |- context [if ?b then _ else _] => destruct b end.
  - cbn [fst].
    eapply growsQuietly_trans; [apply growsQuietly_appendEvent|].
    eapply growsQuietly_trans; [apply growsQuietly_emit|].
    now apply growsQuietly_record.
  - destruct (queueItemOf c clk payload i d) as [queueItem|m]; cbn [fst].
    + eapply growsQuietly_trans; [apply growsQuietly_appendEvent|].
      eapply growsQuietly_trans; [apply growsQuietly_emit|].
      eapply growsQuietly_trans; [apply growsQuietly_enqueue|].
      now apply growsQuietly_record.
    + eapply growsQuietly_trans; [apply growsQuietly_appendEvent|].
      apply growsQuietly_emit.
Qed.

(** After the call of the trend analysis, whether it returns or throws. *)
Lemma validationStep_trace (groupId : string) (deviceId : json)
  (groupThreshold : number) (stored : list (string * json)) (st : State) :
  growsQuietly (record (SystemValidate groupId deviceId) st)
    (snd (validationStep validate groupId deviceId groupThreshold stored st)).
Proof.
  unfold validationStep. destruct (validate (events st) groupId deviceId) as [d|m]; simpl.
  - eapply growsQuietly_trans; [apply growsQuietly_appendEvent|].
    eapply growsQuietly_trans; [apply growsQuietly_emit|].
    apply growsQuietly_applyDecision.
  - apply growsQuietly_appendEvent.
Qed.

(** When step 4 throws, the handler has done nothing yet and answers with
    status 500. *)
Lemma postData_unreadable (clk : Clock) (req : Request) (st : State) (m : string) :
  verifyApiKey cfg (credential req) = true ->
  intake cfg st (payloadOf req) = Throw m ->
  postData cfg c validate clk req st
  = record (Respond 500 (JObj [ ("error"%string, JStr "server error");
                                ("details"%string, JStr m) ])) st.
Proof.
  intros Hv Hi. unfold postData. fold (credential req). rewrite Hv.
  cbn [negb]. unfold handlerBody. fold (payloadOf req). cbv zeta.
  rewrite Hi. reflexivity.
Qed.

(** The effects of an authenticated request for which step 4 goes
    through: the record of stage [received] is appended and published,
    the telemetry is published, the trend analysis is called, and no
    second call follows. *)
Lemma postData_trace (clk : Clock) (req : Request) (st : State) (i : Intake) :
  verifyApiKey cfg (credential req) = true ->
  intake cfg st (payloadOf req) = Ret i ->
  exists rest,
    trace (postData cfg c validate clk req st)
    = trace st
      ++ [ AppendEvent (receivedRecord c clk req i);
           Emit "event_update" (receivedRecord c clk req i);
           Emit "telemetry" (telemetryPayload c clk (payloadOf req) i);
           SystemValidate (inGroupId i) (inDeviceId i) ]
      ++ rest
    /\ noValidateCall rest = true.
Proof.
  intros Hv Hi. unfold postData. fold (credential req). rewrite Hv.
  cbn [negb]. unfold handlerBody. fold (payloadOf req). cbv zeta.
  rewrite Hi.
  match goal with
  | |- context [finish c clk ?p ?j (fst (fst ?v)) (snd (fst ?v)) (snd ?v)] =>
      destruct (growsQuietly_finish clk p j (fst (fst v)) (snd (fst v)) (snd v))
        as [m2 [H2 Q2]];
      match v with
      | validationStep _ ?g ?dv ?T ?sto ?s3 =>
          destruct (validationStep_trace g dv T sto s3) as [m1 [H1 Q1]]
      end;
      destruct (snd (finish c clk p j (fst (fst v)) (snd (fst v)) (snd v)))
        as [u|m]
  end.
  - exists (m1 ++ m2). split.
    + rewrite H2, H1. simpl. unfold receivedRecord.
      rewrite <- !app_assoc. reflexivity.
    + now rewrite noValidateCall_app, Q1, Q2.
  - exists (m1 ++ m2
            ++ [Respond 500 (JObj [ ("error"%string, JStr "server error");
                                   ("details"%string, JStr m) ])]).
    split.
    + cbn [record trace]. rewrite H2, H1. simpl. unfold receivedRecord.
      rewrite <- !app_assoc. reflexivity.
    + rewrite !noValidateCall_app, Q1, Q2. reflexivity.
Qed.

(** Step 4 from its parts. *)
Lemma intake_parts (st : State) (payload : json) (g : string) (a b T : number) :
  groupIdOf payload = Ret g ->
  trustOf payload "trustA" = Ret a ->
  trustOf payload "trustB" = Ret b ->
  computeGroupThreshold cfg st g = Ret T ->
  intake cfg st payload
  = Ret (mkIntake g (orNull (or_ (get payload "deviceId") (Some (JStr "unknown"))))
           a b T (localFlaggedOf a b T)).
Proof.
  intros Hg Ha Hb HT. unfold intake. rewrite Hg. cbn [bind].
  rewrite Ha. cbn [bind]. rewrite Hb. cbn [bind]. rewrite HT. reflexivity.
Qed.

(** What step 4 computed, from its result. *)
Lemma intake_inv (st : State) (payload : json) (i : Intake) :
  intake cfg st payload = Ret i ->
  groupIdOf payload = Ret (inGroupId i)
  /\ trustOf payload "trustA" = Ret (inTrustA i)
  /\ trustOf payload "trustB" = Ret (inTrustB i)
  /\ computeGroupThreshold cfg st (inGroupId i) = Ret (inThreshold i)
  /\ inLocalFlagged i
     = localFlaggedOf (inTrustA i) (inTrustB i) (inThreshold i).
Proof.
  unfold intake.
  destruct (groupIdOf payload) as [g|m]; [|discriminate]. cbn [bind].
  destruct (trustOf payload "trustA") as [a|m]; [|discriminate]. cbn [bind].
  destruct (trustOf payload "trustB") as [b|m]; [|discriminate]. cbn [bind].
  destruct (computeGroupThreshold cfg st g) as [T|m] eqn:HT; [|discriminate].
  cbn [bind]. intros H. injection H as <-. cbn. auto.
Qed.

(** With scores that convert, step 4 throws only in the conversion of the
    group or of its threshold. *)
Lemma intake_throws (st : State) (payload : json) (a b : number) (m : string) :
  trustOf payload "trustA" = Ret a ->
  trustOf payload "trustB" = Ret b ->
  intake cfg st payload = Throw m ->
  groupIdOf payload = Throw m
  \/ exists g, groupIdOf payload = Ret g
               /\ computeGroupThreshold cfg st g = Throw m.
Proof.
  intros Ha Hb. unfold intake.
  destruct (groupIdOf payload) as [g|m']; cbn [bind].
  - rewrite Ha, Hb. cbn [bind].
    destruct (computeGroupThreshold cfg st g) as [T|m'] eqn:HT; cbn [bind].
    + discriminate.
    + intros H. injection H as <-. right. exists g. auto.
  - intros H. injection H as <-. now left.
Qed.

Lemma received_localFlagged (clk : Clock) (req : Request) (i : Intake) :
  get (receivedRecord c clk req i) "localFlagged" = Some (JBool (inLocalFlagged i)).
Proof. reflexivity. Qed.

Lemma received_stage (clk : Clock) (req : Request) (i : Intake) :
  stageOf (receivedRecord c clk req i) = Some (JStr "received").
Proof. reflexivity. Qed.

Lemma received_appended (clk : Clock) (req : Request) (st : State) (i : Intake) :
  verifyApiKey cfg (credential req) = true ->
  intake cfg st (payloadOf req) = Ret i ->
  In (AppendEvent (receivedRecord c clk req i))
     (trace (postData cfg c validate clk req st)).
Proof.
  intros Hv Hi. destruct (postData_trace clk req st i Hv Hi) as [rest [Ht _]].
  rewrite Ht. apply in_or_app. right. left. reflexivity.
Qed.

(** C8. For every submission with the configured key, whatever the trend
    analysis then returns or throws: wherever the effects of the gateway
    for the submission hold a call of [systemValidate], the effects
    [before] it hold the append of the record of stage [received] and its
    publication as [event_update], and that call is the only one; and the
    call is made whenever step 4 of the handler goes through. *)
Theorem received_record_precedes_analysis
  (clk : Clock) (s : Submission) (st : State) :
  verifyApiKey cfg (sentCredential s) = true ->
  let st' := receive cfg c validate clk s st in
  (forall before g dv after,
      trace st' = trace st ++ before ++ SystemValidate g dv :: after ->
      exists b i,
        parse s = ParsedBody b
        /\ intake cfg st (payloadOf (mkRequest (sentHeaders s) b)) = Ret i
        /\ g = inGroupId i /\ dv = inDeviceId i
        /\ stageOf (receivedRecord c clk (mkRequest (sentHeaders s) b) i)
           = Some (JStr "received")
        /\ In (AppendEvent (receivedRecord c clk (mkRequest (sentHeaders s) b) i))
              before
        /\ In (Emit "event_update"
                 (receivedRecord c clk (mkRequest (sentHeaders s) b) i)) before
        /\ noValidateCall before = true
        /\ noValidateCall after = true)
  /\ (forall b i,
        parse s = ParsedBody b ->
        intake cfg st (payloadOf (mkRequest (sentHeaders s) b)) = Ret i ->
        exists before after,
          trace st'
          = trace st ++ before
            ++ SystemValidate (inGroupId i) (inDeviceId i) :: after).
Proof.
  intros Hv st'. subst st'. unfold receive. split.
  - intros before g dv after Ht.
    destruct (parse s) as [status page|b].
    + exfalso. cbn [record trace] in Ht. apply app_inv_head in Ht.
      revert Ht. now apply quiet_trace_has_no_call.
    + set (req := mkRequest (sentHeaders s) b) in *.
      destruct (intake cfg st (payloadOf req)) as [i|m] eqn:Hi.
      * destruct (postData_trace clk req st i Hv Hi) as [rest [Hp Hq]].
        rewrite Hp in Ht. apply app_inv_head in Ht.
        change ([ AppendEvent (receivedRecord c clk req i);
                  Emit "event_update" (receivedRecord c clk req i);
                  Emit "telemetry" (telemetryPayload c clk (payloadOf req) i);
                  SystemValidate (inGroupId i) (inDeviceId i) ] ++ rest)
          with ([ AppendEvent (receivedRecord c clk req i);
                  Emit "event_update" (receivedRecord c clk req i);
                  Emit "telemetry" (telemetryPayload c clk (payloadOf req) i) ]
                ++ SystemValidate (inGroupId i) (inDeviceId i) :: rest) in Ht.
        apply validate_call_split in Ht; [|reflexivity|exact Hq].
        destruct Ht as [-> [-> [-> ->]]].
        exists b, i. split; [reflexivity|]. split; [exact Hi|].
        split; [reflexivity|]. split; [reflexivity|].
        split; [reflexivity|]. simpl. auto 6.
      * exfalso. rewrite (postData_unreadable clk req st m Hv Hi) in Ht.
        cbn [record trace] in Ht. apply app_inv_head in Ht.
        revert Ht. now apply quiet_trace_has_no_call.
  - intros b i Hb Hi. rewrite Hb.
    destruct (postData_trace clk (mkRequest (sentHeaders s) b) st i Hv Hi)
      as [rest [Hp _]].
    eexists [_; _; _]. exists rest. exact Hp.
Qed.

(** C6. For every request with the configured key whose scores read as
    the numbers [a] and [b].  Whenever step 4 of the handler goes through,
    with the threshold [T] of the group of the request, it computes the
    local flag as [(a < T) || (b < T)], and the record of stage [received]
    that the handler appends carries that flag: for a threshold that is a
    number the flag is set exactly when [a < T] or [b < T], for a
    threshold that is not a number it is not set.  Step 4 goes through
    whenever the group prints and its threshold converts; otherwise no
    flag is computed and the handler only answers, with status 500. *)
Theorem local_flag_is_threshold_test
  (clk : Clock) (req : Request) (st : State) (a b : Q) :
  verifyApiKey cfg (credential req) = true ->
  trustOf (payloadOf req) "trustA" = Ret (Fin a) ->
  trustOf (payloadOf req) "trustB" = Ret (Fin b) ->
  (forall i,
      intake cfg st (payloadOf req) = Ret i ->
      computeGroupThreshold cfg st (inGroupId i) = Ret (inThreshold i)
      /\ inLocalFlagged i
         = (lt (Fin a) (inThreshold i) || lt (Fin b) (inThreshold i))
      /\ stageOf (receivedRecord c clk req i) = Some (JStr "received")
      /\ get (receivedRecord c clk req i) "localFlagged"
         = Some (JBool (lt (Fin a) (inThreshold i) || lt (Fin b) (inThreshold i)))
      /\ In (AppendEvent (receivedRecord c clk req i))
            (trace (postData cfg c validate clk req st))
      /\ (forall T, inThreshold i = Fin T ->
            (inLocalFlagged i = true <-> (a < T)%Q \/ (b < T)%Q))
      /\ (inThreshold i = NaN -> inLocalFlagged i = false))
  /\ (forall g T,
        groupIdOf (payloadOf req) = Ret g ->
        computeGroupThreshold cfg st g = Ret T ->
        exists i,
          intake cfg st (payloadOf req) = Ret i
          /\ inGroupId i = g /\ inThreshold i = T)
  /\ (forall m,
        intake cfg st (payloadOf req) = Throw m ->
        (groupIdOf (payloadOf req) = Throw m
         \/ exists g, groupIdOf (payloadOf req) = Ret g
                      /\ computeGroupThreshold cfg st g = Throw m)
        /\ postData cfg c validate clk req st
           = record (Respond 500 (JObj [ ("error"%string, JStr "server error");
                                         ("details"%string, JStr m) ])) st).
Proof.
  intros Hv Ha Hb. split; [|split].
  - intros i Hi.
    destruct (intake_inv st (payloadOf req) i Hi) as (Hg & HA & HB & HT & Hf).
    rewrite Ha in HA. rewrite Hb in HB.
    injection HA as HA. injection HB as HB.
    rewrite <- HA, <- HB in Hf. unfold localFlaggedOf in Hf.
    split; [exact HT|]. split; [exact Hf|]. split; [reflexivity|].
    split; [rewrite received_localFlagged, Hf; reflexivity|].
    split; [exact (received_appended clk req st i Hv Hi)|].
    split.
    + intros T HTn. rewrite Hf, HTn. cbn [lt].
      rewrite orb_true_iff, !Qltb_iff. reflexivity.
    + intros HTn. rewrite Hf, HTn. reflexivity.
  - intros g T Hg HT.
    pose proof (intake_parts st (payloadOf req) g (Fin a) (Fin b) T Hg Ha Hb HT) as Hi.
    eexists. split; [exact Hi|]. split; reflexivity.
  - intros m Hm. split.
    + exact (intake_throws st (payloadOf req) (Fin a) (Fin b) m Ha Hb Hm).
    + exact (postData_unreadable clk req st m Hv Hm).
Qed.

(** C10. For every request with the configured key: a score that is
    present and for which [Number] yields NaN is read as NaN and compares
    false with any threshold.  With both scores such, whenever step 4 goes
    through it computes the local flag false and the record of stage
    [received] is appended with [localFlagged] false; step 4 goes through
    whenever the group prints and its threshold converts, and otherwise no
    flag is computed and the handler only answers, with status 500.  An
    absent score is read as 100 and compares false with any threshold of
    at most 100; with both scores absent and such a threshold the record
    is appended with [localFlagged] false. *)
Theorem non_numeric_and_absent_scores_do_not_flag
  (clk : Clock) (req : Request) (st : State) :
  verifyApiKey cfg (credential req) = true ->
  let payload := payloadOf req in
  (forall k v T,
      get payload k = Some v -> ToNumber (Some v) = Ret NaN ->
      trustOf payload k = Ret NaN /\ lt NaN T = false)
  /\ (forall vA vB,
        get payload "trustA" = Some vA -> ToNumber (Some vA) = Ret NaN ->
        get payload "trustB" = Some vB -> ToNumber (Some vB) = Ret NaN ->
        (forall i,
            intake cfg st payload = Ret i ->
            inLocalFlagged i = false
            /\ get (receivedRecord c clk req i) "localFlagged" = Some (JBool false)
            /\ In (AppendEvent (receivedRecord c clk req i))
                  (trace (postData cfg c validate clk req st)))
        /\ (forall g T,
              groupIdOf payload = Ret g -> computeGroupThreshold cfg st g = Ret T ->
              exists i, intake cfg st payload = Ret i)
        /\ (forall m,
              intake cfg st payload = Throw m ->
              postData cfg c validate clk req st
              = record (Respond 500 (JObj [ ("error"%string, JStr "server error");
                                            ("details"%string, JStr m) ])) st))
  /\ (forall k T,
        get payload k = None ->
        trustOf payload k = Ret (Fin 100)
        /\ ((T <= 100)%Q -> lt (Fin 100) (Fin T) = false))
  /\ (get payload "trustA" = None -> get payload "trustB" = None ->
      (forall i T,
          intake cfg st payload = Ret i ->
          inThreshold i = Fin T -> (T <= 100)%Q ->
          inLocalFlagged i = false
          /\ get (receivedRecord c clk req i) "localFlagged" = Some (JBool false)
          /\ In (AppendEvent (receivedRecord c clk req i))
                (trace (postData cfg c validate clk req st)))
      /\ (forall g T,
            groupIdOf payload = Ret g -> computeGroupThreshold cfg st g = Ret T ->
            exists i, intake cfg st payload = Ret i /\ inThreshold i = T)).
Proof.
  intros Hv payload.
  assert (Habsent : forall T, (T <= 100)%Q -> lt (Fin 100) (Fin T) = false).
  { intros T HT. simpl. unfold Qltb. apply Qle_bool_iff in HT. now rewrite HT. }
  split; [|split; [|split]].
  - intros k v T Hk Hn. unfold trustOf. rewrite Hk, Hn. split; reflexivity.
  - intros vA vB HA HnA HB HnB.
    assert (Ha : trustOf payload "trustA" = Ret NaN)
      by (unfold trustOf; now rewrite HA, HnA).
    assert (Hb : trustOf payload "trustB" = Ret NaN)
      by (unfold trustOf; now rewrite HB, HnB).
    split; [|split].
    + intros i Hi.
      destruct (intake_inv st payload i Hi) as (_ & IA & IB & _ & Hf).
      rewrite Ha in IA. rewrite Hb in IB.
      injection IA as IA. injection IB as IB.
      rewrite <- IA, <- IB in Hf. cbn in Hf.
      split; [exact Hf|]. split.
      * rewrite received_localFlagged, Hf. reflexivity.
      * exact (received_appended clk req st i Hv Hi).
    + intros g T Hg HT. eexists.
      exact (intake_parts st payload g NaN NaN T Hg Ha Hb HT).
    + intros m Hm. exact (postData_unreadable clk req st m Hv Hm).
  - intros k T Hk. unfold trustOf. rewrite Hk. split; [reflexivity|].
    apply Habsent.
  - intros HA HB.
    assert (Ha : trustOf payload "trustA" = Ret (Fin 100))
      by (unfold trustOf; now rewrite HA).
    assert (Hb : trustOf payload "trustB" = Ret (Fin 100))
      by (unfold trustOf; now rewrite HB).
    split.
    + intros i T Hi HT Hle.
      destruct (intake_inv st payload i Hi) as (_ & IA & IB & _ & Hf).
      rewrite Ha in IA. rewrite Hb in IB.
      injection IA as IA. injection IB as IB.
      rewrite <- IA, <- IB, HT in Hf. unfold localFlaggedOf in Hf.
      rewrite (Habsent T Hle) in Hf. cbn in Hf.
      split; [exact Hf|]. split.
      * rewrite received_localFlagged, Hf. reflexivity.
      * exact (received_appended clk req st i Hv Hi).
    + intros g T Hg HT. eexists. split.
      * exact (intake_parts st payload g (Fin 100) (Fin 100) T Hg Ha Hb HT).
      * reflexivity.
Qed.

End Handler.

(** A body whose group cannot be printed: [String(payload.groupId)] throws
    in step 4, the handler answers with status 500 and leaves no record. *)
Remark unprintable_group_is_answered_500 :
  trace (@postData sampleRuntime sampleConfig disabledChain noHistory sampleClock
           (requestWith goodKey unprintableGroup) emptyState)
  = [Respond 500
       (JObj [ ("error"%string, JStr "server error");
               ("details"%string,
                JStr "Cannot convert object to primitive value") ])]
  /\ events (@postData sampleRuntime sampleConfig disabledChain noHistory
               sampleClock (requestWith goodKey unprintableGroup) emptyState)
     = [].
Proof. split; reflexivity. Qed.

(** C7 at a submission without credential and at one with a wrong key. *)
Lemma bad_credential_is_rejected_without_side_effects_witness :
  trace (@receive sampleRuntime sampleConfig disabledChain noHistory sampleClock
           (submissionWith None lowTrustPayload) emptyState)
  = [Respond 401 (JObj [ ("error"%string, JStr "invalid api key") ])]
  /\ sameData emptyState
       (@receive sampleRuntime sampleConfig disabledChain noHistory sampleClock
          (submissionWith (Some "guess"%string) lowTrustPayload) emptyState).
Proof.
  split.
  - apply (proj1 (proj2 (@bad_credential_is_rejected_without_side_effects
                           sampleRuntime sampleConfig disabledChain noHistory
                           sampleClock (submissionWith None lowTrustPayload)
                           emptyState (or_introl eq_refl)))
             (Some lowTrustPayload)).
    reflexivity.
  - apply (@bad_credential_is_rejected_without_side_effects sampleRuntime
             sampleConfig disabledChain noHistory sampleClock
             (submissionWith (Some "guess"%string) lowTrustPayload) emptyState).
    right. discriminate.
Defined.

(** C7 (the claim as it was stated does not hold). A submission without
    credential whose body is not JSON text is answered by [express.json()]
    with status 400, not with the status 401 of the authentication
    failure. *)
Theorem unparsed_body_is_answered_before_the_key_check :
  sentCredential (garbled None) = None
  /\ trace (@receive sampleRuntime sampleConfig disabledChain noHistory sampleClock
              (garbled None) emptyState)
     = [Respond 400 (JStr "SyntaxError: Unexpected token in JSON")]
  /\ ~ answersOnly emptyState
         (@receive sampleRuntime sampleConfig disabledChain noHistory sampleClock
            (garbled None) emptyState) 401.
Proof.
  split; [reflexivity|]. split; [reflexivity|].
  intros [body H]. discriminate H.
Qed.

(** C8 at the low-trust submission of the end-to-end scenario. *)
Lemma received_record_precedes_analysis_witness :
  exists before after,
    trace (@receive sampleRuntime sampleConfig disabledChain noHistory sampleClock
             (submissionWith goodKey lowTrustPayload) emptyState)
    = trace emptyState ++ before
      ++ SystemValidate "group-1" (JStr "unknown") :: after.
Proof.
  exact (proj2 (@received_record_precedes_analysis sampleRuntime sampleConfig
                  disabledChain noHistory sampleClock
                  (submissionWith goodKey lowTrustPayload) emptyState eq_refl)
           (Some lowTrustPayload)
           (mkIntake "group-1" (JStr "unknown") (Fin 55) (Fin 90) (Fin 60) true)
           eq_refl eq_refl).
Defined.

(** C6 at threshold 60: scores 59 and 100 flag, scores 60 and 100 do not. *)
Lemma local_flag_is_threshold_test_witness :
  (exists i,
      @intake sampleRuntime sampleConfig emptyState
        (payloadOf (requestWith goodKey (scores (JNum (Fin 59)) (JNum (Fin 100)))))
      = Ret i
      /\ inThreshold i = Fin 60 /\ inLocalFlagged i = true)
  /\ (exists i,
        @intake sampleRuntime sampleConfig emptyState
          (payloadOf (requestWith goodKey (scores (JNum (Fin 60)) (JNum (Fin 100)))))
        = Ret i
        /\ inThreshold i = Fin 60 /\ inLocalFlagged i = false).
Proof.
  split.
  - destruct (@local_flag_is_threshold_test sampleRuntime sampleConfig
                disabledChain noHistory sampleClock
                (requestWith goodKey (scores (JNum (Fin 59)) (JNum (Fin 100))))
                emptyState 59 100 eq_refl eq_refl eq_refl)
      as (Hflag & Hgoes & _).
    destruct (Hgoes "group-1"%string (Fin 60) eq_refl eq_refl)
      as (i & Hi & _ & HT).
    exists i. split; [exact Hi|]. split; [exact HT|].
    destruct (Hflag i Hi) as (_ & Hf & _).
    rewrite Hf, HT. reflexivity.
  - destruct (@local_flag_is_threshold_test sampleRuntime sampleConfig
                disabledChain noHistory sampleClock
                (requestWith goodKey (scores (JNum (Fin 60)) (JNum (Fin 100))))
                emptyState 60 100 eq_refl eq_refl eq_refl)
      as (Hflag & Hgoes & _).
    destruct (Hgoes "group-1"%string (Fin 60) eq_refl eq_refl)
      as (i & Hi & _ & HT).
    exists i. split; [exact Hi|]. split; [exact HT|].
    destruct (Hflag i Hi) as (_ & Hf & _).
    rewrite Hf, HT. reflexivity.
Defined.

(** C10 at a request whose scores are the text [n/a], and at one without
    scores. *)
Lemma non_numeric_and_absent_scores_do_not_flag_witness :
  (exists i,
      @intake sampleRuntime sampleConfig emptyState
        (payloadOf (requestWith goodKey (scores (JStr "n/a") (JStr "n/a")))) = Ret i
      /\ inLocalFlagged i = false)
  /\ (exists i,
        @intake sampleRuntime sampleConfig emptyState
          (payloadOf (requestWith goodKey (JObj []))) = Ret i
        /\ inLocalFlagged i = false).
Proof.
  split.
  - destruct (proj1 (proj2 (@non_numeric_and_absent_scores_do_not_flag
                              sampleRuntime sampleConfig disabledChain noHistory
                              sampleClock
                              (requestWith goodKey (scores (JStr "n/a") (JStr "n/a")))
                              emptyState eq_refl))
                (JStr "n/a") (JStr "n/a") eq_refl eq_refl eq_refl eq_refl)
      as (Hflag & Hgoes & _).
    destruct (Hgoes "group-1"%string (Fin 60) eq_refl eq_refl) as (i & Hi).
    exists i. split; [exact Hi|]. exact (proj1 (Hflag i Hi)).
  - destruct (proj2 (proj2 (proj2 (@non_numeric_and_absent_scores_do_not_flag
                                     sampleRuntime sampleConfig disabledChain
                                     noHistory sampleClock
                                     (requestWith goodKey (JObj []))
                                     emptyState eq_refl)))
                eq_refl eq_refl)
      as (Hflag & Hgoes).
    destruct (Hgoes "group-1"%string (Fin 60) eq_refl eq_refl) as (i & Hi & HT).
    exists i. split; [exact Hi|].
    refine (proj1 (Hflag i 60 Hi HT _)). discriminate.
Defined.

End HandlerFacts.

(* ===================================================================== *)
(** * Further properties                                                   *)
(* ===================================================================== *)

(** ** The merged series: window, order, provenance *)

Module SeriesMore.
Import JS SystemValidation SeriesSpec TrendSpec SeriesFacts.

Lemma tsLe_trans (a b c : TrendPoint) : tsLe a b -> tsLe b c -> tsLe a c.
Proof. unfold tsLe. apply Qle_trans. Qed.

Lemma insertByTs_ascending (x : TrendPoint) (l : list TrendPoint) :
  ascending l -> ascending (insertByTs x l).
Proof.
  unfold ascending. induction 1 as [|y r Hr IH Hy]; simpl.
  - repeat constructor.
  - destruct (Qle_bool (orZero (ts x)) (orZero (ts y))) eqn:E.
    + apply Qle_bool_iff in E. constructor; [now constructor|].
      constructor; [exact E|].
      eapply Forall_impl; [|exact Hy]. intros z Hz. eapply tsLe_trans; eauto.
    + constructor; [exact IH|].
      assert (Hyx : tsLe y x).
      { unfold tsLe. apply Qlt_le_weak, Qnot_le_lt. intros Hle.
        apply Qle_bool_iff in Hle. congruence. }
      apply Forall_forall. intros z Hz. apply In_insertByTs in Hz as [->|Hz]; auto.
      rewrite Forall_forall in Hy. auto.
Qed.

Lemma sortByTs_ascending (l : list TrendPoint) : ascending (sortByTs l).
Proof.
  induction l as [|x r IH]; simpl.
  - constructor.
  - now apply insertByTs_ascending.
Qed.

Lemma ascending_app_inv (l1 l2 : list TrendPoint) :
  ascending (l1 ++ l2) ->
  ascending l1 /\ ascending l2
  /\ forall a b, In a l1 -> In b l2 -> tsLe a b.
Proof.
  unfold ascending. induction l1 as [|x r IH]; simpl; intros H.
  - repeat split; [constructor | exact H | contradiction].
  - inversion H as [|? ? Hs Hx]; subst.
    destruct (IH Hs) as (H1 & H2 & H3).
    rewrite Forall_forall in Hx. repeat split; auto.
    + constructor; [exact H1|]. apply Forall_forall. intros z Hz.
      apply Hx, in_or_app. now left.
    + intros a b [<-|Ha] Hb; [apply Hx, in_or_app; now right | now apply H3].
Qed.

Lemma ascending_app (l1 l2 : list TrendPoint) :
  ascending l1 -> ascending l2 ->
  (forall a b, In a l1 -> In b l2 -> tsLe a b) ->
  ascending (l1 ++ l2).
Proof.
  unfold ascending. induction 1 as [|x r Hr IH Hx]; simpl; intros H2 H12.
  - exact H2.
  - constructor; [apply IH; auto|].
    apply Forall_forall. intros z Hz. apply in_app_or in Hz as [Hz|Hz].
    + rewrite Forall_forall in Hx. auto.
    + apply H12; simpl; auto.
Qed.

(** Points with equal timestamps under [===] sort alike. *)
Lemma sameGroupTs_orZero (d x : TrendPoint) :
  sameGroupTs d x = true -> (orZero (ts d) == orZero (ts x))%Q.
Proof.
  intros H. apply sameGroupTs_key in H. unfold keyEqb in H.
  apply andb_true_iff in H as [_ H]. now apply Qeq_bool_iff.
Qed.

Lemma ascending_replace (l1 l2 : list TrendPoint) (old item : TrendPoint) :
  (orZero (ts old) == orZero (ts item))%Q ->
  ascending (l1 ++ old :: l2) -> ascending (l1 ++ item :: l2).
Proof.
  intros Heq H. apply ascending_app_inv in H as (H1 & H2 & H12).
  inversion H2 as [|? ? Hs Hold]; subst.
  apply ascending_app; auto.
  - constructor; [exact Hs|]. eapply Forall_impl; [|exact Hold].
    intros z Hz. unfold tsLe in *. now rewrite <- Heq.
  - intros a b Ha [<-|Hb].
    + specialize (H12 a old Ha (or_introl eq_refl)). unfold tsLe in *.
      now rewrite <- Heq.
    + apply H12; simpl; auto.
Qed.

(** The dedup loop keeps [deduped] in the order of the sorted input. *)
Lemma dedup_keeps_order (rest : list TrendPoint) :
  forall processed st,
    ascending (processed ++ rest) -> Inv processed st -> ascending (fst st) ->
    ascending (fst (fold_left dedupStep rest st)).
Proof.
  induction rest as [|item rest IH]; intros processed st Hsorted HI Hasc; simpl.
  - exact Hasc.
  - assert (Hsorted' : ascending ((processed ++ [item]) ++ rest))
      by (rewrite <- app_assoc; exact Hsorted).
    apply (IH (processed ++ [item])); auto.
    + now apply Inv_step.
    + destruct st as [deduped seen]. unfold dedupStep. simpl in *.
      destruct (has seen (keyOf item)); simpl.
      * destruct (String.eqb (source item) "local"); [|exact Hasc].
        destruct (findIndex (fun d => sameGroupTs d item) deduped) as [idx|] eqn:Hidx;
          [|exact Hasc].
        destruct (findIndex_Some _ _ _ Hidx) as (l1 & old & l2 & Hl & Hold & _ & Hrep).
        rewrite Hrep. subst deduped.
        eapply ascending_replace; [apply sameGroupTs_orZero; exact Hold | exact Hasc].
      * apply ascending_app; auto.
        -- repeat constructor.
        -- intros a b Ha [<-|[]].
           apply ascending_app_inv in Hsorted as (_ & _ & H12).
           apply H12; [|now left].
           now apply (inv_from _ _ HI).
Qed.

Lemma dedupe_ascending (merged : list TrendPoint) :
  ascending merged -> ascending (dedupe merged).
Proof.
  intros H. unfold dedupe.
  apply (dedup_keeps_order merged [] ([], [])); simpl; auto.
  - apply Inv_init.
  - constructor.
Qed.

Lemma skipn_ascending (n : nat) (l : list TrendPoint) :
  ascending l -> ascending (skipn n l).
Proof.
  intros H. rewrite <- (firstn_skipn n l) in H.
  now apply ascending_app_inv in H as (_ & H2 & _).
Qed.

(** X1. The series is the tail of the deduplicated list: at most
    [WINDOW_EVENTS] points, exactly that many when more are available, and
    the points left out are the oldest ones. *)
Theorem series_is_the_most_recent_window
  (local : list TrendPoint) (chain : ChainRead) :
  let series := buildTrustSeries local chain in
  (List.length series <= WINDOW_EVENTS)%nat
  /\ List.length series = Nat.min WINDOW_EVENTS (List.length (dedupedOf local chain))
  /\ exists older,
       dedupedOf local chain = older ++ series
       /\ forall a b, In a older -> In b series -> tsLe a b.
Proof.
  intros series.
  assert (Hasc : ascending (dedupedOf local chain))
    by (apply dedupe_ascending, sortByTs_ascending).
  unfold series, buildTrustSeries. fold (dedupedOf local chain).
  unfold lastWindow.
  destruct (List.length (dedupedOf local chain) <=? WINDOW_EVENTS)%nat eqn:E.
  - apply Nat.leb_le in E. split; [exact E|]. split; [lia|].
    exists []. split; [reflexivity | contradiction].
  - apply Nat.leb_gt in E. rewrite length_skipn. split; [lia|]. split; [lia|].
    exists (firstn (List.length (dedupedOf local chain) - WINDOW_EVENTS)
              (dedupedOf local chain)).
    split; [now rewrite firstn_skipn|].
    rewrite <- (firstn_skipn (List.length (dedupedOf local chain) - WINDOW_EVENTS)
                  (dedupedOf local chain)) in Hasc.
    now apply ascending_app_inv in Hasc as (_ & _ & H).
Qed.

(** X2. The series is in ascending order of [ts || 0]: newest last. *)
Theorem series_is_ascending (local : list TrendPoint) (chain : ChainRead) :
  ascending (buildTrustSeries local chain).
Proof.
  unfold buildTrustSeries.
  destruct (lastWindow_skipn (dedupe (sortByTs (onchainPoints chain ++ local))))
    as [n ->].
  apply skipn_ascending, dedupe_ascending, sortByTs_ascending.
Qed.

(** X3. Every point of the series is an input point, and before the
    window every input point is represented: the deduplicated list holds a
    point with its key.  When the read of the ledger throws, the series is
    the one built from the local points alone. *)
Theorem series_comes_from_the_inputs
  (local : list TrendPoint) (chain : ChainRead) :
  (forall s, In s (buildTrustSeries local chain) ->
             In s (onchainPoints chain) \/ In s local)
  /\ (forall x, In x (onchainPoints chain) \/ In x local ->
                exists d, In d (dedupedOf local chain)
                          /\ keyEqb (keyOf x) (keyOf d) = true)
  /\ (forall m, buildTrustSeries local (Some (Throw m))
                = buildTrustSeries local None).
Proof.
  pose proof (Inv_dedupe (sortByTs (onchainPoints chain ++ local))) as HI.
  split; [|split].
  - intros s Hs. unfold buildTrustSeries in Hs. apply In_lastWindow in Hs.
    apply (inv_from _ _ HI), In_sortByTs, in_app_or in Hs. exact Hs.
  - intros x Hx.
    assert (Hin : In x (sortByTs (onchainPoints chain ++ local)))
      by (apply In_sortByTs, in_or_app; exact Hx).
    pose proof (inv_processed _ _ HI x Hin) as Hseen.
    rewrite (inv_seen _ _ HI) in Hseen.
    apply existsb_exists in Hseen as [d [Hd Hk]]. exists d. split; auto.
  - reflexivity.
Qed.

End SeriesMore.

(** ** The statistics of [analyzeSeries] *)

Module AnalysisFacts.
Import JS SystemValidation TrendSpec.

Lemma indexQ_S (n : nat) : (indexQ (S n) == indexQ n + 1)%Q.
Proof.
  unfold indexQ. rewrite Nat2Z.inj_succ, <- Z.add_1_r, inject_Z_plus. reflexivity.
Qed.

Lemma indexQ_nonneg (n : nat) : (0 <= indexQ n)%Q.
Proof. unfold indexQ, Qle. simpl. lia. Qed.

Lemma indexQ_le (n m : nat) : (n <= m)%nat -> (indexQ n <= indexQ m)%Q.
Proof. intros H. unfold indexQ, Qle. simpl. lia. Qed.

Lemma indexQ_pos (n : nat) : (0 < n)%nat -> (0 < indexQ n)%Q.
Proof. intros H. unfold indexQ, Qlt. simpl. lia. Qed.

(** A drop of [DROP_DELTA] is a fluctuation of [INSTABILITY_DELTA]. *)
Lemma drop_is_instability (delta : Q) :
  Qle_bool delta (- DROP_DELTA) = true ->
  Qle_bool INSTABILITY_DELTA (Qabs delta) = true.
Proof.
  intros H. apply Qle_bool_iff in H. apply Qle_bool_iff.
  apply Qle_trans with (- delta)%Q.
  - unfold INSTABILITY_DELTA, DROP_DELTA in *.
    apply Qle_trans with 10%Q; [discriminate|].
    apply Qopp_le_compat in H. now rewrite Qopp_involutive in H.
  - rewrite <- Qabs_opp. apply Qle_Qabs.
Qed.

(** The counters of the pair loop: a drop is counted as an instability, an
    instability only with a point, and a point only for a pair. *)
Lemma scanPair_counters (i : nat) (prevPt curPt : TrendPoint) (st : Scan) (pairs : nat) :
  (dropsSoFar st <= instabilityCount st)%nat ->
  (instabilityCount st <= List.length (points st))%nat ->
  (List.length (points st) <= pairs)%nat ->
  let st' := scanPair i prevPt curPt st in
  (dropsSoFar st' <= instabilityCount st')%nat
  /\ (instabilityCount st' <= List.length (points st'))%nat
  /\ (List.length (points st') <= S pairs)%nat.
Proof.
  intros H1 H2 H3. unfold scanPair.
  destruct (scoreOf prevPt) as [|prev]; [cbv zeta; lia|].
  destruct (scoreOf curPt) as [|c]; [cbv zeta; lia|].
  cbv zeta. cbn [dropsSoFar instabilityCount points]. rewrite length_app.
  cbn [List.length].
  destruct (Qle_bool (c - prev) (- DROP_DELTA)) eqn:Ed.
  - rewrite (drop_is_instability _ Ed). lia.
  - destruct (Qle_bool INSTABILITY_DELTA (Qabs (c - prev))); lia.
Qed.

Lemma scanFrom_counters (rest : list TrendPoint) :
  forall i prevPt st pairs,
    (dropsSoFar st <= instabilityCount st)%nat ->
    (instabilityCount st <= List.length (points st))%nat ->
    (List.length (points st) <= pairs)%nat ->
    let st' := scanFrom i prevPt rest st in
    (dropsSoFar st' <= instabilityCount st')%nat
    /\ (instabilityCount st' <= List.length (points st'))%nat
    /\ (List.length (points st') <= pairs + List.length rest)%nat.
Proof.
  induction rest as [|cur rest IH]; intros i prevPt st pairs H1 H2 H3; simpl.
  - repeat split; auto. lia.
  - replace (pairs + S (List.length rest))%nat
      with (S pairs + List.length rest)%nat by lia.
    destruct (scanPair_counters i prevPt cur st pairs H1 H2 H3) as (K1 & K2 & K3).
    now apply IH.
Qed.

(** X4. [analyzeSeries] reports [insufficient_samples] exactly for a
    series of fewer than two points, and [systemValidate] answers
    [insufficient_data] exactly then. *)
Theorem insufficient_data_iff_short_series
  (local : list TrendPoint) (chain : ChainRead) :
  let series := buildTrustSeries local chain in
  (analyzeSeries series = NotOk "insufficient_samples"
   <-> (List.length series < 2)%nat)
  /\ ((exists d, systemValidate local chain = Ret d
                 /\ Decision.action d = insufficient_data)
      <-> (List.length series < 2)%nat).
Proof.
  intros series.
  assert (Hshort : (List.length series < 2)%nat ->
                   analyzeSeries series = NotOk "insufficient_samples").
  { destruct series as [|p [|q r]]; simpl; intros H; try reflexivity. lia. }
  assert (Hlong : forall why, analyzeSeries series = NotOk why ->
                              (List.length series < 2)%nat).
  { destruct series as [|p [|q r]]; simpl; intros why H; try lia. discriminate. }
  split.
  - split; [apply Hlong | apply Hshort].
  - unfold systemValidate, decide. fold series.
    destruct (analyzeSeries series) as [why|a] eqn:Ha.
    + split; [intros _; eapply Hlong; eauto|].
      intros _. eexists. split; reflexivity.
    + split.
      * intros [d [Hd Hact]]. exfalso. revert Hd.
        destruct ((DROP_COUNT_THRESHOLD <=? drops a)%nat && (6 <=? samples a)%nat);
          [simpl; intros Hd; inversion Hd; subst d; simpl in Hact; discriminate Hact|].
        destruct (Qle_bool INSTABILITY_FRACTION (instabilityFrac a));
          [simpl; intros Hd; inversion Hd; subst d; simpl in Hact; discriminate Hact|].
        destruct (Qltb (slope a) (-2));
          simpl; intros Hd; inversion Hd; subst d; simpl in Hact; discriminate Hact.
      * intros Hlt. pose proof (Hshort Hlt) as Hn. congruence.
Qed.

Lemma analyzeSeries_bounds (series : list TrendPoint) (a : Stats) :
  analyzeSeries series = Ok a ->
  samples a = List.length series
  /\ (drops a < samples a)%nat
  /\ (0 <= instabilityFrac a)%Q /\ (instabilityFrac a <= 1)%Q
  /\ (indexQ (drops a) <= instabilityFrac a * indexQ (samples a - 1))%Q.
Proof.
  destruct series as [|first [|second rest]]; try discriminate.
  unfold analyzeSeries. intros H. injection H as <-.
  cbn [samples drops instabilityFrac List.length].
  pose proof (scanFrom_counters (second :: rest) 1 first (mkScan 0 0 []) 0
                (Nat.le_refl _) (Nat.le_refl _) (Nat.le_refl _)) as (H1 & H2 & H3).
  cbn [List.length Nat.add scanFrom] in H1, H2, H3. cbn [scanFrom].
  set (st := scanFrom 2 second rest (scanPair 1 first second (mkScan 0 0 []))) in *.
  change (match List.length (points st) with
          | O => 1%nat
          | S m' => S m'
          end) with (Nat.max 1 (List.length (points st))).
  set (sc := Nat.max 1 (List.length (points st))).
  assert (Hsc1 : (1 <= sc)%nat) by apply Nat.le_max_l.
  assert (Hsc2 : (List.length (points st) <= sc)%nat) by apply Nat.le_max_r.
  assert (Hsc3 : (sc <= S (List.length rest))%nat)
    by (unfold sc; apply Nat.max_lub; lia).
  assert (Hsc : (0 < indexQ sc)%Q) by (apply indexQ_pos; lia).
  set (frac := (indexQ (instabilityCount st) / indexQ sc)%Q).
  assert (Hfrac : (indexQ (instabilityCount st) == frac * indexQ sc)%Q).
  { unfold frac. field. intros Hz. rewrite Hz in Hsc. discriminate. }
  assert (Hpos : (0 <= frac)%Q).
  { apply Qle_shift_div_l; [exact Hsc|]. rewrite Qmult_0_l. apply indexQ_nonneg. }
  split; [reflexivity|]. split; [lia|]. split; [exact Hpos|]. split.
  - apply Qle_shift_div_r; [exact Hsc|]. rewrite Qmult_1_l. apply indexQ_le. lia.
  - apply Qle_trans with (indexQ (instabilityCount st)); [apply indexQ_le; lia|].
    rewrite Hfrac.
    rewrite (Qmult_comm frac (indexQ sc)), (Qmult_comm frac).
    apply Qmult_le_compat_r; [|exact Hpos].
    apply indexQ_le. lia.
Qed.



(** X6. Three or more drops in a history of fewer than six samples do not
    meet the first rule, but they always meet the second: the decision is
    [flag_for_review] with reason [high_instability]. *)
Theorem drops_in_a_short_history_are_flagged_for_review
  (local : list TrendPoint) (chain : ChainRead) (a : Stats) :
  analyzeSeries (buildTrustSeries local chain) = Ok a ->
  (DROP_COUNT_THRESHOLD <= drops a)%nat ->
  (samples a < 6)%nat ->
  systemValidate local chain
  = Ret (Decision.mk flag_for_review (Some "high_instability"%string)
           (Some (Ok a)) None None).
Proof.
  intros Ha Hd Hs.
  destruct (analyzeSeries_bounds _ _ Ha) as (_ & _ & Hpos & _ & Hfrac).
  unfold systemValidate, decide. rewrite Ha.
  assert (H6 : (6 <=? samples a)%nat = false) by (apply Nat.leb_gt; exact Hs).
  rewrite H6, andb_false_r.
  assert (Hrule2 : Qle_bool INSTABILITY_FRACTION (instabilityFrac a) = true).
  { apply Qle_bool_iff. unfold INSTABILITY_FRACTION, DROP_COUNT_THRESHOLD in *.
    assert (H3 : (3 <= indexQ (drops a))%Q)
      by (change 3%Q with (indexQ 3); apply indexQ_le; exact Hd).
    assert (H4 : (instabilityFrac a * indexQ (samples a - 1)
                  <= instabilityFrac a * 4)%Q).
    { rewrite !(Qmult_comm (instabilityFrac a)).
      apply Qmult_le_compat_r; [|exact Hpos].
      change 4%Q with (indexQ 4). apply indexQ_le. lia. }
    lra. }
  rewrite Hrule2. reflexivity.
Qed.

(** The theorem at a history of five points losing twenty per report. *)
Lemma drops_in_a_short_history_are_flagged_for_review_witness :
  systemValidate (ramp 5 1 100 (-20)) None
  = Ret (Decision.mk flag_for_review (Some "high_instability"%string)
           (Some (Ok (mkStats 4 (4 # 4) (-400 # 20) 5))) None None).
Proof.
  apply (drops_in_a_short_history_are_flagged_for_review (ramp 5 1 100 (-20)) None
           (mkStats 4 (4 # 4) (-400 # 20) 5)).
  - reflexivity.
  - unfold DROP_COUNT_THRESHOLD. simpl. lia.
  - simpl. lia.
Defined.

End AnalysisFacts.

(** ** The least-squares slope *)

Module SlopeFacts.
Import JS SystemValidation TrendSpec AnalysisFacts.

Lemma fold_addPoint (l : list (Q * Q)) :
  forall s,
    (sumX (fold_left addPoint l s) == sumX s + sx l)%Q
    /\ (sumY (fold_left addPoint l s) == sumY s + sy l)%Q
    /\ (sumXY (fold_left addPoint l s) == sumXY s + sxy l)%Q
    /\ (sumXX (fold_left addPoint l s) == sumXX s + sxx l)%Q.
Proof.
  induction l as [|[x y] l IH]; intros s; simpl.
  - repeat split; ring.
  - destruct (IH (addPoint s (x, y))) as (H1 & H2 & H3 & H4).
    rewrite H1, H2, H3, H4. simpl. repeat split; ring.
Qed.

Lemma fold_addPoint_zero (l : list (Q * Q)) :
  let s := fold_left addPoint l (mkSums 0 0 0 0) in
  (sumX s == sx l)%Q /\ (sumY s == sy l)%Q
  /\ (sumXY s == sxy l)%Q /\ (sumXX s == sxx l)%Q.
Proof.
  destruct (fold_addPoint l (mkSums 0 0 0 0)) as (H1 & H2 & H3 & H4).
  cbv zeta. rewrite H1, H2, H3, H4. cbn [sumX sumY sumXY sumXX].
  repeat split; ring.
Qed.

Lemma sy_on_line (a b : Q) (l : list (Q * Q)) :
  pointsOnLine a b l ->
  (sy l == a * indexQ (List.length l) + b * sx l)%Q.
Proof.
  induction l as [|[x y] l IH]; intros H; simpl.
  - unfold indexQ. simpl. ring.
  - rewrite IH by (intros pt Hpt; apply H; now right).
    rewrite (H (x, y) (or_introl eq_refl)). simpl.
    change (indexQ (S (List.length l))) with (indexQ (S (List.length l))).
    rewrite (indexQ_S (List.length l)). ring.
Qed.

Lemma sxy_on_line (a b : Q) (l : list (Q * Q)) :
  pointsOnLine a b l -> (sxy l == a * sx l + b * sxx l)%Q.
Proof.
  induction l as [|[x y] l IH]; intros H; simpl.
  - ring.
  - rewrite IH by (intros pt Hpt; apply H; now right).
    rewrite (H (x, y) (or_introl eq_refl)). simpl. ring.
Qed.

Lemma dev_expand (l : list (Q * Q)) (x : Q) :
  (dev l x == sxx l - 2 * x * sx l + indexQ (List.length l) * x * x)%Q.
Proof.
  induction l as [|[z y] l IH]; simpl.
  - unfold indexQ. simpl. ring.
  - rewrite IH, (indexQ_S (List.length l)). ring.
Qed.

Lemma square_nonneg (t : Q) : (0 <= t * t)%Q.
Proof. nra. Qed.

Lemma dev_nonneg (l : list (Q * Q)) (x : Q) : (0 <= dev l x)%Q.
Proof.
  induction l as [|[z y] l IH]; simpl.
  - apply Qle_refl.
  - pose proof (square_nonneg (z - x)). lra.
Qed.

Lemma spread2_cons (p : Q * Q) (l : list (Q * Q)) :
  (spread2 (p :: l) == spread2 l + dev l (fst p))%Q.
Proof.
  unfold spread2. rewrite dev_expand. simpl.
  rewrite (indexQ_S (List.length l)). ring.
Qed.

Lemma spread2_nonneg (l : list (Q * Q)) : (0 <= spread2 l)%Q.
Proof.
  induction l as [|p l IH].
  - unfold spread2, indexQ. simpl. apply Qle_refl.
  - rewrite spread2_cons. pose proof (dev_nonneg l (fst p)). lra.
Qed.

(** Two points with different abscissas make the denominator positive. *)
Lemma spread2_pos (p z : Q * Q) (l : list (Q * Q)) :
  ~ (fst p == fst z)%Q -> (0 < spread2 (p :: z :: l))%Q.
Proof.
  intros Hne. rewrite spread2_cons.
  pose proof (spread2_nonneg (z :: l)) as H1.
  pose proof (dev_nonneg l (fst p)) as H2.
  assert (H3 : (0 < (fst z - fst p) * (fst z - fst p))%Q).
  { destruct (Qlt_le_dec 0 ((fst z - fst p) * (fst z - fst p))) as [H|H]; [exact H|].
    exfalso. apply Hne.
    assert (Hz : ((fst z - fst p) * (fst z - fst p) == 0)%Q)
      by (pose proof (square_nonneg (fst z - fst p)); lra).
    apply Qmult_integral in Hz. destruct Hz; lra. }
  simpl. simpl in H2. lra.
Qed.

(** On points of a line [a + b x] with at least two abscissas, the slope
    computed by the loop is [b]. *)
Lemma leastSquaresSlope_on_line (a b : Q) (p z : Q * Q) (l : list (Q * Q)) :
  pointsOnLine a b (p :: z :: l) -> ~ (fst p == fst z)%Q ->
  (leastSquaresSlope (p :: z :: l) == b)%Q.
Proof.
  intros Hline Hne. unfold leastSquaresSlope.
  set (pts := p :: z :: l) in *.
  assert (Hlen : (2 <=? List.length pts)%nat = true) by reflexivity.
  rewrite Hlen.
  destruct (fold_addPoint_zero pts) as (H1 & H2 & H3 & H4).
  set (s := fold_left addPoint pts (mkSums 0 0 0 0)) in *.
  pose proof (spread2_pos p z l Hne) as Hpos. fold pts in Hpos.
  unfold spread2 in Hpos.
  assert (Hden : (indexQ (List.length pts) * sumXX s - sumX s * sumX s
                  == indexQ (List.length pts) * sxx pts - sx pts * sx pts)%Q)
    by (rewrite H1, H4; reflexivity).
  cbv zeta.
  destruct (Qeq_bool (indexQ (List.length pts) * sumXX s - sumX s * sumX s) 0) eqn:E.
  - apply Qeq_bool_iff in E. rewrite Hden in E. rewrite E in Hpos.
    exfalso. exact (Qlt_irrefl _ Hpos).
  - simpl negb. cbv iota.
    rewrite H1, H2, H3, H4, (sy_on_line a b pts Hline), (sxy_on_line a b pts Hline).
    field. intros Hz. rewrite Hz in Hpos. exact (Qlt_irrefl _ Hpos).
Qed.

(** With finite scores the loop records one point per pair, at the index
    of the pair. *)
Lemma scanFrom_points_on_line (a b : Q) (rest : list TrendPoint) :
  forall i prevPt st qprev,
    scoreOf prevPt = Fin qprev ->
    (forall k p, nth_error rest k = Some p ->
                 exists q, scoreOf p = Fin q /\ (q == a + b * indexQ (i + k))%Q) ->
    exists new,
      points (scanFrom i prevPt rest st) = points st ++ new
      /\ map fst new = map indexQ (seq i (List.length rest))
      /\ pointsOnLine a b new.
Proof.
  induction rest as [|cur rest IH]; intros i prevPt st qprev Hprev Hline; simpl.
  - exists []. rewrite app_nil_r. repeat split. intros pt [].
  - destruct (Hline 0%nat cur eq_refl) as [q [Hq Hqline]].
    rewrite Nat.add_0_r in Hqline.
    destruct (IH (S i) cur (scanPair i prevPt cur st) q Hq) as (new & Hpts & Hfst & Hnew).
    { intros k p Hk. destruct (Hline (S k) p Hk) as [q' [Hq' Hl']].
      exists q'. split; [exact Hq'|]. now rewrite Nat.add_succ_r in Hl'. }
    exists ((indexQ i, q) :: new). split; [|split].
    + rewrite Hpts. unfold scanPair. rewrite Hprev, Hq.
      cbn [points]. now rewrite <- app_assoc.
    + simpl. now rewrite Hfst.
    + intros pt [<-|Hpt]; [exact Hqline | now apply Hnew].
Qed.

(** In exact arithmetic, when the scores of a series of at least three
    points lie on a line, the slope is the step of the line. *)
Lemma slope_on_line (series : list TrendPoint) (a b : Q) (s : Stats) :
  (3 <= List.length series)%nat ->
  onLine a b series ->
  analyzeSeries series = Ok s ->
  (slope s == b)%Q.
Proof.
  intros Hlen Hline Hs.
  destruct series as [|first [|second [|third rest]]]; simpl in Hlen; try lia.
  destruct (Hline 0%nat first eq_refl) as [q0 [Hq0 _]].
  destruct (scanFrom_points_on_line a b (second :: third :: rest) 1 first
              (mkScan 0 0 []) q0 Hq0) as (new & Hpts & Hfst & Hnew).
  { intros k p Hk. exact (Hline (S k) p Hk). }
  unfold analyzeSeries in Hs. injection Hs as <-. cbn [slope].
  simpl points in Hpts. rewrite Hpts. simpl app.
  destruct new as [|p [|z l]]; try discriminate.
  simpl in Hfst. injection Hfst as Hp Hz _.
  apply (leastSquaresSlope_on_line a b); [exact Hnew|].
  rewrite Hp, Hz. unfold indexQ, Qeq. simpl. lia.
Qed.

(** X7. A window of three to twenty points whose scores are the whole
    numbers [a], [a + b], [a + 2 b], ..., with [a] and [b] of absolute
    value at most a million: the slope that [analyzeSeries] reports is
    [b].  (Every sum and product of the loop is then a whole number far
    below [2^53], and the quotient is the whole number [b].) *)
Theorem slope_of_a_whole_number_ramp
  (series : list TrendPoint) (a b : Z) (s : Stats) :
  (3 <= List.length series <= WINDOW_EVENTS)%nat ->
  (Z.abs a <= 1000000)%Z -> (Z.abs b <= 1000000)%Z ->
  onLine (inject_Z a) (inject_Z b) series ->
  analyzeSeries series = Ok s ->
  (slope s == inject_Z b)%Q.
Proof.
  intros [Hlen _] _ _ Hline Hs.
  exact (slope_on_line series (inject_Z a) (inject_Z b) s Hlen Hline Hs).
Qed.

(** The theorem at a history losing three points per report. *)
Lemma slope_of_a_whole_number_ramp_witness :
  (slope (mkStats 0 (0 # 3) (-18 # 6) 4) == -3)%Q.
Proof.
  apply (slope_of_a_whole_number_ramp (ramp 4 1 100 (-3)) 100 (-3)).
  - simpl. unfold WINDOW_EVENTS. lia.
  - simpl. lia.
  - simpl. lia.
  - intros k p Hk.
    destruct k as [|[|[|[|k]]]]; simpl in Hk;
      try (injection Hk as <-; eexists; split; reflexivity).
    destruct k; discriminate.
  - reflexivity.
Defined.

End SlopeFacts.

(** ** The canonical text is the JSON text of the key-sorted payload *)

Module CanonicalFacts.
Import JS Json Blockchain Gateway HasherSpec CanonicalSpec HasherFacts.

Lemma insertField_perm (kv : string * json) (l : list (string * json)) :
  Permutation (kv :: l) (insertField kv l).
Proof.
  induction l as [|x r IH]; simpl.
  - reflexivity.
  - destruct (String.leb (fst kv) (fst x)).
    + reflexivity.
    + rewrite <- IH. apply perm_swap.
Qed.

Lemma sortFields_perm (l : list (string * json)) : Permutation l (sortFields l).
Proof.
  induction l as [|x r IH]; simpl.
  - reflexivity.
  - rewrite <- insertField_perm. now constructor.
Qed.

Lemma insertField_keys (kv : string * json) (l : list (string * json)) :
  map fst (insertField kv l) = insertKey (fst kv) (map fst l).
Proof.
  induction l as [|x r IH]; simpl.
  - reflexivity.
  - destruct (String.leb (fst kv) (fst x)); simpl; [reflexivity | now rewrite IH].
Qed.

Lemma sortFields_keys (l : list (string * json)) :
  map fst (sortFields l) = sortKeys (map fst l).
Proof.
  induction l as [|x r IH]; simpl.
  - reflexivity.
  - now rewrite insertField_keys, IH.
Qed.

(** With distinct names, the property read finds the text listed with the
    name. *)
Lemma valueAt_In (k s : string) (l : list (string * string)) :
  NoDup (map fst l) -> In (k, s) l -> valueAt k l = s.
Proof.
  induction l as [|[k' s'] r IH]; simpl; intros Hnd Hin.
  - contradiction.
  - inversion Hnd as [|? ? Hnotin Hnd']; subst.
    destruct Hin as [Heq|Hin].
    + injection Heq as -> ->. now rewrite String.eqb_refl.
    + destruct (String.eqb k' k) eqn:E.
      * apply String.eqb_eq in E. subst k'. exfalso. apply Hnotin.
        change k with (fst (k, s)). now apply in_map.
      * now apply IH.
Qed.

(** Without array indices among the names, the properties are listed in
    the order they were inserted. *)
Lemma propertyOrder_named {A : Type} (fields : list (string * A)) :
  Forall (fun kv => arrayIndex (fst kv) = None) fields ->
  propertyOrder fields = fields.
Proof.
  intros Hall. unfold propertyOrder.
  assert (Hi : indexed fields = []).
  { induction Hall as [|[k x] r Hk _ IH]; cbn [indexed]; [reflexivity|].
    cbn [fst] in Hk. rewrite Hk. exact IH. }
  assert (Hn : named fields = fields).
  { clear Hi. unfold named.
    induction Hall as [|[k x] r Hk _ IH]; cbn [filter fst]; [reflexivity|].
    cbn [fst] in Hk. rewrite Hk. f_equal. exact IH. }
  rewrite Hi, Hn. reflexivity.
Qed.

Lemma plainName_no_index (k : string) : plainName k = true -> arrayIndex k = None.
Proof. unfold plainName. now destruct (arrayIndex k). Qed.

Lemma plainNames_fields (fields : list (string * json)) :
  plainNames (JObj fields) = true ->
  Forall (fun kv => plainName (fst kv) = true /\ plainNames (snd kv) = true) fields.
Proof.
  cbn [plainNames]. intros H. apply Forall_forall. intros [k x] Hin.
  rewrite forallb_forall in H. specialize (H (k, x) Hin).
  now apply andb_true_iff in H.
Qed.

Lemma plainNames_items (items : list json) :
  plainNames (JArr items) = true -> Forall (fun x => plainNames x = true) items.
Proof.
  cbn [plainNames]. intros H. apply Forall_forall. intros x Hin.
  rewrite forallb_forall in H. exact (H x Hin).
Qed.

Section Canonical.
Context {rt : Runtime}.

(** On an object whose names are distinct, no array indices, and already
    in order, the two serializations list the same properties in the same
    order. *)
Lemma stringify_sorted_fields (fields : list (string * json)) :
  NoDup (map fst fields) ->
  StronglySorted leKey (map fst fields) ->
  Forall (fun kv => arrayIndex (fst kv) = None) fields ->
  Forall (fun kv => stableStringify (snd kv) = JSON_stringify (snd kv)) fields ->
  stableStringify (JObj fields) = JSON_stringify (JObj fields).
Proof.
  intros Hnd Hsorted Hplain Hall. cbn [stableStringify JSON_stringify].
  fold (rendered fields).
  rewrite propertyOrder_named.
  2:{ apply Forall_forall. intros [k t] Hin. apply in_map_iff in Hin as [[k' x] [Heq Hin]].
      injection Heq as <- <-. rewrite Forall_forall in Hplain.
      exact (Hplain (k', x) Hin). }
  assert (Hkeys : sortKeys (map fst fields) = map fst fields).
  { apply sorted_perm_eq; [apply sortKeys_sorted | exact Hsorted | apply sortKeys_perm]. }
  cbv zeta. rewrite Hkeys, !map_map. do 3 f_equal.
  apply map_ext_in. intros [k x] Hin. simpl. do 2 f_equal.
  rewrite Forall_forall in Hall. pose proof (Hall (k, x) Hin) as Hx.
  simpl in Hx. rewrite <- Hx.
  apply valueAt_In.
  - now rewrite rendered_keys.
  - unfold rendered.
    change (k, stableStringify x)
      with ((fun kv : string * json =>
               match kv with (k0, v) => (k0, stableStringify v) end) (k, x)).
    now apply in_map.
Qed.

Lemma canonical_reorder : forall v, reorder v (canonical v).
Proof.
  apply json_induction; try (intros; apply reorder_same).
  - intros items Hall. simpl. apply reorder_arr.
    induction Hall; simpl; constructor; auto.
  - intros fields Hall. simpl.
    apply reorder_obj
      with (fields' := map (fun kv => match kv with (k, x) => (k, canonical x) end)
                         fields).
    + induction Hall as [|[k x] r Hx Hr IH]; simpl; constructor; auto.
    + apply sortFields_perm.
Qed.

Lemma canonical_keys (fields : list (string * json)) :
  map fst (map (fun kv => match kv with (k, x) => (k, canonical x) end) fields)
  = map fst fields.
Proof. rewrite map_map. apply map_ext. now intros [k x]. Qed.

Lemma canonical_stringify : forall v,
  wf v -> plainNames v = true ->
  stableStringify (canonical v) = JSON_stringify (canonical v).
Proof.
  apply (json_induction (fun v => wf v -> plainNames v = true ->
           stableStringify (canonical v) = JSON_stringify (canonical v)));
    try reflexivity.
  - intros items Hall Hwf Hplain. inversion Hwf as [| | | |? Hwfs|]; subst.
    apply plainNames_items in Hplain. simpl.
    do 3 f_equal. rewrite !map_map. apply map_ext_in. intros x Hx.
    rewrite Forall_forall in Hall, Hwfs, Hplain. auto.
  - intros fields Hall Hwf Hplain. inversion Hwf as [| | | | |? Hnd Hwfs]; subst.
    apply plainNames_fields in Hplain.
    cbn [canonical].
    set (inner := map (fun kv => match kv with (k, x) => (k, canonical x) end) fields).
    apply stringify_sorted_fields.
    + rewrite sortFields_keys. unfold inner. rewrite canonical_keys.
      eapply Permutation_NoDup; [apply Permutation_sym, sortKeys_perm | exact Hnd].
    + rewrite sortFields_keys. apply sortKeys_sorted.
    + apply Forall_forall. intros kv Hkv.
      apply (Permutation_in _ (Permutation_sym (sortFields_perm inner))) in Hkv.
      unfold inner in Hkv. apply in_map_iff in Hkv as [[k x] [<- Hin]]. simpl.
      rewrite Forall_forall in Hplain. apply plainName_no_index.
      exact (proj1 (Hplain (k, x) Hin)).
    + apply Forall_forall. intros kv Hkv.
      apply (Permutation_in _ (Permutation_sym (sortFields_perm inner))) in Hkv.
      unfold inner in Hkv. apply in_map_iff in Hkv as [[k x] [<- Hin]]. simpl.
      rewrite Forall_forall in Hall, Hwfs, Hplain.
      apply (Hall (k, x) Hin); [exact (Hwfs (k, x) Hin)|].
      exact (proj2 (Hplain (k, x) Hin)).
Qed.

(** X8. For every payload whose objects name each property once, with
    names of ASCII characters that are no array indices,
    [stableStringify] gives the text that [JSON.stringify] gives for the
    payload with the properties of every object put in the order of their
    names. *)
Theorem stableStringify_is_JSON_of_sorted_payload (v : json) :
  wf v -> plainNames v = true ->
  stableStringify v = JSON_stringify (canonical v).
Proof.
  intros Hwf Hplain. rewrite <- canonical_stringify by assumption.
  apply (proj1 stringify_reorder_all); [apply canonical_reorder | exact Hwf].
Qed.

(** With an array index among the names the two texts differ:
    [JSON.stringify] lists the index first wherever it was inserted. *)
Remark array_index_is_listed_first :
  wf (JObj [ ("a"%string, JNull); ("1"%string, JNull) ])
  /\ @JSON_stringify sampleRuntime (JObj [ ("a"%string, JNull); ("1"%string, JNull) ])
     = @JSON_stringify sampleRuntime (JObj [ ("1"%string, JNull); ("a"%string, JNull) ]).
Proof.
  split; [|reflexivity].
  apply wf_obj.
  - simpl. repeat constructor; simpl; intuition discriminate.
  - repeat constructor.
Qed.

End Canonical.

End CanonicalFacts.

(** ** More on the hasher and the ledger adapter *)

Module AdapterMore.
Import JS Json Blockchain Gateway HasherSpec GatewaySpec CanonicalSpec AdapterSpec.
Import CanonicalFacts AdapterFacts.

Lemma samplePayload_wf : wf samplePayload.
Proof.
  apply wf_obj.
  - simpl. repeat constructor; simpl; intuition discriminate.
  - repeat constructor; simpl; intuition discriminate.
Qed.

(** X8 at the sample payload. *)
Lemma stableStringify_is_JSON_of_sorted_payload_witness :
  @stableStringify sampleRuntime samplePayload
  = @JSON_stringify sampleRuntime (canonical samplePayload).
Proof.
  apply (@stableStringify_is_JSON_of_sorted_payload sampleRuntime samplePayload).
  - apply samplePayload_wf.
  - reflexivity.
Defined.

Lemma orHash_None_idem (a : option string) :
  orHash (orHash a None) None = orHash a None.
Proof.
  unfold orHash. destruct a as [x|]; [|reflexivity].
  destruct (String.eqb x EmptyString) eqn:E; [reflexivity | now rewrite E].
Qed.

Section Adapter.
Context {rt : Runtime}.

(** X9. The hash computed by the handler is the canonical hash or null:
    it is null exactly when the package offers no hashing helper, and the
    fallback on [JSON.stringify] never supplies one. *)
Theorem handler_hash_is_canonical_or_null (E : EthersPackage) (payload : json) :
  (computeDataHash E payload = None
   <-> v6 E = None /\ v5utils E = None /\ libUtils E = None)
  /\ (forall h, computeDataHash E payload = Some h <-> keccakHash E payload = Ret h).
Proof.
  unfold computeDataHash, keccakHash.
  destruct (v6 E) as [h6|]; [|destruct (v5utils E) as [h5|];
                               [|destruct (libUtils E) as [hl|]]]; simpl.
  - split; [split; [discriminate | intros (H & _); discriminate]|].
    intros h. split; intros H; injection H as <-; reflexivity.
  - split; [split; [discriminate | intros (_ & H & _); discriminate]|].
    intros h. split; intros H; injection H as <-; reflexivity.
  - split; [split; [discriminate | intros (_ & _ & H); discriminate]|].
    intros h. split; intros H; injection H as <-; reflexivity.
  - split; [split; auto|]. intros h. split; discriminate.
Qed.

(** X10. Whatever the event and whatever the ledger does,
    [processAndLog] submits at most once.  With a computed content hash
    [h] the result carries [h], also when the function fails, and a
    submission carries [h] beside the defaulted fields of the event.
    Without a hash nothing is submitted and the result is a failure that
    carries null. *)
Theorem processAndLog_hash_is_the_content_hash
  (c : Chain) (n : nat) (now : Q) (evt : json) :
  let run := processAndLog c n now evt in
  (List.length (submitted (fst run)) <= 1)%nat
  /\ (forall h, keccakHash (ethers c) evt = Ret h ->
        (exists r, snd run = Ret r /\ hash r = Some h)
        /\ forall args, In args (submitted (fst run)) ->
                        exists d, defaulting now evt = Ret d
                                  /\ args = ledgerArgs d h)
  /\ (forall m, keccakHash (ethers c) evt = Throw m ->
        fst run = []
        /\ exists r m', snd run = Ret r /\ hash r = None /\ success r = false
                        /\ txHash r = None /\ error r = Some m').
Proof.
  intros run. subst run. unfold processAndLog, processAndLogBody, maybeHash.
  destruct (defaulting now evt) as [d|md]; simpl.
  - destruct (keccakHash (ethers c) evt) as [h|m]; simpl.
    + destruct (contract c) as [f|]; simpl.
      * destruct (wallet c); simpl.
        -- destruct (f n (ledgerArgs d h)) as [tx|m]; simpl.
           ++ unfold awaitReceipt.
              destruct (wait tx) as [r|m1]; simpl;
                [|destruct (waitForTransaction c _) as [r|m2]; simpl];
                (split; [lia|]; split; [|discriminate]);
                intros h' Hh'; injection Hh' as <-;
                (split; [eexists; split; reflexivity|]);
                intros args [<-|[]]; eauto.
           ++ split; [lia|]. split; [|discriminate].
              intros h' Hh'. injection Hh' as <-.
              split; [eexists; split; reflexivity|].
              intros args [<-|[]]; eauto.
        -- split; [lia|]. split; [|discriminate].
           intros h' Hh'. injection Hh' as <-.
           split; [eexists; split; reflexivity | intros args []].
      * split; [lia|]. split; [|discriminate].
        intros h' Hh'. injection Hh' as <-.
        split; [eexists; split; reflexivity | intros args []].
    + split; [lia|]. split; [discriminate|].
      intros m' Hm'. split; [reflexivity|].
      eexists. eexists. repeat split.
  - destruct (keccakHash (ethers c) evt) as [h|m]; simpl.
    + split; [lia|]. split; [|discriminate].
      intros h' Hh'. injection Hh' as <-.
      split; [eexists; split; reflexivity | intros args []].
    + split; [lia|]. split; [discriminate|].
      intros m' Hm'. split; [reflexivity|].
      eexists. eexists. repeat split.
Qed.

(** X11. The result has [success: true] exactly when the defaulting of
    the fields of the event goes through, the content hash is computed,
    the contract and the wallet are configured and the contract takes the
    submission; what the two waits for the confirmation do plays no
    part. *)
Theorem success_iff_submission_taken
  (c : Chain) (n : nat) (now : Q) (evt : json) :
  (exists r, snd (processAndLog c n now evt) = Ret r /\ success r = true)
  <-> (exists logTrustEvent d h tx,
          contract c = Some logTrustEvent /\ wallet c = true
          /\ defaulting now evt = Ret d
          /\ keccakHash (ethers c) evt = Ret h
          /\ logTrustEvent n (ledgerArgs d h) = Ret tx).
Proof.
  unfold processAndLog, processAndLogBody. simpl.
  destruct (defaulting now evt) as [d|md]; simpl.
  - destruct (keccakHash (ethers c) evt) as [h|m]; simpl.
    + destruct (contract c) as [f|]; simpl.
      * destruct (wallet c); simpl.
        -- destruct (f n (ledgerArgs d h)) as [tx|m] eqn:Hf; simpl.
           ++ split; [intros _; exists f, d, h, tx; auto|].
              intros _. eexists. split; reflexivity.
           ++ split.
              ** intros [r [Hr Hs]]. injection Hr as <-. discriminate.
              ** intros (f' & d' & h' & tx & Hc & _ & Hd & Hh & Hf').
                 injection Hc as <-. injection Hh as <-. injection Hd as <-.
                 congruence.
        -- split.
           ++ intros [r [Hr Hs]]. injection Hr as <-. discriminate.
           ++ intros (f' & d' & h' & tx & _ & Hw & _). discriminate.
      * split.
        -- intros [r [Hr Hs]]. injection Hr as <-. discriminate.
        -- intros (f' & d' & h' & tx & Hc & _). discriminate.
    + split.
      * intros [r [Hr Hs]]. injection Hr as <-. discriminate.
      * intros (f' & d' & h' & tx & _ & _ & _ & Hh & _). discriminate.
  - split.
    + intros [r [Hr Hs]]. injection Hr as <-. discriminate.
    + intros (f' & d' & h' & tx & _ & _ & Hd & _). discriminate.
Qed.

(** X12. A submission that the contract takes and whose confirmation can
    be awaited neither through [tx.wait()] nor through
    [provider.waitForTransaction] is still returned as a success, with the
    hash of the sent transaction and no receipt. *)
Theorem unconfirmed_submission_is_reported_as_success
  (c : Chain) (n : nat) (now : Q) (evt : json)
  (logTrustEvent : nat -> LedgerArgs -> Exc Tx) (d : Defaults) (h : string)
  (tx : Tx) (m1 m2 : string) :
  contract c = Some logTrustEvent -> wallet c = true ->
  defaulting now evt = Ret d ->
  keccakHash (ethers c) evt = Ret h ->
  logTrustEvent n (ledgerArgs d h) = Ret tx ->
  wait tx = Throw m1 ->
  waitForTransaction c (sentHash tx) = Throw m2 ->
  processAndLog c n now evt
  = ([ LogTrustEvent (ledgerArgs d h); TxWait;
       WaitForTransaction (sentHash tx) ],
     Ret (mkResult (sentHash tx) (Some h) true None None)).
Proof.
  intros Hc Hw Hd Hh Hf Hwait Hwft.
  unfold processAndLog, processAndLogBody. rewrite Hd, Hh, Hc, Hw, Hf.
  unfold awaitReceipt. rewrite Hwait.
  fold (sentHash tx). rewrite Hwft. simpl.
  unfold sentHash. now rewrite orHash_None_idem.
Qed.

(** X13. For a payload whose [ts] is a number [s] with [0 < s <= 10^15],
    the queue item built by the handler carries [floor(s / 1000)], and
    that is the timestamp [processAndLog] submits for the item: the
    defaulting of [processAndLog] goes through on the item and does not
    divide its [ts] again.  The item is built whenever the conversions of
    the scores and of the reason go through. *)
Theorem submitted_timestamp_is_payload_ts_over_1000
  (c : Chain) (clk : Clock) (payload : json) (i : Intake)
  (d : SystemValidation.Decision.t) (now : Q) (h : string) (s : Q) :
  get payload "ts" = Some (JNum (Fin s)) ->
  (0 < s)%Q -> (s <= 1000000000000000)%Q ->
  (forall item,
      queueItemOf c clk payload i d = Ret item ->
      get item "ts" = Some (JNum (Fin (inject_Z (Qfloor (s / 1000)))))
      /\ exists D,
           defaulting now item = Ret D
           /\ argTs (ledgerArgs D h) = Fin (inject_Z (Qfloor (s / 1000))))
  /\ (forall o n r,
        ToNumber (nullish (nullish (get payload "oldTS") (get payload "oldTrustA"))
                    (Some (JNum (inTrustA i)))) = Ret o ->
        ToNumber (nullish (nullish (get payload "newTS") (get payload "newTrustA"))
                    (Some (JNum (inTrustB i)))) = Ret n ->
        ToString (or_ (get payload "reason")
                    (or_ (option_map JStr (SystemValidation.Decision.reason d))
                       (Some (JStr "LOW_TRUST")))) = Ret r ->
        exists item, queueItemOf c clk payload i d = Ret item).
Proof.
  intros Hts Hpos Hmax.
  assert (Htruthy : truthy (Some (JNum (Fin s))) = true).
  { simpl. destruct (Qeq_bool s 0) eqn:Ez; [|reflexivity].
    apply Qeq_bool_iff in Ez. rewrite Ez in Hpos. discriminate. }
  assert (Hraw : ToNumber (or_ (get payload "ts")
                             (or_ (get payload "timestamp")
                                (Some (JNum (Fin (nowMs clk))))))
                 = Ret (Fin s)).
  { rewrite Hts. unfold or_ at 1. rewrite Htruthy. reflexivity. }
  assert (Hle : (Qfloor (s / 1000) <= 1000000000000)%Z).
  { assert (H1 : (s / 1000 <= inject_Z 1000000000000)%Q).
    { apply Qle_shift_div_r; [reflexivity|]. exact Hmax. }
    apply Qfloor_resp_le in H1. now rewrite Qfloor_Z in H1. }
  assert (Hnot : Qltb 1000000000000 (inject_Z (Qfloor (s / 1000))) = false).
  { unfold Qltb. apply negb_false_iff, Qle_bool_iff.
    change 1000000000000%Q with (inject_Z 1000000000000).
    rewrite <- Zle_Qle. exact Hle. }
  split.
  - intros item Hitem. unfold queueItemOf in Hitem.
    destruct (ToNumber (nullish (nullish (get payload "oldTS") (get payload "oldTrustA"))
                          (Some (JNum (inTrustA i))))) as [o|m]; [|discriminate].
    destruct (ToNumber (nullish (nullish (get payload "newTS") (get payload "newTrustA"))
                          (Some (JNum (inTrustB i))))) as [n|m]; [|discriminate].
    destruct (ToString (or_ (get payload "reason")
                          (or_ (option_map JStr (SystemValidation.Decision.reason d))
                             (Some (JStr "LOW_TRUST"))))) as [r|m]; [|discriminate].
    rewrite Hraw in Hitem. cbn [bind floor divBy] in Hitem.
    remember (inject_Z (Qfloor (s / 1000))) as t eqn:Ht.
    injection Hitem as <-.
    split; [reflexivity|].
    eexists. split; [reflexivity|].
    cbn [ledgerArgs argTs defTs lt]. rewrite Hnot.
    cbn [floor]. rewrite Ht. now rewrite Qfloor_Z.
  - intros o n r Ho Hn Hr. unfold queueItemOf.
    rewrite Ho, Hn, Hr, Hraw. cbn [bind]. eexists. reflexivity.
Qed.

End Adapter.

Lemma unconfirmed_submission_is_reported_as_success_witness :
  snd (@processAndLog sampleRuntime unconfirmedChain 0 0 lowTrustPayload)
  = Ret (mkResult (Some "0xabc"%string)
           (Some (String.append "0x"
                    (@stableStringify sampleRuntime lowTrustPayload)))
           true None None).
Proof.
  rewrite (@unconfirmed_submission_is_reported_as_success sampleRuntime
             unconfirmedChain 0 0 lowTrustPayload
             (fun _ _ => Ret unconfirmedTx)
             (mkDefaults (Some (JStr "unknown-group")) (Fin 0) (Fin 0)
                (Some (JStr "LOW_TRUST")) (Fin 1700000000))
             (String.append "0x" (@stableStringify sampleRuntime lowTrustPayload))
             unconfirmedTx "timeout" "network error");
    reflexivity.
Defined.

Lemma submitted_timestamp_is_payload_ts_over_1000_witness :
  exists item,
    @queueItemOf sampleRuntime disabledChain sampleClock lowTrustPayload
      (mkIntake "group-1" (JStr "unknown") (Fin 55) (Fin 90) (Fin 60) true)
      (SystemValidation.Decision.mk SystemValidation.no_action
         None None None None)
    = Ret item
    /\ get item "ts" = Some (JNum (Fin (inject_Z 1700000))).
Proof.
  destruct (@submitted_timestamp_is_payload_ts_over_1000 sampleRuntime
              disabledChain sampleClock lowTrustPayload
              (mkIntake "group-1" (JStr "unknown") (Fin 55) (Fin 90) (Fin 60) true)
              (SystemValidation.Decision.mk SystemValidation.no_action
                 None None None None)
              0 "0x00" 1700000000 eq_refl eq_refl
              (fun H => match H with eq_refl => I end)) as [Hts Hbuilt].
  destruct (Hbuilt (Fin 55) (Fin 90) "LOW_TRUST"%string eq_refl eq_refl eq_refl)
    as [item Hitem].
  exists item. split; [exact Hitem|].
  exact (proj1 (Hts item Hitem)).
Defined.

End AdapterMore.

(** ** The worker drains the queue *)

Module QueueMore.
Import JS Json Blockchain Gateway HasherSpec GatewaySpec QueueSpec.
Import JsonFacts AdapterFacts QueueFacts.

Lemma extends_refl (l : list json) : extends l l.
Proof. exists []. now rewrite app_nil_r. Qed.

Lemma extends_trans (a b c : list json) : extends a b -> extends b c -> extends a c.
Proof. intros [m1 ->] [m2 ->]. exists (m1 ++ m2). now rewrite app_assoc. Qed.

Lemma extends_one (l : list json) (x : json) : extends l (l ++ [x]).
Proof. now exists [x]. Qed.

Lemma remaining_pos (w : Wrapper) : (1 <= remaining w)%nat.
Proof. unfold remaining. apply Nat.le_max_l. Qed.

Lemma budget_app (a b : list Wrapper) : budget (a ++ b) = (budget a + budget b)%nat.
Proof. induction a as [|w a IH]; simpl; [reflexivity | rewrite IH; lia]. Qed.

Lemma budget_zero (q : list Wrapper) : budget q = 0%nat -> q = [].
Proof.
  destruct q as [|w q]; [reflexivity|]. simpl.
  pose proof (remaining_pos w). lia.
Qed.

Section Worker.
Context {rt : Runtime}.

(** What the [try] block leaves of the state, completed or not. *)
Lemma tryBlock_state (c : Chain) (clk : Clock) (it : json) (st : State) :
  let st' := fst (tryBlock c clk it st) in
  writeQueue st' = writeQueue st
  /\ submissions st' = S (submissions st)
  /\ processingQueue st' = processingQueue st
  /\ thresholds st' = thresholds st
  /\ extends (events st) (events st').
Proof.
  unfold tryBlock, settleTry.
  destruct (snd (processAndLog c (submissions st) (nowMs clk) it)) as [r|m]; simpl.
  - destruct (truthy (get it "flagged")); simpl.
    + destruct (flaggedEventObj clk it r) as [obj|m]; simpl;
        repeat split; apply extends_one.
    + repeat split. apply extends_one.
  - repeat split. apply extends_refl.
Qed.

Lemma catchBlock_state (clk : Clock) (w : Wrapper) (m : string) (st : State) :
  let st' := catchBlock clk w m st in
  writeQueue st'
  = writeQueue st
    ++ (if (attempts w + 1 <? maxAttempts)%nat
        then [mkWrapper (item w) (attempts w + 1)] else [])
  /\ submissions st' = submissions st
  /\ processingQueue st' = processingQueue st
  /\ thresholds st' = thresholds st
  /\ extends (events st) (events st').
Proof.
  unfold catchBlock. destruct (attempts w + 1 <? maxAttempts)%nat; simpl.
  - repeat split. apply extends_refl.
  - rewrite app_nil_r. repeat split. apply extends_one.
Qed.

(** One iteration submits once and lowers the budget of the queue. *)
Lemma iteration_state (c : Chain) (clk : Clock) (w : Wrapper)
  (rest : list Wrapper) (st : State) :
  let st' := iteration c clk w rest st in
  (budget (writeQueue st') < budget (w :: rest))%nat
  /\ submissions st' = S (submissions st)
  /\ processingQueue st' = processingQueue st
  /\ thresholds st' = thresholds st
  /\ extends (events st) (events st').
Proof.
  unfold iteration.
  destruct (tryBlock_state c clk (item w) (setQueue rest st))
    as (Hq & Hs & Hp & Ht & He).
  simpl in Hq, Hs, Hp, Ht, He.
  pose proof (remaining_pos w) as Hrem.
  destruct (snd (tryBlock c clk (item w) (setQueue rest st))) as [u|m].
  - rewrite Hq. change (budget (w :: rest)) with (remaining w + budget rest)%nat.
    cbn [writeQueue setQueue]. repeat split; auto. lia.
  - destruct (catchBlock_state clk w m (fst (tryBlock c clk (item w) (setQueue rest st))))
      as (Kq & Ks & Kp & Kt & Ke).
    rewrite Kq, Ks, Kp, Kt, Hq, Hs, Hp, Ht. repeat split.
    + rewrite budget_app.
      change (budget (w :: rest)) with (remaining w + budget rest)%nat.
      destruct (attempts w + 1 <? maxAttempts)%nat eqn:E.
      * apply Nat.ltb_lt in E.
        change (budget [mkWrapper (item w) (attempts w + 1)])
          with (remaining (mkWrapper (item w) (attempts w + 1)) + 0)%nat.
        assert (Hless : (remaining (mkWrapper (item w) (attempts w + 1))
                         < remaining w)%nat)
          by (unfold remaining, maxAttempts in *; cbn [attempts]; lia).
        lia.
      * change (budget []) with 0%nat. lia.
    + eapply extends_trans; eauto.
Qed.

Lemma drain_terminates (c : Chain) (clk : Clock) (n : nat) :
  forall st,
    (budget (writeQueue st) <= n)%nat ->
    exists st',
      drain n c clk st = Some st'
      /\ writeQueue st' = []
      /\ (submissions st' <= submissions st + budget (writeQueue st))%nat
      /\ processingQueue st' = processingQueue st
      /\ thresholds st' = thresholds st
      /\ extends (events st) (events st').
Proof.
  induction n as [|n IH]; intros st Hb.
  - assert (Hq : writeQueue st = []) by (apply budget_zero; lia).
    exists st. simpl. rewrite Hq. repeat split; auto; try lia. apply extends_refl.
  - simpl. destruct (writeQueue st) as [|w rest] eqn:Hq.
    + exists st. repeat split; auto; try lia. apply extends_refl.
    + destruct (iteration_state c clk w rest st) as (Hlt & Hs & Hp & Ht & He).
      destruct (IH (iteration c clk w rest st)) as (st' & Hd & Hempty & Hsub & Hp' & Ht' & He').
      { lia. }
      exists st'. repeat split; auto; try congruence.
      * rewrite Hs in Hsub. lia.
      * eapply extends_trans; eauto.
Qed.

(** X14. [processQueue] always comes to an end: run for as many
    iterations as the budget of the queue, it leaves the queue empty and
    the worker idle, has submitted at most that many times (at most four
    times per freshly queued item), has left the thresholds alone and has
    only appended to the event store. *)
Theorem processQueue_drains_the_queue (c : Chain) (clk : Clock) (st : State) :
  exists st',
    processQueue (budget (writeQueue st)) c clk st = Some st'
    /\ writeQueue st' = []
    /\ processingQueue st' = false
    /\ (submissions st' <= submissions st + budget (writeQueue st))%nat
    /\ ((forall w, In w (writeQueue st) -> attempts w = 0%nat) ->
        (submissions st' <= submissions st
                            + maxAttempts * List.length (writeQueue st))%nat)
    /\ thresholds st' = thresholds st
    /\ extends (events st) (events st').
Proof.
  destruct (drain_terminates c clk (budget (writeQueue st)) (setProcessing true st))
    as (st' & Hd & Hempty & Hsub & _ & Ht & He); [simpl; lia|].
  simpl in Hsub, Ht, He.
  exists (setProcessing false st'). unfold processQueue. rewrite Hd. simpl.
  repeat split; auto.
  intros Hfresh.
  assert (Hb : (budget (writeQueue st) <= maxAttempts * List.length (writeQueue st))%nat).
  { clear -Hfresh. induction (writeQueue st) as [|w q IH]; simpl; [lia|].
    assert (Hw : attempts w = 0%nat) by (apply Hfresh; now left).
    assert (Hq : (budget q <= maxAttempts * List.length q)%nat)
      by (apply IH; intros x Hx; apply Hfresh; now right).
    unfold remaining. rewrite Hw. unfold maxAttempts in *. simpl. lia. }
  unfold maxAttempts in *. lia.
Qed.

Lemma get_fieldsOf (v : json) (k : string) : get v k = lookup k (fieldsOf v).
Proof. destruct v; reflexivity. Qed.




End Worker.


End QueueMore.

(** ** The decision table of [systemValidate] *)

Module DecisionTable.
Import JS SystemValidation.
Local Open Scope string_scope.

(** The decision for each outcome of the analysis: the rules are tried in
    order, and the third one ends in the error of the unbound name. *)
Lemma systemValidate_table (local : list TrendPoint) (chain : ChainRead) :
  match analyzeSeries (buildTrustSeries local chain) with
  | NotOk why =>
      systemValidate local chain
      = Ret (Decision.mk insufficient_data None (Some (NotOk why)) None None)
  | Ok a =>
      if (DROP_COUNT_THRESHOLD <=? drops a)%nat && (6 <=? samples a)%nat then
        systemValidate local chain
        = Ret (Decision.mk confirm_unreliable (Some "recurring_drops")
                 (Some (Ok a)) None None)
      else if Qle_bool INSTABILITY_FRACTION (instabilityFrac a) then
        systemValidate local chain
        = Ret (Decision.mk flag_for_review (Some "high_instability")
                 (Some (Ok a)) None None)
      else if Qltb (slope a) (-2) then
        systemValidate local chain
        = Ret (Decision.mk validation_error None None None
                 (Some "TRUST_THRESHOLD is not defined"))
      else
        systemValidate local chain
        = Ret (Decision.mk no_action None (Some (Ok a)) None None)
  end.
Proof.
  unfold systemValidate, decide.
  destruct (analyzeSeries (buildTrustSeries local chain)) as [why|a];
    [reflexivity|].
  destruct ((DROP_COUNT_THRESHOLD <=? drops a)%nat && (6 <=? samples a)%nat);
    [reflexivity|].
  destruct (Qle_bool INSTABILITY_FRACTION (instabilityFrac a)); [reflexivity|].
  destruct (Qltb (slope a) (-2)); reflexivity.
Qed.

Lemma systemValidate_keeps_thresholds (local : list TrendPoint) (chain : ChainRead) :
  exists d,
    systemValidate local chain = Ret d
    /\ Decision.action d <> adjust_threshold_lower
    /\ Decision.newThreshold d = None.
Proof.
  pose proof (systemValidate_table local chain) as H.
  destruct (analyzeSeries (buildTrustSeries local chain)) as [why|a].
  - eexists. split; [exact H|]. split; [discriminate | reflexivity].
  - destruct ((DROP_COUNT_THRESHOLD <=? drops a)%nat && (6 <=? samples a)%nat).
    { eexists. split; [exact H|]. split; [discriminate | reflexivity]. }
    destruct (Qle_bool INSTABILITY_FRACTION (instabilityFrac a)).
    { eexists. split; [exact H|]. split; [discriminate | reflexivity]. }
    destruct (Qltb (slope a) (-2));
      eexists; (split; [exact H|]); (split; [discriminate | reflexivity]).
Qed.

(** X20. [systemValidate] always resolves with a decision; the decision
    is never [adjust_threshold_lower] and never carries a new threshold,
    and it carries an error exactly when it is [validation_error]. *)
Theorem systemValidate_never_lowers_a_threshold
  (local : list TrendPoint) (chain : ChainRead) :
  exists d,
    systemValidate local chain = Ret d
    /\ Decision.action d <> adjust_threshold_lower
    /\ Decision.newThreshold d = None
    /\ (Decision.action d = validation_error <-> Decision.error d <> None).
Proof.
  pose proof (systemValidate_table local chain) as H.
  destruct (analyzeSeries (buildTrustSeries local chain)) as [why|a].
  { eexists. split; [exact H|]. split; [discriminate|]. split; [reflexivity|].
    split; [discriminate|]. intros K. now contradiction K. }
  destruct ((DROP_COUNT_THRESHOLD <=? drops a)%nat && (6 <=? samples a)%nat).
  { eexists. split; [exact H|]. split; [discriminate|]. split; [reflexivity|].
    split; [discriminate|]. intros K. now contradiction K. }
  destruct (Qle_bool INSTABILITY_FRACTION (instabilityFrac a)).
  { eexists. split; [exact H|]. split; [discriminate|]. split; [reflexivity|].
    split; [discriminate|]. intros K. now contradiction K. }
  destruct (Qltb (slope a) (-2)).
  { eexists. split; [exact H|]. split; [discriminate|]. split; [reflexivity|].
    split; [discriminate|reflexivity]. }
  eexists. split; [exact H|]. split; [discriminate|]. split; [reflexivity|].
  split; [discriminate|]. intros K. now contradiction K.
Qed.

End DecisionTable.

(** ** The [/data] handler, stage by stage *)

Module LifecycleFacts.
Import JS Json Blockchain Gateway HasherSpec GatewaySpec HandlerSpec JsonFacts.
Import QueueSpec LifecycleSpec HandlerFacts.
Local Open Scope string_scope.

Lemma responses_app (a b : list Effect) :
  responses (a ++ b) = (responses a ++ responses b)%list.
Proof. apply filter_app. Qed.

Lemma sameWorker_refl (st : State) : sameWorker st st.
Proof. repeat split. Qed.

Section Handler.
Context {rt : Runtime}.
Variable cfg : Config.
Variable c : Chain.
Variable validate : list json -> string -> json -> Exc SystemValidation.Decision.t.

Lemma stageOf_staged (stored : list (string * json)) (stage : string) :
  stageOf (staged stored stage) = Some (JStr stage).
Proof. unfold stageOf, staged, spread. simpl. apply lookup_setField_same. Qed.

Lemma storedEventId_staged (stored : list (string * json)) (stage : string) :
  storedEventId (staged stored stage) = lookup "eventId" stored.
Proof.
  unfold storedEventId, staged, spread. simpl.
  now rewrite lookup_setField_other by discriminate.
Qed.

(** What [applyDecision] does to the stored event and to the state. *)
Lemma applyDecision_stored (groupId : string) (deviceId : json)
  (groupThreshold : number) (d : SystemValidation.Decision.t)
  (stored : list (string * json)) (st : State) :
  let stored' := fst (applyDecision groupId deviceId groupThreshold d stored st) in
  lookup "eventId" stored' = lookup "eventId" stored
  /\ (lookup "flagged" stored = None ->
      truthy (lookup "flagged" stored')
      = isConfirm (SystemValidation.Decision.action d)).
Proof.
  unfold applyDecision.
  destruct (SystemValidation.Decision.action d); cbn [fst isConfirm]; split;
    try reflexivity;
    try (intros H; rewrite H; reflexivity);
    try (now rewrite !lookup_setField_other by discriminate).
  - intros _. now rewrite lookup_setField_same.
  - intros H. rewrite lookup_setField_other by discriminate. now rewrite H.
Qed.

Lemma applyDecision_state (groupId : string) (deviceId : json)
  (groupThreshold : number) (d : SystemValidation.Decision.t)
  (stored : list (string * json)) (st : State) :
  let st' := snd (applyDecision groupId deviceId groupThreshold d stored st) in
  events st' = events st
  /\ sameWorker st st'
  /\ thresholds st'
     = match SystemValidation.Decision.action d with
       | SystemValidation.adjust_threshold_lower =>
           assignThreshold groupId (JNum (newThresholdOf d groupThreshold))
             (thresholds st)
       | _ => thresholds st
       end.
Proof.
  unfold applyDecision, sameWorker.
  destruct (SystemValidation.Decision.action d); simpl; repeat split.
Qed.

Lemma validationStep_outcome (groupId : string) (deviceId : json)
  (groupThreshold : number) (stored : list (string * json)) (st : State) :
  let v := validationStep validate groupId deviceId groupThreshold stored st in
  let r := validate (events st) groupId deviceId in
  snd (fst v) = stepDecision r
  /\ lookup "eventId" (fst (fst v)) = lookup "eventId" stored
  /\ (lookup "flagged" stored = None ->
      truthy (lookup "flagged" (fst (fst v)))
      = isConfirm (SystemValidation.Decision.action (stepDecision r)))
  /\ (exists rec,
        events (snd v) = (events st ++ [rec])%list
        /\ stageOf rec = Some (JStr (stepStage r))
        /\ storedEventId rec = lookup "eventId" stored)
  /\ sameWorker st (snd v)
  /\ thresholds (snd v)
     = match SystemValidation.Decision.action (stepDecision r) with
       | SystemValidation.adjust_threshold_lower =>
           assignThreshold groupId
             (JNum (newThresholdOf (stepDecision r) groupThreshold)) (thresholds st)
       | _ => thresholds st
       end.
Proof.
  unfold validationStep. cbv zeta.
  destruct (validate (events st) groupId deviceId) as [d|m]; cbn [fst snd stepDecision stepStage].
  - match goal with
    | |- context [applyDecision ?g ?dv ?T d ?sto ?s] =>
        destruct (applyDecision_stored g dv T d sto s) as [Hid Hfl];
        destruct (applyDecision_state g dv T d sto s) as (He & Hw & Ht)
    end.
    cbv zeta in Hid, Hfl, He, Hw, Ht.
    split; [reflexivity|]. split.
    { rewrite Hid. now rewrite lookup_setField_other by discriminate. }
    split.
    { intros Hnone. apply Hfl. now rewrite lookup_setField_other by discriminate. }
    split.
    { eexists. rewrite He. split; [reflexivity|]. split.
      - apply stageOf_staged.
      - rewrite storedEventId_staged. now rewrite lookup_setField_other by discriminate. }
    split; [exact Hw | exact Ht].
  - split; [reflexivity|]. split.
    { now rewrite lookup_setField_other by discriminate. }
    split.
    { intros Hnone. rewrite lookup_setField_other by discriminate.
      now rewrite Hnone. }
    split.
    { eexists. split; [reflexivity|]. split.
      - apply stageOf_staged.
      - rewrite storedEventId_staged. now rewrite lookup_setField_other by discriminate. }
    split; [repeat split | reflexivity].
Qed.

(** [enqueueChainLog]: the [queued] record, and the worker started when it
    was idle. *)
Lemma enqueueChainLog_state (clk : Clock) (it : json) (st : State) :
  let st' := enqueueChainLog c clk it st in
  exists q,
    events st' = (events st ++ [q])%list
    /\ stageOf q = Some (JStr "queued")
    /\ storedEventId q = get it "eventId"
    /\ thresholds st' = thresholds st
    /\ queuedAs it st st'.
Proof.
  cbv zeta.
  exists (JObj (spread (fieldsOf it)
                  [ ("queuedAt", JStr (nowIso clk)); ("stage", JStr "queued") ])).
  assert (Hq : stageOf (JObj (spread (fieldsOf it)
                  [ ("queuedAt", JStr (nowIso clk)); ("stage", JStr "queued") ]))
               = Some (JStr "queued")
               /\ storedEventId (JObj (spread (fieldsOf it)
                  [ ("queuedAt", JStr (nowIso clk)); ("stage", JStr "queued") ]))
                  = get it "eventId").
  { unfold stageOf, storedEventId, spread. cbn [get fold_left fst snd]. split.
    - apply lookup_setField_same.
    - rewrite !lookup_setField_other by discriminate. symmetry.
      apply QueueMore.get_fieldsOf. }
  destruct Hq as [Hstage Hid].
  unfold enqueueChainLog, queuedAs. cbv zeta.
  change (processingQueue (appendEvent _ (push (mkWrapper it 0) st)))
    with (processingQueue st).
  destruct (processingQueue st) eqn:Hp; cbn [negb].
  - cbn [appendEvent record push setQueue events thresholds writeQueue
         processingQueue submissions inFlight].
    rewrite Hp. repeat split; auto.
  - unfold startWorker. cbv zeta.
    cbn [appendEvent record push setQueue setProcessing events thresholds
         writeQueue processingQueue submissions inFlight trace].
    destruct (writeQueue st ++ [mkWrapper it 0])%list as [|w rest] eqn:Hw.
    { exfalso. destruct (writeQueue st); discriminate. }
    cbn [setInFlight enterTry record setQueue events thresholds writeQueue
         processingQueue submissions inFlight trace].
    split; [reflexivity|]. split; [exact Hstage|]. split; [exact Hid|].
    split; [reflexivity|]. split; [reflexivity|].
    eexists. split; [reflexivity|]. cbn [taken ordinal].
    repeat split.
Qed.

Lemma enqueueChainLog_trace (clk : Clock) (it : json) (st : State) :
  exists more,
    trace (enqueueChainLog c clk it st) = (trace st ++ more)%list
    /\ responses more = []
    /\ existsb isSaveThresholds more = false.
Proof.
  unfold enqueueChainLog. cbv zeta.
  match goal with |- context [if ?b then _ else _] => destruct b end.
  - unfold startWorker. cbv zeta.
    match goal with |- context [match ?q with [] => _ | _ :: _ => _ end] =>
      destruct q as [|w rest] end.
    + eexists [_]. simpl. repeat split.
    + eexists [_; _]. simpl. rewrite <- !app_assoc. repeat split.
  - eexists [_]. simpl. repeat split.
Qed.

(** The store, the queue and the worker after [finish]: one [pre-chain]
    record; for a flagged event whose queue item can be built, the
    [queued] record and the entry in the queue; when the item cannot be
    built, the error of the conversion. *)
Lemma finish_outcome (clk : Clock) (payload : json) (i : Intake)
  (stored1 : list (string * json)) (d : SystemValidation.Decision.t) (st4 : State) :
  let ff :=
    truthy (lookup "flagged" stored1) || inLocalFlagged i
    || isConfirm (SystemValidation.Decision.action d) in
  let run := finish c clk payload i stored1 d st4 in
  exists pre,
    stageOf pre = Some (JStr "pre-chain")
    /\ storedEventId pre = lookup "eventId" stored1
    /\ get pre "flagged" = Some (JBool ff)
    /\ thresholds (fst run) = thresholds st4
    /\ match (if ff then Some (queueItemOf c clk payload i d) else None) with
       | Some (Ret it) =>
           snd run = Ret tt
           /\ exists q,
                events (fst run) = (events st4 ++ [pre; q])%list
                /\ stageOf q = Some (JStr "queued")
                /\ storedEventId q = get it "eventId"
                /\ queuedAs it st4 (fst run)
       | Some (Throw m) =>
           snd run = Throw m
           /\ events (fst run) = (events st4 ++ [pre])%list
           /\ sameWorker st4 (fst run)
       | None =>
           snd run = Ret tt
           /\ events (fst run) = (events st4 ++ [pre])%list
           /\ sameWorker st4 (fst run)
       end.
Proof.
  cbv zeta. unfold finish. cbv zeta.
  set (ff := truthy (lookup "flagged" stored1) || inLocalFlagged i
             || isConfirm (SystemValidation.Decision.action d)).
  set (stored2 := setField "flagged" (JBool ff) stored1).
  exists (staged stored2 "pre-chain").
  split; [apply stageOf_staged|]. split.
  { rewrite storedEventId_staged. unfold stored2.
    now rewrite lookup_setField_other by discriminate. }
  split.
  { unfold staged, spread. simpl. rewrite lookup_setField_other by discriminate.
    apply lookup_setField_same. }
  destruct ff; cbn [negb].
  - destruct (queueItemOf c clk payload i d) as [it|m]; cbn [fst snd].
    + match goal with
      | |- context [enqueueChainLog c clk it ?s5] =>
          destruct (enqueueChainLog_state clk it s5) as (q & He & Hs & Hid & Ht & Hq)
      end.
      cbv zeta in He, Ht, Hq.
      split; [exact Ht|]. split; [reflexivity|].
      exists q. split.
      { cbn [record events]. rewrite He. cbn [emit appendEvent record events].
        rewrite <- app_assoc. reflexivity. }
      split; [exact Hs|]. split; [exact Hid|]. exact Hq.
    + split; [reflexivity|]. split; [reflexivity|].
      split; [reflexivity|]. repeat split.
  - cbn [fst snd]. split; [reflexivity|]. split; [reflexivity|].
    split; [reflexivity|]. repeat split.
Qed.

(** [finish] answers once with status 200, as the last thing it does,
    unless the queue item cannot be built: then it has not answered. *)
Lemma finish_trace (clk : Clock) (payload : json) (i : Intake)
  (stored1 : list (string * json)) (d : SystemValidation.Decision.t) (st4 : State) :
  let ff :=
    truthy (lookup "flagged" stored1) || inLocalFlagged i
    || isConfirm (SystemValidation.Decision.action d) in
  let run := finish c clk payload i stored1 d st4 in
  exists before,
    responses before = []
    /\ existsb isSaveThresholds before = false
    /\ match snd run with
       | Ret _ =>
           exists body,
             trace (fst run) = (trace st4 ++ before ++ [Respond 200 body])%list
             /\ get body "flagged" = Some (JBool ff)
             /\ get body "systemDecision" = Some (decisionJson d)
       | Throw m => trace (fst run) = (trace st4 ++ before)%list
       end.
Proof.
  cbv zeta. unfold finish. cbv zeta.
  destruct (truthy (lookup "flagged" stored1) || inLocalFlagged i
            || isConfirm (SystemValidation.Decision.action d)); cbn [negb].
  - destruct (queueItemOf c clk payload i d) as [it|m]; cbn [fst snd].
    + match goal with
      | |- context [enqueueChainLog c clk it ?s5] =>
          destruct (enqueueChainLog_trace clk it s5) as (more & Ht & Hr & Hs)
      end.
      match type of Ht with
      | context [emit "event_update" ?pre _] =>
          exists (AppendEvent pre :: Emit "event_update" pre :: more)%list
      end.
      split; [exact Hr|]. split; [exact Hs|].
      eexists. split.
      { cbn [record trace]. rewrite Ht. cbn [emit appendEvent record trace].
        rewrite <- !app_assoc. reflexivity. }
      split; reflexivity.
    + eexists [_; _]. split; [|split].
      3:{ cbn [emit appendEvent record trace]. rewrite <- !app_assoc. reflexivity. }
      all: reflexivity.
  - eexists [_; _]. split; [|split].
    3:{ eexists. split.
        { cbn [fst emit appendEvent record trace]. rewrite <- !app_assoc.
          reflexivity. }
        split; reflexivity. }
    all: reflexivity.
Qed.

(** [validationStep] sends no answer, and saves the thresholds exactly when
    the decision is [adjust_threshold_lower]. *)
Lemma validationStep_effects (groupId : string) (deviceId : json)
  (groupThreshold : number) (stored : list (string * json)) (st : State) :
  let v := validationStep validate groupId deviceId groupThreshold stored st in
  let d := stepDecision (validate (events st) groupId deviceId) in
  exists more,
    trace (snd v) = (trace st ++ more)%list
    /\ responses more = []
    /\ existsb isSaveThresholds more
       = match SystemValidation.Decision.action d with
         | SystemValidation.adjust_threshold_lower => true
         | _ => false
         end
    /\ (forall t, In (SaveThresholds t) more -> t = thresholds (snd v)).
Proof.
  unfold validationStep. cbv zeta.
  destruct (validate (events st) groupId deviceId) as [d|m]; cbn [fst snd stepDecision].
  - unfold applyDecision.
    destruct (SystemValidation.Decision.action d); cbn [fst snd].
    + eexists [_; _; _]. simpl. rewrite <- !app_assoc.
      split; [reflexivity|]. repeat split. intros t [H|[H|[H|[]]]]; discriminate.
    + eexists [_; _; _; _]. simpl. rewrite <- !app_assoc.
      split; [reflexivity|]. repeat split.
      intros t [H|[H|[H|[H|[]]]]]; discriminate.
    + eexists [_; _; _; _]. simpl. rewrite <- !app_assoc.
      split; [reflexivity|]. repeat split.
      intros t [H|[H|[H|[H|[]]]]]; discriminate.
    + eexists [_; _; _; _; _]. simpl. rewrite <- !app_assoc.
      split; [reflexivity|]. repeat split.
      intros t [H|[H|[H|[H|[H|[]]]]]]; try discriminate.
      now injection H as <-.
    + eexists [_; _; _]. simpl. rewrite <- !app_assoc.
      split; [reflexivity|]. repeat split. intros t [H|[H|[H|[]]]]; discriminate.
    + eexists [_; _; _]. simpl. rewrite <- !app_assoc.
      split; [reflexivity|]. repeat split. intros t [H|[H|[H|[]]]]; discriminate.
  - eexists [_; _]. simpl. rewrite <- !app_assoc.
    split; [reflexivity|]. repeat split. intros t [H|[H|[]]]; discriminate.
Qed.

(** An authenticated request for which step 4 goes through runs the three
    parts of the handler in turn; an error of the last part is answered
    with status 500. *)
Lemma postData_accepted (clk : Clock) (req : Request) (st : State) (i : Intake) :
  verifyApiKey cfg (credential req) = true ->
  intake cfg st (payloadOf req) = Ret i ->
  let stored := storedEventOf c clk (payloadOf req) i in
  let st3 :=
    emit "telemetry" (telemetryPayload c clk (payloadOf req) i)
      (emit "event_update" (receivedRecord c clk req i)
         (appendEvent (receivedRecord c clk req i) st)) in
  let v :=
    validationStep validate (inGroupId i) (inDeviceId i) (inThreshold i) stored st3 in
  let run := finish c clk (payloadOf req) i (fst (fst v)) (snd (fst v)) (snd v) in
  postData cfg c validate clk req st
  = match snd run with
    | Ret _ => fst run
    | Throw m => record (serverError m) (fst run)
    end.
Proof.
  intros Hv Hi. unfold postData. fold (credential req). rewrite Hv.
  cbn [negb]. unfold handlerBody. fold (payloadOf req). cbv zeta.
  rewrite Hi. reflexivity.
Qed.


(** The queue item carries the payload and the identifier of the event. *)
Lemma queueItemOf_fields (clk : Clock) (payload : json) (i : Intake)
  (d : SystemValidation.Decision.t) (it : json) :
  queueItemOf c clk payload i d = Ret it ->
  get it "payload" = Some payload
  /\ get it "eventId" = Some (eventIdOf clk payload)
  /\ get it "flagged" = Some (JBool true).
Proof.
  unfold queueItemOf.
  destruct (ToNumber _) as [o|m]; [|discriminate]. cbn [bind].
  destruct (ToNumber _) as [n|m]; [|discriminate]. cbn [bind].
  destruct (ToString _) as [r|m]; [|discriminate]. cbn [bind].
  destruct (ToNumber _) as [t|m]; [|discriminate]. cbn [bind].
  intros H. injection H as <-. repeat split.
Qed.

(** What an authenticated request for which step 4 goes through leaves in
    the store, in the thresholds, in the queue and with the worker. *)
Lemma postData_summary (clk : Clock) (req : Request) (st : State) (i : Intake) :
  verifyApiKey cfg (credential req) = true ->
  intake cfg st (payloadOf req) = Ret i ->
  let st' := postData cfg c validate clk req st in
  let d := decisionOf c validate clk req st i in
  exists rec pre,
    stageOf rec = Some (JStr (validationStage c validate clk req st i))
    /\ storedEventId rec = Some (requestEventId clk req)
    /\ stageOf pre = Some (JStr "pre-chain")
    /\ storedEventId pre = Some (requestEventId clk req)
    /\ get pre "flagged" = Some (JBool (finalFlagOf c validate clk req st i))
    /\ thresholds st'
       = match SystemValidation.Decision.action d with
         | SystemValidation.adjust_threshold_lower =>
             assignThreshold (inGroupId i)
               (JNum (newThresholdOf d (inThreshold i))) (thresholds st)
         | _ => thresholds st
         end
    /\ match (if finalFlagOf c validate clk req st i
              then Some (itemOf c validate clk req st i) else None) with
       | Some (Ret it) =>
           exists q,
             events st'
             = (events st ++ [receivedRecord c clk req i; rec; pre; q])%list
             /\ stageOf q = Some (JStr "queued")
             /\ storedEventId q = Some (requestEventId clk req)
             /\ queuedAs it st st'
       | _ =>
           events st' = (events st ++ [receivedRecord c clk req i; rec; pre])%list
           /\ sameWorker st st'
       end.
Proof.
  intros Hv Hi. cbv zeta. rewrite (postData_accepted clk req st i Hv Hi). cbv zeta.
  match goal with
  | |- context [finish c clk ?p ?j (fst (fst ?v)) (snd (fst ?v)) (snd ?v)] =>
      destruct (finish_outcome clk p j (fst (fst v)) (snd (fst v)) (snd v))
        as (pre & Hst & Hid & Hfl & Ht & Hcase);
      match v with
      | validationStep _ ?g ?dv ?T ?sto ?s3 =>
          destruct (validationStep_outcome g dv T sto s3)
            as (Hd & Vid & Vfl & (rec & Ve & Vst & Vrid) & Vw & Vt)
      end
  end.
  cbv zeta in Hfl, Ht, Hcase, Hd, Vid, Vfl, Ve, Vst, Vrid, Vw, Vt.
  rewrite Hd in Hcase, Hfl, Ht |- *. rewrite Vfl in Hcase, Hfl by reflexivity.
  change (validate _ _ _) with (analysisOf c validate clk req st i)
    in Hcase, Hfl, Ht, Vst, Vt |- *.
  fold (decisionOf c validate clk req st i) in Hcase, Hfl, Ht, Vt |- *.
  fold (validationStage c validate clk req st i) in Vst.
  fold (itemOf c validate clk req st i) in Hcase.
  assert (Hflag :
    isConfirm (SystemValidation.Decision.action (decisionOf c validate clk req st i))
    || inLocalFlagged i
    || isConfirm (SystemValidation.Decision.action (decisionOf c validate clk req st i))
    = finalFlagOf c validate clk req st i).
  { unfold finalFlagOf. destruct (isConfirm _), (inLocalFlagged i); reflexivity. }
  rewrite Hflag in Hcase, Hfl.
  destruct Vw as (Vq & Vp & Vs & Vf).
  cbn [emit appendEvent record writeQueue processingQueue submissions inFlight
       thresholds events] in Vq, Vp, Vs, Vf, Vt, Ve.
  exists rec, pre.
  split; [exact Vst|].
  split; [rewrite Vrid; reflexivity|].
  split; [exact Hst|].
  split; [rewrite Hid, Vid; reflexivity|].
  split; [exact Hfl|].
  destruct (finalFlagOf c validate clk req st i).
  - destruct (itemOf c validate clk req st i) as [it|m] eqn:Hit.
    + destruct Hcase as (Hsnd & q & He & Hqs & Hqid & Hqa).
      rewrite Hsnd. split; [rewrite Ht; exact Vt|].
      exists q. split.
      { rewrite He, Ve. rewrite <- !app_assoc. reflexivity. }
      split; [exact Hqs|]. split.
      { rewrite Hqid.
        exact (proj1 (proj2 (queueItemOf_fields clk _ i _ it Hit))). }
      unfold queuedAs in *. rewrite Vp, Vq, Vs, Vf in Hqa. exact Hqa.
    + destruct Hcase as (Hsnd & He & Hq & Hp & Hs & Hf).
      rewrite Hsnd. cbn [record thresholds events].
      split; [rewrite Ht; exact Vt|].
      split.
      { rewrite He, Ve. rewrite <- !app_assoc. reflexivity. }
      unfold sameWorker. cbn [record writeQueue processingQueue submissions inFlight].
      rewrite Hq, Hp, Hs, Hf. auto.
  - destruct Hcase as (Hsnd & He & Hq & Hp & Hs & Hf).
    rewrite Hsnd. split; [rewrite Ht; exact Vt|].
    split.
    { rewrite He, Ve. rewrite <- !app_assoc. reflexivity. }
    unfold sameWorker. rewrite Hq, Hp, Hs, Hf. auto.
Qed.

(** The effects of such a request: no answer before the last effect, which
    is the answer; the thresholds saved exactly on a decision that lowers
    one. *)
Lemma postData_effects (clk : Clock) (req : Request) (st : State) (i : Intake) :
  verifyApiKey cfg (credential req) = true ->
  intake cfg st (payloadOf req) = Ret i ->
  let st' := postData cfg c validate clk req st in
  let d := decisionOf c validate clk req st i in
  exists before last,
    trace st' = (trace st ++ before ++ [last])%list
    /\ responses before = []
    /\ existsb isSaveThresholds before
       = match SystemValidation.Decision.action d with
         | SystemValidation.adjust_threshold_lower => true
         | _ => false
         end
    /\ (forall t, In (SaveThresholds t) before -> t = thresholds st')
    /\ match (if finalFlagOf c validate clk req st i
              then Some (itemOf c validate clk req st i) else None) with
       | Some (Throw m) => last = serverError m
       | _ =>
           exists body,
             last = Respond 200 body
             /\ get body "flagged"
                = Some (JBool (finalFlagOf c validate clk req st i))
             /\ get body "systemDecision" = Some (decisionJson d)
       end.
Proof.
  intros Hv Hi. cbv zeta. rewrite (postData_accepted clk req st i Hv Hi). cbv zeta.
  match goal with
  | |- context [finish c clk ?p ?j (fst (fst ?v)) (snd (fst ?v)) (snd ?v)] =>
      destruct (finish_outcome clk p j (fst (fst v)) (snd (fst v)) (snd v))
        as (pre & _ & _ & _ & Ht & Hcase);
      destruct (finish_trace clk p j (fst (fst v)) (snd (fst v)) (snd v))
        as (before & Hr & Hsave & Htr);
      match v with
      | validationStep _ ?g ?dv ?T ?sto ?s3 =>
          destruct (validationStep_outcome g dv T sto s3)
            as (Hd & _ & Vfl & _);
          destruct (validationStep_effects g dv T sto s3)
            as (more & Vtr & Vr & Vsave & Vwhich)
      end
  end.
  cbv zeta in Ht, Hcase, Htr, Hd, Vfl, Vtr, Vsave, Vwhich.
  rewrite Hd in Hcase, Htr, Ht |- *. rewrite Vfl in Hcase, Htr by reflexivity.
  change (validate _ _ _) with (analysisOf c validate clk req st i)
    in Hcase, Htr, Ht, Vsave |- *.
  fold (decisionOf c validate clk req st i) in Hcase, Htr, Ht, Vsave |- *.
  fold (itemOf c validate clk req st i) in Hcase.
  assert (Hflag :
    isConfirm (SystemValidation.Decision.action (decisionOf c validate clk req st i))
    || inLocalFlagged i
    || isConfirm (SystemValidation.Decision.action (decisionOf c validate clk req st i))
    = finalFlagOf c validate clk req st i).
  { unfold finalFlagOf. destruct (isConfirm _), (inLocalFlagged i); reflexivity. }
  rewrite Hflag in Hcase, Htr.
  cbn [emit appendEvent record trace] in Vtr.
  match type of Vtr with
  | _ = ((((_ ++ [?e1]) ++ [?e2]) ++ [?e3]) ++ more)%list =>
      pose (a1 := e1); pose (a2 := e2); pose (a3 := e3)
  end.
  exists (a1 :: a2 :: a3 :: more ++ before)%list.
  assert (Hresp : responses (a1 :: a2 :: a3 :: more ++ before) = [])
    by (change (responses (more ++ before) = []);
        rewrite responses_app, Vr, Hr; reflexivity).
  assert (Hsaved : existsb isSaveThresholds (a1 :: a2 :: a3 :: more ++ before)
                   = match SystemValidation.Decision.action
                             (decisionOf c validate clk req st i) with
                     | SystemValidation.adjust_threshold_lower => true
                     | _ => false
                     end)
    by (unfold a1, a2, a3; cbn [existsb isSaveThresholds orb];
        rewrite existsb_app, Vsave, Hsave; apply orb_false_r).
  match type of Ht with
  | thresholds ?X = _ =>
      assert (Hwhich : forall t,
                 In (SaveThresholds t) (a1 :: a2 :: a3 :: more ++ before)%list ->
                 t = thresholds X)
  end.
  { intros t [H|[H|[H|H]]]; try (unfold a1, a2, a3 in H; discriminate).
    apply in_app_or in H as [H|H].
    - rewrite Ht. exact (Vwhich t H).
    - exfalso. assert (K : existsb isSaveThresholds before = true)
        by (apply existsb_exists; exists (SaveThresholds t); auto).
      rewrite Hsave in K. discriminate. }
  assert (Hgrow : forall l : list Effect,
             (((((trace st ++ [a1]) ++ [a2]) ++ [a3]) ++ more) ++ before ++ l
              = trace st ++ (a1 :: a2 :: a3 :: more ++ before) ++ l)%list).
  { intros l. simpl. rewrite <- !app_assoc. reflexivity. }
  destruct (finalFlagOf c validate clk req st i).
  - destruct (itemOf c validate clk req st i) as [it|m].
    + destruct Hcase as (Hsnd & _). rewrite Hsnd in Htr |- *.
      destruct Htr as (body & Htr & Hbf & Hbd).
      exists (Respond 200 body). split.
      { rewrite Htr, Vtr. apply Hgrow. }
      split; [exact Hresp|]. split; [exact Hsaved|].
      split; [exact Hwhich|].
      exists body. auto.
    + destruct Hcase as (Hsnd & _). rewrite Hsnd in Htr |- *.
      exists (serverError m). split.
      { cbn [record trace]. rewrite Htr, Vtr.
        rewrite <- (app_assoc _ before [serverError m]). apply Hgrow. }
      split; [exact Hresp|]. split; [exact Hsaved|].
      split; [exact Hwhich|].
      reflexivity.
  - destruct Hcase as (Hsnd & _). rewrite Hsnd in Htr |- *.
    destruct Htr as (body & Htr & Hbf & Hbd).
    exists (Respond 200 body). split.
    { rewrite Htr, Vtr. apply Hgrow. }
    split; [exact Hresp|]. split; [exact Hsaved|].
    split; [exact Hwhich|].
    exists body. auto.
Qed.





(** X18. Every submission is answered exactly once, as the last effect of
    the gateway for it: by [express.json()] with its own status when it
    refuses the body; with status 401 when the credential is refused; with
    status 500 and the message of the error when step 4 throws or the
    queue item of a flagged event cannot be built; and otherwise with
    status 200, the flag and the decision. *)
Theorem every_submission_is_answered_once
  (clk : Clock) (s : Submission) (st : State) :
  let st' := receive cfg c validate clk s st in
  exists before last,
    trace st' = (trace st ++ before ++ [last])%list
    /\ responses before = []
    /\ isRespond last = true
    /\ (forall status page,
          parse s = ParseError status page ->
          before = [] /\ last = Respond status (JStr page))
    /\ (forall b,
          parse s = ParsedBody b ->
          let req := mkRequest (sentHeaders s) b in
          (verifyApiKey cfg (credential req) = false ->
           before = []
           /\ last = Respond 401 (JObj [ ("error", JStr "invalid api key") ]))
          /\ (forall m,
                verifyApiKey cfg (credential req) = true ->
                intake cfg st (payloadOf req) = Throw m ->
                before = [] /\ last = serverError m)
          /\ (forall i,
                verifyApiKey cfg (credential req) = true ->
                intake cfg st (payloadOf req) = Ret i ->
                match (if finalFlagOf c validate clk req st i
                       then Some (itemOf c validate clk req st i) else None) with
                | Some (Throw m) => last = serverError m
                | _ =>
                    exists body,
                      last = Respond 200 body
                      /\ get body "flagged"
                         = Some (JBool (finalFlagOf c validate clk req st i))
                      /\ get body "systemDecision"
                         = Some (decisionJson (decisionOf c validate clk req st i))
                end)).
Proof.
  cbv zeta. unfold receive.
  destruct (parse s) as [status page|b].
  { exists [], (Respond status (JStr page)).
    split; [reflexivity|]. split; [reflexivity|]. split; [reflexivity|].
    split; [|intros; discriminate].
    intros ? ? H. injection H as <- <-. auto. }
  set (req := mkRequest (sentHeaders s) b).
  destruct (verifyApiKey cfg (credential req)) eqn:Hv.
  - destruct (intake cfg st (payloadOf req)) as [i|m] eqn:Hi.
    + destruct (postData_effects clk req st i Hv Hi)
        as (before & last & Ht & Hr & _ & _ & Hlast).
      cbv zeta in Ht, Hlast.
      exists before, last. split; [exact Ht|]. split; [exact Hr|].
      split.
      { destruct (if finalFlagOf c validate clk req st i
                  then Some (itemOf c validate clk req st i) else None)
          as [[it|m]|].
        - destruct Hlast as (body & -> & _). reflexivity.
        - rewrite Hlast. reflexivity.
        - destruct Hlast as (body & -> & _). reflexivity. }
      split; [intros; discriminate|].
      intros b' Hb. injection Hb as <-. fold req.
      split; [intros H; congruence|]. split; [intros m H H'; congruence|].
      intros i' _ Hi'. rewrite Hi in Hi'. injection Hi' as <-. exact Hlast.
    + exists [], (serverError m).
      rewrite (postData_unreadable cfg c validate clk req st m Hv Hi).
      split; [reflexivity|]. split; [reflexivity|]. split; [reflexivity|].
      split; [intros; discriminate|].
      intros b' Hb. injection Hb as <-. fold req.
      split; [intros H; congruence|]. split; [|intros i' H H'; congruence].
      intros m' _ Hm'. rewrite Hi in Hm'. injection Hm' as <-. auto.
  - exists [], (Respond 401 (JObj [ ("error", JStr "invalid api key") ])).
    rewrite (postData_refused cfg c validate clk req st Hv).
    split; [reflexivity|]. split; [reflexivity|]. split; [reflexivity|].
    split; [intros; discriminate|].
    intros b' Hb. injection Hb as <-. fold req.
    split; [auto|]. split; intros; congruence.
Qed.

Lemma lookup_assignThreshold_other (g g' : string) (v : json)
  (fields : list (string * json)) :
  g' <> g -> lookup g' (assignThreshold g v fields) = lookup g' fields.
Proof.
  intros Hne. unfold assignThreshold.
  destruct (lookup g fields); [|destruct (String.eqb g "__proto__")];
    try reflexivity; now rewrite lookup_setField_other by congruence.
Qed.

Lemma lookup_assignThreshold_same (g : string) (v : json)
  (fields : list (string * json)) :
  g <> "__proto__" \/ lookup g fields <> None ->
  lookup g (assignThreshold g v fields) = Some v.
Proof.
  intros H. unfold assignThreshold.
  destruct (lookup g fields) eqn:Hl.
  - apply lookup_setField_same.
  - destruct (String.eqb g "__proto__") eqn:E.
    + apply String.eqb_eq in E. destruct H as [H|H]; contradiction.
    + apply lookup_setField_same.
Qed.

(** X19. A request with the configured key changes the thresholds only
    when the decision is [adjust_threshold_lower].  Then
    [thresholds[groupId] = Number(systemDecision.newThreshold ||
    groupThreshold)] is executed and the map is saved as it then is: the
    new value is what [computeGroupThreshold] returns next for the group,
    unless the group is named [__proto__] and the map has no property of
    that name of its own, in which case the assignment changes nothing;
    the thresholds of every other group are read as before. *)
Theorem threshold_changes_only_on_adjust_decision
  (clk : Clock) (req : Request) (st : State) :
  verifyApiKey cfg (credential req) = true ->
  let st' := postData cfg c validate clk req st in
  (forall m, intake cfg st (payloadOf req) = Throw m ->
     thresholds st' = thresholds st)
  /\ (forall i,
        intake cfg st (payloadOf req) = Ret i ->
        let d := decisionOf c validate clk req st i in
        let g := inGroupId i in
        let T := newThresholdOf d (inThreshold i) in
        match SystemValidation.Decision.action d with
        | SystemValidation.adjust_threshold_lower =>
            thresholds st' = assignThreshold g (JNum T) (thresholds st)
            /\ (g <> "__proto__" \/ lookup g (thresholds st) <> None ->
                computeGroupThreshold cfg st' g = Ret T)
            /\ (g = "__proto__" -> lookup g (thresholds st) = None ->
                thresholds st' = thresholds st)
            /\ (forall g', g' <> g ->
                  computeGroupThreshold cfg st' g'
                  = computeGroupThreshold cfg st g')
            /\ In (SaveThresholds (thresholds st')) (trace st')
        | _ => thresholds st' = thresholds st
        end).
Proof.
  intros Hv. cbv zeta. split.
  - intros m Hm. rewrite (postData_unreadable cfg c validate clk req st m Hv Hm).
    reflexivity.
  - intros i Hi.
    destruct (postData_summary clk req st i Hv Hi)
      as (rec & pre & _ & _ & _ & _ & _ & Ht & _).
    destruct (postData_effects clk req st i Hv Hi)
      as (before & last & Htr & _ & Hsave & Hwhich & _).
    cbv zeta in Ht, Htr, Hsave, Hwhich.
    destruct (SystemValidation.Decision.action (decisionOf c validate clk req st i));
      try exact Ht.
    split; [exact Ht|]. split; [|split; [|split]].
    + intros Hown. unfold computeGroupThreshold. rewrite Ht.
      rewrite (lookup_assignThreshold_same _ _ _ Hown). reflexivity.
    + intros Hg Hl. rewrite Ht. unfold assignThreshold. rewrite Hl.
      apply String.eqb_eq in Hg. now rewrite Hg.
    + intros g' Hg'. unfold computeGroupThreshold. rewrite Ht.
      now rewrite (lookup_assignThreshold_other _ _ _ _ Hg').
    + apply existsb_exists in Hsave as (e & Hin & He).
      destruct e; try discriminate.
      rewrite <- (Hwhich _ Hin).
      rewrite Htr. apply in_or_app. right. apply in_or_app. now left.
Qed.

End Handler.

(** X21. With the analysis as shipped, whatever the two reads of the
    history return, no request changes a threshold or saves the threshold
    map: every request, authenticated or not, leaves the thresholds as
    they were. *)
Theorem shipped_gateway_never_changes_a_threshold {rt : Runtime}
  (cfg : Config) (c : Chain)
  (localOf : list json -> string -> json -> list SystemValidation.TrendPoint)
  (chainOf : string -> SystemValidation.ChainRead)
  (clk : Clock) (req : Request) (st : State) :
  let st' := postData cfg c (shippedValidate localOf chainOf) clk req st in
  thresholds st' = thresholds st
  /\ (forall g, computeGroupThreshold cfg st' g = computeGroupThreshold cfg st g)
  /\ exists more,
       trace st' = (trace st ++ more)%list
       /\ existsb isSaveThresholds more = false.
Proof.
  cbv zeta.
  assert (Hmain :
    thresholds (postData cfg c (shippedValidate localOf chainOf) clk req st)
    = thresholds st
    /\ exists more,
         trace (postData cfg c (shippedValidate localOf chainOf) clk req st)
         = (trace st ++ more)%list
         /\ existsb isSaveThresholds more = false).
  { destruct (verifyApiKey cfg (credential req)) eqn:Hv.
    - destruct (intake cfg st (payloadOf req)) as [i|m] eqn:Hi.
      + destruct (postData_summary cfg c (shippedValidate localOf chainOf)
                    clk req st i Hv Hi)
          as (rec & pre & _ & _ & _ & _ & _ & Ht & _).
        destruct (postData_effects cfg c (shippedValidate localOf chainOf)
                    clk req st i Hv Hi)
          as (before & last & Htr & _ & Hsave & _ & Hlast).
        cbv zeta in Ht, Htr, Hsave, Hlast.
        destruct (DecisionTable.systemValidate_keeps_thresholds
                    (localOf (events st ++ [receivedRecord c clk req i])%list
                       (inGroupId i) (inDeviceId i))
                    (chainOf (inGroupId i)))
          as (d & Hd & Hact & _).
        assert (Hdec : decisionOf c (shippedValidate localOf chainOf) clk req st i = d).
        { unfold decisionOf, analysisOf, shippedValidate. rewrite Hd. reflexivity. }
        rewrite Hdec in Ht, Hsave.
        assert (Hkeep :
          match SystemValidation.Decision.action d with
          | SystemValidation.adjust_threshold_lower => true
          | _ => false
          end = false)
          by (destruct (SystemValidation.Decision.action d); congruence).
        split.
        * rewrite Ht.
          destruct (SystemValidation.Decision.action d); try reflexivity.
          now contradiction Hact.
        * exists (before ++ [last])%list. split; [exact Htr|].
          rewrite existsb_app, Hsave, Hkeep. cbn [orb existsb].
          destruct (if finalFlagOf c (shippedValidate localOf chainOf) clk req st i
                    then Some (itemOf c (shippedValidate localOf chainOf) clk req st i)
                    else None) as [[it|m]|].
          -- destruct Hlast as (body & -> & _). reflexivity.
          -- rewrite Hlast. reflexivity.
          -- destruct Hlast as (body & -> & _). reflexivity.
      + rewrite (postData_unreadable cfg c _ clk req st m Hv Hi).
        split; [reflexivity|]. eexists. split; reflexivity.
    - rewrite (postData_refused cfg c _ clk req st Hv).
      split; [reflexivity|]. eexists. split; reflexivity. }
  destruct Hmain as [Ht Htr]. split; [exact Ht|]. split; [|exact Htr].
  intros g. unfold computeGroupThreshold. now rewrite Ht.
Qed.




(** X19 at a decision that lowers the threshold of [group-1] to 55. *)
Lemma threshold_changes_only_on_adjust_decision_witness :
  @computeGroupThreshold sampleRuntime sampleConfig
    (@postData sampleRuntime sampleConfig disabledChain lowering sampleClock
       steadyRequest emptyState)
    "group-1"
  = Ret (Fin 55)
  /\ In (SaveThresholds
           (thresholds
              (@postData sampleRuntime sampleConfig disabledChain lowering
                 sampleClock steadyRequest emptyState)))
       (trace (@postData sampleRuntime sampleConfig disabledChain lowering
                 sampleClock steadyRequest emptyState)).
Proof.
  pose proof (proj2 (@threshold_changes_only_on_adjust_decision sampleRuntime
                       sampleConfig disabledChain lowering sampleClock
                       steadyRequest emptyState eq_refl)
                steadyIntake eq_refl) as H.
  cbv zeta in H.
  assert (Hd : SystemValidation.Decision.action
                 (@decisionOf sampleRuntime disabledChain lowering sampleClock
                    steadyRequest emptyState steadyIntake)
               = SystemValidation.adjust_threshold_lower) by reflexivity.
  rewrite Hd in H. destruct H as (_ & Ha & _ & _ & Hc).
  split; [|exact Hc].
  apply Ha. left. discriminate.
Defined.

End LifecycleFacts.

(** ** The sensor node *)

Module NodeFacts.
Import Firmware NodeSpec.
Local Open Scope string_scope.
Local Open Scope Z_scope.

Lemma int32_small (z : Z) : - 2147483648 <= z < 2147483648 -> int32 z = z.
Proof.
  intros H. unfold int32.
  change (2 ^ 31) with 2147483648. change (2 ^ 32) with 4294967296.
  rewrite Z.mod_small; lia.
Qed.

(** One score after the update and the clamp of [loop]. *)
Lemma updateTrust_bound (dist lastDist trust : Z) :
  0 <= trust <= 100 ->
  let trust' := constrain (updateTrust dist lastDist trust) 0 100 in
  0 <= trust' <= 100 /\ - 1 <= trust' - trust <= 1.
Proof.
  intros H. cbv zeta. unfold updateTrust, constrain, max, min.
  rewrite (int32_small (trust - 1)) by lia.
  rewrite (int32_small (trust + 1)) by lia.
  repeat match goal with
         | |- context [if ?b then _ else _] => destruct b eqn:?
         | E : context [if ?b then _ else _] |- _ => destruct b eqn:?
         end;
    repeat match goal with
           | E : (_ <? _)%Z = true |- _ => apply Z.ltb_lt in E
           | E : (_ <? _)%Z = false |- _ => apply Z.ltb_ge in E
           end; lia.
Qed.

Lemma computeAndResetRPM_keeps (now pulses : Z) (n : Node) :
  let n' := computeAndResetRPM now pulses n in
  trustA n' = trustA n /\ trustB n' = trustB n
  /\ lastDistA n' = lastDistA n /\ lastDistB n' = lastDistB n
  /\ lastPostTime n' = lastPostTime n.
Proof.
  cbv zeta. unfold computeAndResetRPM.
  destruct (1000 <=? uint32 (now - lastRPMTime n))%Z; repeat split.
Qed.

Lemma doPostIfNeeded_keeps (dA dB pA pB : Z) (i : Inputs) (n : Node) :
  let n' := fst (doPostIfNeeded dA dB pA pB i n) in
  trustA n' = trustA n /\ trustB n' = trustB n
  /\ lastDistA n' = lastDistA n /\ lastDistB n' = lastDistB n.
Proof.
  cbv zeta. unfold doPostIfNeeded. cbv zeta.
  destruct (computeAndResetRPM_keeps (postRpmClock i) (postRpmPulses i) n)
    as (Ha & Hb & Hla & Hlb & _).
  cbv zeta in Ha, Hb, Hla, Hlb.
  destruct (reportOf _ _ _ _ _ _ _); cbn [fst trustA trustB lastDistA lastDistB];
    auto.
Qed.

(** The scores that a pass of [loop] leaves. *)
Lemma loop_scores (i : Inputs) (n : Node) :
  trustA (fst (loop i n))
  = constrain (updateTrust (echoA i) (lastDistA n) (trustA n)) 0 100
  /\ trustB (fst (loop i n))
     = constrain (updateTrust (echoB i) (lastDistB n) (trustB n)) 0 100.
Proof.
  unfold loop. cbv zeta. cbn [fst].
  destruct (connected i).
  - match goal with
    | |- context [doPostIfNeeded ?a ?b ?c ?d i ?m] =>
        destruct (doPostIfNeeded_keeps a b c d i m) as (Ha & Hb & _);
        match m with
        | computeAndResetRPM ?t ?p ?k =>
            destruct (computeAndResetRPM_keeps t p k) as (Ka & Kb & _)
        end
    end.
    cbv zeta in Ha, Hb, Ka, Kb. rewrite Ha, Hb, Ka, Kb. split; reflexivity.
  - match goal with
    | |- context [computeAndResetRPM ?t ?p ?k] =>
        destruct (computeAndResetRPM_keeps t p k) as (Ka & Kb & _)
    end.
    cbv zeta in Ka, Kb. cbn [fst]. rewrite Ka, Kb. split; reflexivity.
Qed.

Lemma loop_inRange (i : Inputs) (n : Node) :
  inRange n ->
  inRange (fst (loop i n))
  /\ - 1 <= trustA (fst (loop i n)) - trustA n <= 1
  /\ - 1 <= trustB (fst (loop i n)) - trustB n <= 1.
Proof.
  intros [HA HB]. destruct (loop_scores i n) as [-> ->].
  destruct (updateTrust_bound (echoA i) (lastDistA n) (trustA n) HA) as [? ?].
  destruct (updateTrust_bound (echoB i) (lastDistB n) (trustB n) HB) as [? ?].
  unfold inRange. destruct (loop_scores i n) as [-> ->]. repeat split; lia.
Qed.

(** X23. From scores between 0 and 100, as they are after [setup],
    every sequence of passes of [loop] leaves both scores between 0 and
    100, and a score moves by at most one per pass. *)
Theorem scores_stay_in_range_and_move_by_one (inputs : list Inputs) (n : Node) :
  inRange n ->
  inRange (fst (run inputs n))
  /\ Z.abs (trustA (fst (run inputs n)) - trustA n) <= Z.of_nat (List.length inputs)
  /\ Z.abs (trustB (fst (run inputs n)) - trustB n) <= Z.of_nat (List.length inputs).
Proof.
  revert n. induction inputs as [|i rest IH]; intros n Hn.
  - simpl. split; [exact Hn|]. split; rewrite Z.sub_diag; simpl; lia.
  - destruct (loop_inRange i n Hn) as (H1 & HA & HB).
    destruct (IH (fst (loop i n)) H1) as (H2 & KA & KB).
    cbn [run fst]. split; [exact H2|].
    change (List.length (i :: rest)) with (S (List.length rest)).
    rewrite Nat2Z.inj_succ. split; lia.
Qed.

Lemma bodies_app (a b : list Effect) :
  bodies (a ++ b) = (bodies a ++ bodies b)%list.
Proof.
  induction a as [|e a IH]; [reflexivity|].
  destruct e; simpl; rewrite ?IH; reflexivity.
Qed.

(** The report of a pass in which the scores moved by at most one. *)
Lemma reportOf_plausible (dA dB pA pB now rnd : Z) (n : Node) (r : Report) :
  0 <= trustA n <= 100 -> 0 <= trustB n <= 100 ->
  0 <= pA <= 100 -> 0 <= pB <= 100 ->
  - 1 <= trustA n - pA <= 1 -> - 1 <= trustB n - pB <= 1 ->
  reportOf dA dB pA pB now rnd n = Some r ->
  plausible r
  /\ DEBOUNCE_MS <= uint32 (now - lastPostTime n)
  /\ (lowTrust r = true \/ POST_INTERVAL_MS <= uint32 (now - lastPostTime n))
  /\ newTS r = trustA n /\ reportTrustB r = trustB n /\ oldTS r = pA.
Proof.
  intros HA HB HpA HpB HdA HdB. unfold reportOf. cbv zeta.
  assert (HmA : (3 <=? abs (int32 (trustA n - pA)))%Z = false).
  { rewrite int32_small by lia. unfold abs.
    destruct (0 <? trustA n - pA)%Z; [|rewrite int32_small by lia];
      apply Z.leb_gt; lia. }
  assert (HmB : (3 <=? abs (int32 (trustB n - pB)))%Z = false).
  { rewrite int32_small by lia. unfold abs.
    destruct (0 <? trustB n - pB)%Z; [|rewrite int32_small by lia];
      apply Z.leb_gt; lia. }
  rewrite HmA, HmB. cbn [orb].
  destruct ((trustA n <? TRUST_THRESHOLD)%Z || (trustB n <? TRUST_THRESHOLD)%Z)
    eqn:Hlow;
    destruct (POST_INTERVAL_MS <=? uint32 (now - lastPostTime n))%Z eqn:Hint;
    cbn [orb negb]; try discriminate;
    destruct (uint32 (now - lastPostTime n) <? DEBOUNCE_MS)%Z eqn:Hdeb;
    try discriminate;
    intros Hr; injection Hr as <-;
    apply Z.ltb_ge in Hdeb;
    (split; [|split; [exact Hdeb|split; [|repeat split]]]).
  - unfold plausible, lowTrust. cbn. rewrite Hlow. repeat split; lia.
  - left. unfold lowTrust. cbn. exact Hlow.
  - unfold plausible, lowTrust. cbn. rewrite Hlow. repeat split; lia.
  - left. unfold lowTrust. cbn. exact Hlow.
  - unfold plausible, lowTrust. cbn. rewrite Hlow. repeat split; lia.
  - right. apply Z.leb_le in Hint. exact Hint.
Qed.

Lemma motor_is_silent (b : bool) (v : Z) :
  bodies ([DigitalWrite IN1 b; DigitalWrite IN2 false] ++ pwmWrite ENA v) = [].
Proof. reflexivity. Qed.

(** What a pass posts: nothing, or one report, sent a second time when the
    first attempt returned no status. *)
Lemma loop_bodies (i : Inputs) (n : Node) :
  inRange n ->
  (bodies (snd (loop i n)) = []
   /\ lastPostTime (fst (loop i n)) = lastPostTime n)
  \/ (exists r,
        bodies (snd (loop i n))
        = (if (0 <? code1 i)%Z then [jsonData r] else [jsonData r; jsonData r])
        /\ plausible r
        /\ connected i = true
        /\ DEBOUNCE_MS <= sinceLastPost i n
        /\ (lowTrust r = true \/ POST_INTERVAL_MS <= sinceLastPost i n)
        /\ lastPostTime (fst (loop i n)) = postClock i
        /\ newTS r = trustA (fst (loop i n))
        /\ reportTrustB r = trustB (fst (loop i n))
        /\ oldTS r = trustA n).
Proof.
  intros Hn.
  destruct (loop_inRange i n Hn) as ([HA HB] & HdA & HdB).
  destruct (loop_scores i n) as [EA EB].
  destruct Hn as [HpA HpB].
  rewrite EA in HA, HdA. rewrite EB in HB, HdB. rewrite EA, EB.
  unfold loop. cbv zeta. cbn [fst snd].
  rewrite bodies_app.
  match goal with
  | |- context [bodies (if ?c then ?a else ?b)] =>
      assert (Hm : bodies (if c then a else b) = [])
        by (destruct c; reflexivity);
      rewrite Hm; clear Hm
  end.
  rewrite bodies_app. cbn [bodies app]. rewrite app_nil_r.
  destruct (connected i) eqn:Hc.
  - unfold doPostIfNeeded. cbv zeta.
    match goal with
    | |- context [computeAndResetRPM (postRpmClock i) (postRpmPulses i) ?m] =>
        set (n1 := m);
        destruct (computeAndResetRPM_keeps (postRpmClock i) (postRpmPulses i) n1)
          as (Ka & Kb & _ & _ & Kp);
        set (n2 := computeAndResetRPM (postRpmClock i) (postRpmPulses i) n1) in *
    end.
    cbv zeta in Ka, Kb, Kp.
    assert (K1 : trustA n1 = constrain (updateTrust (echoA i) (lastDistA n) (trustA n)) 0 100
                 /\ trustB n1 = constrain (updateTrust (echoB i) (lastDistB n) (trustB n)) 0 100
                 /\ lastPostTime n1 = lastPostTime n).
    { subst n1.
      match goal with
      | |- context [computeAndResetRPM ?t ?p ?k] =>
          destruct (computeAndResetRPM_keeps t p k) as (Ja & Jb & _ & _ & Jp)
      end.
      cbv zeta in Ja, Jb, Jp. rewrite Ja, Jb, Jp. repeat split. }
    destruct K1 as (K1a & K1b & K1p).
    destruct (reportOf (echoA i) (echoB i) (trustA n) (trustB n) (postClock i)
                (dice i) n2) as [r|] eqn:Hr.
    + right. exists r.
      destruct (reportOf_plausible (echoA i) (echoB i) (trustA n) (trustB n)
                  (postClock i) (dice i) n2 r)
        as (Hpl & Hdeb & Hwhy & RA & RB & RO);
        try (rewrite ?Ka, ?Kb, ?K1a, ?K1b; lia); try exact Hr.
      rewrite Kp, K1p in Hdeb, Hwhy.
      rewrite Ka, K1a in RA. rewrite Kb, K1b in RB.
      cbn [fst snd lastPostTime].
      split.
      { destruct (0 <? code1 i)%Z; reflexivity. }
      split; [exact Hpl|]. split; [reflexivity|]. split; [exact Hdeb|].
      split; [exact Hwhy|]. split; [reflexivity|]. split; [exact RA|].
      split; [exact RB | exact RO].
    + left. cbn [fst snd bodies]. split; [reflexivity|].
      rewrite Kp, K1p. reflexivity.
  - left. cbn [fst snd bodies]. split; [reflexivity|].
    match goal with
    | |- context [computeAndResetRPM ?t ?p ?k] =>
        destruct (computeAndResetRPM_keeps t p k) as (_ & _ & _ & _ & Jp)
    end.
    cbv zeta in Jp. rewrite Jp. reflexivity.
Qed.

(** X24. Along every sequence of passes from scores between 0 and 100,
    every body the node posts is the text of a report whose scores are
    between 0 and 100, whose [newTS] is the score of sensor A and differs
    from [oldTS] by at most one, and whose reason is [LOW_TRUST] when a
    score is below 60 and [PERIODIC] otherwise: the reason [TRUST_CHANGE] is
    never sent. *)
Theorem node_never_reports_a_trust_change (inputs : list Inputs) (n : Node) :
  inRange n ->
  forall body,
    In body (bodies (snd (run inputs n))) ->
    exists r,
      body = jsonData r /\ plausible r /\ reason r <> "TRUST_CHANGE".
Proof.
  revert n. induction inputs as [|i rest IH]; intros n Hn body Hin.
  - destruct Hin.
  - cbn [run snd] in Hin. rewrite bodies_app in Hin.
    apply in_app_or in Hin as [Hin|Hin].
    + destruct (loop_bodies i n Hn) as [[Hnone _]|(r & Hb & Hpl & _)].
      * rewrite Hnone in Hin. destruct Hin.
      * rewrite Hb in Hin.
        assert (Hbody : body = jsonData r).
        { destruct (0 <? code1 i)%Z; simpl in Hin; intuition congruence. }
        exists r. split; [exact Hbody|]. split; [exact Hpl|].
        destruct Hpl as (_ & _ & _ & _ & _ & ->).
        destruct (lowTrust r); discriminate.
    + apply (IH (fst (loop i n))); [|exact Hin].
      apply loop_inRange. exact Hn.
Qed.

(** X25. In one pass the node posts at most one report, a second time
    only when the first attempt returned no status.  It posts only over an
    established link and not within 1500 ms of the last post, and then
    because a score is below 60 or because 5000 ms have passed; the time of
    the last post moves exactly when it posts, whatever the gateway
    answers. *)
Theorem node_posts_are_debounced (i : Inputs) (n : Node) :
  inRange n ->
  let n' := fst (loop i n) in
  let posted := bodies (snd (loop i n)) in
  (List.length posted <= 2)%nat
  /\ (posted <> [] ->
      connected i = true
      /\ DEBOUNCE_MS <= sinceLastPost i n
      /\ (trustA n' < TRUST_THRESHOLD \/ trustB n' < TRUST_THRESHOLD
          \/ POST_INTERVAL_MS <= sinceLastPost i n)
      /\ lastPostTime n' = postClock i
      /\ (List.length posted = 2%nat <-> code1 i <= 0)
      /\ forall body, In body posted -> body = hd body posted)
  /\ (posted = [] -> lastPostTime n' = lastPostTime n).
Proof.
  intros Hn. cbv zeta.
  destruct (loop_bodies i n Hn)
    as [[Hnone Hp]|(r & Hb & Hpl & Hc & Hdeb & Hwhy & Hp & RA & RB & _)].
  - rewrite Hnone. simpl. split; [lia|]. split; [congruence|]. intros _. exact Hp.
  - rewrite Hb. split.
    { destruct (0 <? code1 i)%Z; simpl; lia. }
    split.
    + intros _. split; [exact Hc|]. split; [exact Hdeb|].
      split.
      { destruct Hwhy as [Hlow|Hint]; [|right; right; exact Hint].
        unfold lowTrust in Hlow.
        destruct Hpl as (_ & _ & _ & Hsame & _).
        rewrite Hsame, RA, RB in Hlow.
        apply orb_true_iff in Hlow as [H|H]; apply Z.ltb_lt in H;
          [left | right; left]; exact H. }
      split; [exact Hp|].
      split.
      { destruct (0 <? code1 i)%Z eqn:Hcode; simpl.
        - apply Z.ltb_lt in Hcode. split; [discriminate | lia].
        - apply Z.ltb_ge in Hcode. split; [intros _; exact Hcode | reflexivity]. }
      intros body Hin.
      destruct (0 <? code1 i)%Z; simpl in Hin |- *; intuition congruence.
    + intros Hnil. destruct (0 <? code1 i)%Z; discriminate Hnil.
Qed.

Lemma motorSpeedOf_cases (d : Z) :
  (d <= 5 /\ motorSpeedOf d = 0)
  \/ (5 < d < 50 /\ motorSpeedOf d = (d - 5) * 255 / 45
      /\ 0 < motorSpeedOf d < 255)
  \/ (50 <= d /\ motorSpeedOf d = 255).
Proof.
  unfold motorSpeedOf.
  destruct (5 <? d)%Z eqn:H5; [apply Z.ltb_lt in H5 | apply Z.ltb_ge in H5].
  - destruct (50 <=? d)%Z eqn:H50; [apply Z.leb_le in H50 | apply Z.leb_gt in H50].
    + right. right. split; [exact H50 | reflexivity].
    + right. left. split; [lia|].
      assert (Hmap : map d 5 50 0 255 = (d - 5) * 255 / 45).
      { unfold map.
        replace (255 - 0) with 255 by lia. replace (50 - 5) with 45 by lia.
        rewrite (int32_small ((d - 5) * 255)) by lia.
        rewrite Z.quot_div_nonneg by lia. rewrite Z.add_0_r.
        pose proof (Z.div_mod ((d - 5) * 255) 45) as Hdm.
        pose proof (Z.mod_pos_bound ((d - 5) * 255) 45) as Hmb.
        apply int32_small. lia. }
      rewrite Hmap. split; [reflexivity|].
      pose proof (Z.div_mod ((d - 5) * 255) 45) as Hdm.
      pose proof (Z.mod_pos_bound ((d - 5) * 255) 45) as Hmb.
      lia.
  - left. split; [exact H5 | reflexivity].
Qed.

Lemma motorSpeedOf_monotone (d1 d2 : Z) :
  d1 <= d2 -> motorSpeedOf d1 <= motorSpeedOf d2.
Proof.
  intros Hle.
  destruct (motorSpeedOf_cases d1) as [[H1 E1]|[(H1 & E1 & B1)|[H1 E1]]];
    destruct (motorSpeedOf_cases d2) as [[H2 E2]|[(H2 & E2 & B2)|[H2 E2]]];
    try lia.
  rewrite E1, E2. apply Z.div_le_mono; lia.
Qed.

Lemma motorValues_app (a b : list Effect) :
  motorValues (a ++ b) = (motorValues a ++ motorValues b)%list.
Proof.
  induction a as [|e a IH]; [reflexivity|].
  destruct e; cbn [motorValues app]; rewrite IH; try reflexivity.
  destruct (pin =? ENA)%Z; reflexivity.
Qed.

Lemma doPostIfNeeded_motor (dA dB pA pB : Z) (i : Inputs) (n : Node) :
  motorValues (snd (doPostIfNeeded dA dB pA pB i n)) = [].
Proof.
  unfold doPostIfNeeded. cbv zeta.
  destruct (reportOf _ _ _ _ _ _ _); [|reflexivity].
  cbn [snd]. destruct (0 <? code1 i)%Z; reflexivity.
Qed.

(** X26. In every pass the motor is driven once, from the distance read
    by the sensor that [loop] trusts after the update of the scores (sensor
    A unless B has the higher score): with a value between 0 and 255 that
    is 0 exactly when that distance is at most 5 cm, which includes a
    missing echo, and 255 exactly from 50 cm on, and that no smaller
    distance would exceed; the direction pins are set to run forward
    exactly when the value is not 0. *)
Theorem motor_follows_the_trusted_sensor (i : Inputs) (n : Node) :
  let d := chosenDistance i (fst (loop i n)) in
  exists v,
    motorValues (snd (loop i n)) = [v]
    /\ 0 <= v <= 255
    /\ (v = 0 <-> d <= 5)
    /\ (v = 255 <-> 50 <= d)
    /\ In (DigitalWrite IN1 (negb (v =? 0)%Z)) (snd (loop i n))
    /\ In (DigitalWrite IN2 false) (snd (loop i n))
    /\ forall d', d' <= d -> motorSpeedOf d' <= v.
Proof.
  cbv zeta. unfold chosenDistance.
  destruct (loop_scores i n) as [-> ->].
  unfold loop. cbv zeta. cbn [snd].
  set (d := if (_ <=? _)%Z then echoA i else echoB i).
  exists (motorSpeedOf d).
  assert (Hposted :
    forall posted : Node * list Effect,
      motorValues (snd posted) = [] ->
      motorValues
        ((if (motorSpeedOf d =? 0)%Z
          then ([DigitalWrite IN1 false; DigitalWrite IN2 false] ++ pwmWrite ENA 0)%list
          else ([DigitalWrite IN1 true; DigitalWrite IN2 false]
                  ++ pwmWrite ENA (motorSpeedOf d))%list)
           ++ snd posted ++ [Delay 250])%list
      = [motorSpeedOf d]).
  { intros posted Hp. rewrite !motorValues_app, Hp.
    destruct (motorSpeedOf_cases d) as [[H1 E1]|[(H1 & E1 & B1)|[H1 E1]]].
    - rewrite E1. reflexivity.
    - destruct (motorSpeedOf d =? 0)%Z eqn:Hz; [apply Z.eqb_eq in Hz; lia|].
      unfold pwmWrite.
      destruct (motorSpeedOf d <? 0)%Z eqn:Hneg; [apply Z.ltb_lt in Hneg; lia|].
      destruct (255 <? motorSpeedOf d)%Z eqn:Hbig; [apply Z.ltb_lt in Hbig; lia|].
      reflexivity.
    - rewrite E1. reflexivity. }
  split.
  { apply Hposted. destruct (connected i); [apply doPostIfNeeded_motor | reflexivity]. }
  destruct (motorSpeedOf_cases d) as [[H1 E1]|[(H1 & E1 & B1)|[H1 E1]]].
  - rewrite E1. repeat split; try lia.
    + simpl. left. reflexivity.
    + simpl. right. left. reflexivity.
    + intros d' Hd'. destruct (motorSpeedOf_cases d') as [[? ->]|[?|?]]; lia.
  - repeat split; try lia.
    + destruct (motorSpeedOf d =? 0)%Z eqn:Hz; [apply Z.eqb_eq in Hz; lia|].
      simpl. left. reflexivity.
    + destruct (motorSpeedOf d =? 0)%Z eqn:Hz; [apply Z.eqb_eq in Hz; lia|].
      simpl. right. left. reflexivity.
    + intros d' Hd'. now apply motorSpeedOf_monotone.
  - rewrite E1. repeat split; try lia.
    + simpl. left. reflexivity.
    + simpl. right. left. reflexivity.
    + intros d' Hd'. rewrite <- E1. now apply motorSpeedOf_monotone.
Qed.

(** X23 at two passes after [setup]. *)
Lemma scores_stay_in_range_and_move_by_one_witness :
  inRange (fst (run [movingPass 250 31; movingPass 500 32] (boot 0)))
  /\ Z.abs (trustA (fst (run [movingPass 250 31; movingPass 500 32] (boot 0)))
            - trustA (boot 0))
     <= Z.of_nat (List.length [movingPass 250 31; movingPass 500 32])
  /\ Z.abs (trustB (fst (run [movingPass 250 31; movingPass 500 32] (boot 0)))
            - trustB (boot 0))
     <= Z.of_nat (List.length [movingPass 250 31; movingPass 500 32]).
Proof.
  apply (scores_stay_in_range_and_move_by_one
           [movingPass 250 31; movingPass 500 32] (boot 0)).
  unfold inRange. simpl. lia.
Defined.

(** X24 at the first report after [setup], six seconds in. *)
Lemma node_never_reports_a_trust_change_witness :
  exists r,
    hd EmptyString (bodies (snd (run [steadyPass 6000] (boot 0)))) = jsonData r
    /\ plausible r /\ reason r <> "TRUST_CHANGE".
Proof.
  apply (node_never_reports_a_trust_change [steadyPass 6000] (boot 0)).
  - unfold inRange. simpl. lia.
  - vm_compute. left. reflexivity.
Defined.

(** X25 at a pass six seconds after [setup] in which the gateway is not
    reached: the report is sent twice and the time of the last post moves. *)
Lemma node_posts_are_debounced_witness :
  (List.length (bodies (snd (loop (movingPass 6000 31) (boot 0)))) <= 2)%nat
  /\ List.length (bodies (snd (loop (movingPass 6000 31) (boot 0)))) = 2%nat
  /\ lastPostTime (fst (loop (movingPass 6000 31) (boot 0))) = 6000.
Proof.
  assert (Hn : inRange (boot 0)) by (unfold inRange; simpl; lia).
  pose proof (node_posts_are_debounced (movingPass 6000 31) (boot 0) Hn) as H.
  cbv zeta in H. destruct H as (Hlen & Hpost & _).
  split; [exact Hlen|].
  assert (Hne : bodies (snd (loop (movingPass 6000 31) (boot 0))) <> [])
    by (vm_compute; discriminate).
  destruct (Hpost Hne) as (_ & _ & _ & Hlast & Htwice & _).
  split; [|exact Hlast].
  apply Htwice. simpl. lia.
Defined.

End NodeFacts.
